(** * Restaurant menu optimizer: a shallow embedding and its properties

    This development embeds [RestaurantOptimization.py] (the class
    [RestaurantOptimizer] with its data classes [Dish] and [MenuSolution])
    and the construction of the optimizer in [RestaurantMain.py], together
    with the decisions of its caller and the recognition helpers of
    [RestaurantAssistant.py]: the matching of item names with quantities,
    the shop filter and the two scanning loops.

    Conventions of the embedding:
    - a Python [int] is a [Z]; [a // b] is [Z.div] (floor, as in Python);
    - a Python [float] is an IEEE 754 binary64 number: a finite one is the
      rational [Q] it denotes, and [round64] rounds a rational to the
      nearest such number, ties to even.  The true division [a / b] of two
      integers is [round64 (a # b)] (Python rounds the exact quotient), a
      product of floats the rounding of the exact product, with an infinite
      result from 2^1024 on; [int(x)] truncates towards zero ([int_of_Q])
      and raises on an infinity or a NaN.  An [int / int] quotient of
      2^1024 or more raises [OverflowError] in Python; this needs an
      operand of more than a thousand bits and is left out: [round64] has
      no largest exponent;
    - the fill ratio of a plan entry and the hours of a solution are kept
      as the exact quotients whose nearest floats the program holds;
      rounding preserves their order and the bounds 0 and 1;
    - [float('inf')] as the start value of a running minimum is [None] in
      an [option Z];
    - a [Dict[str, int]] is a [gmap string Z]; [d.get(k, 0)] is [get d k];
      [d.items()] is [items d].  No result of the program depends on the
      order in which a dictionary is iterated;
    - [json] loading is outside the embedding: the loaded catalogue, the
      player levels and the ingredient names are arguments of [init]. *)

From Stdlib Require Import ZArith QArith Qminmax Qabs Lia.
From stdpp Require Import gmap strings list fin_maps.

Open Scope Z_scope.

(** ** Floats *)

(** The integer nearest to [n / d], for [0 < d], ties to the even one. *)
Definition round_half_even (n d : Z) : Z :=
  let q := n / d in
  let r := n mod d in
  if 2 * r <? d then q
  else if d <? 2 * r then q + 1
  else if Z.even q then q else q + 1.

(** [floor (log2 (n / d))] for [0 < n] and [0 < d]. *)
Definition floor_log2 (n d : Z) : Z :=
  if d <=? n then Z.log2 (n / d) else - Z.log2_up ((d + n - 1) / n).

(** Rounding to binary64: 53 significant bits, the last place never below
    2^-1074, round to nearest, ties to even. *)
Definition round64 (x : Q) : Q :=
  let n := Qnum x in
  let d := Zpos (Qden x) in
  if n =? 0 then 0%Q
  else
    let e := floor_log2 (Z.abs n) d in
    let ulp := Z.max (e - 52) (-1074) in
    if 0 <=? ulp
    then inject_Z (round_half_even n (d * 2 ^ ulp) * 2 ^ ulp)
    else Qmake (round_half_even (n * 2 ^ (- ulp)) d) (Z.to_pos (2 ^ (- ulp))).

(** A float: finite (the rational it denotes), infinite, or not a number. *)
Inductive pyfloat :=
  | Finite (q : Q)
  | Infinite (negative : bool)
  | NaN.

(** The float result of an operation whose exact result is [x]. *)
Definition float_of (x : Q) : pyfloat :=
  let r := round64 x in
  if Qle_bool (inject_Z (2 ^ 1024)) (Qabs r)
  then Infinite (Qnum r <? 0)
  else Finite r.

(** [x * 60] on a float. *)
Definition times_60 (x : pyfloat) : pyfloat :=
  match x with
  | Finite q => float_of (q * 60)
  | Infinite negative => Infinite negative
  | NaN => NaN
  end.

(** The exceptions that the embedding tells apart. *)
Inductive exception :=
  | KeyError
  | ValueError
  | OverflowError.

(** [int(x)] on a rational: truncation towards zero. *)
Definition int_of_Q (x : Q) : Z := Z.quot (Qnum x) (Zpos (Qden x)).

(** [int(x)] on a float. *)
Definition int_of_float (x : pyfloat) : exception + Z :=
  match x with
  | Finite q => inr (int_of_Q q)
  | Infinite _ => inl OverflowError
  | NaN => inl ValueError
  end.

(** ** Data classes *)

Record Dish := mkDish {
  name : string;
  cookware : string;
  price : Z;
  time : Z;
  unlock_level : Z;
  ingredients : gmap string Z
}.

Record MenuSolution := mkMenuSolution {
  dish : Dish;
  count : Z;
  bar_ratio : Q
}.

(** [Dish.profit_rate]: [price / time if time > 0 else 0], a float. *)
Definition profit_rate (d : Dish) : Q :=
  if 0 <? time d then round64 (Qmake (price d) (Z.to_pos (time d))) else 0%Q.

(** ** Dictionaries *)

Definition get (d : gmap string Z) (k : string) : Z := default 0 (d !! k).

Definition items (d : gmap string Z) : list (string * Z) := map_to_list d.

(** ** The optimizer object *)

Record RestaurantOptimizer := mkOptimizer {
  time_limit : Z;
  max_slots : Z;
  warehouse_storage : gmap string Z;
  purchasable_ingredients : gmap string Z;
  unlocked_dishes : list Dish;
  total_ingredients : gmap string Z
}.

(** The list comprehension of [__init__]; [levels[dish.cookware]] raises
    [KeyError] on an unknown cookware, which is [None] here. *)
Fixpoint filter_unlocked (levels : gmap string Z) (dishes : list Dish)
  : option (list Dish) :=
  match dishes with
  | [] => Some []
  | d :: rest =>
      match levels !! cookware d with
      | None => None
      | Some lv =>
          match filter_unlocked levels rest with
          | None => None
          | Some keep => Some (if unlock_level d <=? lv then d :: keep else keep)
          end
      end
  end.

(** The dictionary comprehension of [__init__]:
    [{name: warehouse.get(name, 0) + shop.get(name, 0) for name in names}]. *)
Definition sum_storages (warehouse shop : gmap string Z) (names : list string)
  : gmap string Z :=
  foldl (fun acc n => <[n := get warehouse n + get shop n]> acc) ∅ names.

(** The default of the parameter [time_limit]: 24 (hours). *)
Definition default_time_limit : pyfloat := Finite 24.

(** [RestaurantOptimizer.__init__] with its exceptions: first
    [int(time_limit * 60)], which raises [OverflowError] on an infinite
    product and [ValueError] on a NaN, then the [KeyError] of
    [levels[dish.cookware]].  [dishes] is the result of [_load_dishes],
    [levels] and [ingredient_names] that of
    [_load_levels_and_ingredients]. *)
Definition construct (dishes : list Dish) (levels : gmap string Z)
    (ingredient_names : list string)
    (warehouse shop : gmap string Z) (hours : pyfloat) (slots : Z)
  : exception + RestaurantOptimizer :=
  match int_of_float (times_60 hours) with
  | inl e => inl e
  | inr minutes =>
      match filter_unlocked levels dishes with
      | None => inl KeyError
      | Some unlocked =>
          inr {| time_limit := minutes;
                 max_slots := slots;
                 warehouse_storage := warehouse;
                 purchasable_ingredients := shop;
                 unlocked_dishes := unlocked;
                 total_ingredients :=
                   sum_storages warehouse shop ingredient_names |}
      end
  end.

(** The constructor, whatever the exception: [None] when it raises. *)
Definition init (dishes : list Dish) (levels : gmap string Z)
    (ingredient_names : list string)
    (warehouse shop : gmap string Z) (hours : pyfloat) (slots : Z)
  : option RestaurantOptimizer :=
  match construct dishes levels ingredient_names warehouse shop hours slots
  with
  | inl _ => None
  | inr self => Some self
  end.

(** The horizon argument of [RestaurantMainProcess.run]: the text
    [estimated_selling_time] either converts with [float(...)], to a
    number, an infinity or a NaN, or raises [ValueError]. *)
Inductive selling_time :=
  | Numeric (hours : pyfloat)
  | NotNumeric.

(** The [try]/[except] of [RestaurantMainProcess.run] that builds the
    optimizer.  The handler catches the [ValueError] of [float(...)] and,
    the constructor being called inside the [try], also the [ValueError]
    that [int] raises in it on a NaN; it then calls the constructor
    without a horizon, which leaves [time_limit] at its default.  An
    [OverflowError] or a [KeyError] of the constructor is not caught: the
    run ends with it ([None]).  [max_slots] is never passed. *)
Definition run_optimizer (dishes : list Dish) (levels : gmap string Z)
    (ingredient_names : list string)
    (warehouse shop : gmap string Z) (est : selling_time)
  : option RestaurantOptimizer :=
  match est with
  | Numeric decision_time =>
      match construct dishes levels ingredient_names warehouse shop
              decision_time 2 with
      | inr optimizer => Some optimizer
      | inl ValueError =>
          init dishes levels ingredient_names warehouse shop
            default_time_limit 2
      | inl _ => None
      end
  | NotNumeric =>
      init dishes levels ingredient_names warehouse shop default_time_limit 2
  end.

(** ** Limits *)

(** [int(self.time_limit / dish.time)]: the quotient is a float. *)
Definition _calc_time_limit (self : RestaurantOptimizer) (d : Dish) : Z :=
  if time d <=? 0 then 0
  else int_of_Q (round64 (Qmake (time_limit self) (Z.to_pos (time d)))).

(** [min(max_count, x)] where [max_count] starts at infinity. *)
Definition min_inf (max_count : option Z) (x : Z) : option Z :=
  match max_count with
  | None => Some x
  | Some m => Some (Z.min m x)
  end.

Fixpoint ingredient_limit_loop (available : gmap string Z)
    (reqs : list (string * Z)) (max_count : option Z) : option Z :=
  match reqs with
  | [] => max_count
  | (ingredient, required) :: rest =>
      ingredient_limit_loop available rest
        (if 0 <? required
         then min_inf max_count (get available ingredient / required)
         else max_count)
  end.

Definition _calc_ingredient_limit (d : Dish) (available : gmap string Z) : Z :=
  match ingredient_limit_loop available (items (ingredients d)) None with
  | Some m => m
  | None => 0
  end.

Definition _optimize_single_dish (self : RestaurantOptimizer) (d : Dish)
  : Z * Z :=
  let count := Z.min (_calc_time_limit self d)
                     (_calc_ingredient_limit d (total_ingredients self)) in
  (count, count * price d).

(** ** Fill ratio *)

Definition Qmax_py (a b : Q) : Q := if Qlt_le_dec a b then b else a.

Fixpoint bar_ratio_loop (count : Z) (reqs : list (string * Z))
    (st : Q * gmap string Z) : Q * gmap string Z :=
  match reqs with
  | [] => st
  | (ingredient, required_amount) :: rest =>
      if required_amount <=? 0 then bar_ratio_loop count rest st
      else
        let '(ratio, current_ingredients) := st in
        let current_amount := get current_ingredients ingredient in
        let max_makeable := current_amount / required_amount in
        let current_ratio :=
          if 0 <? max_makeable
          then Qmake count (Z.to_pos max_makeable)
          else 0%Q in
        let remaining_amount := current_amount - required_amount * count in
        let remaining_amount :=
          if remaining_amount <? 0 then 0 else remaining_amount in
        bar_ratio_loop count rest
          (Qmax_py current_ratio ratio,
           <[ingredient := remaining_amount]> current_ingredients)
  end.

Definition _calc_bar_ratio (d : Dish) (count : Z)
    (available_ingredients : gmap string Z) : Q * gmap string Z :=
  bar_ratio_loop count (items (ingredients d)) (0%Q, available_ingredients).

(** ** Two-dish search *)

(** The inner [for] of [_optimize_two_dishes] that fills
    [used_ingredients]; [None] is [can_make = False] (the [break]). *)
Fixpoint used_loop (total : gmap string Z) (count1 : Z)
    (reqs : list (string * Z)) (used_ingredients : gmap string Z)
  : option (gmap string Z) :=
  match reqs with
  | [] => Some used_ingredients
  | (ingredient, required) :: rest =>
      let total_needed := count1 * required in
      if get total ingredient <? total_needed then None
      else used_loop total count1 rest
             (<[ingredient := total_needed]> used_ingredients)
  end.

(** [remaining_ingredients[ingredient] = total - used.get(ingredient, 0)]
    for every entry of [total_ingredients]. *)
Definition remaining_after (total used_ingredients : gmap string Z)
  : gmap string Z :=
  map_imap (fun ingredient t => Some (t - get used_ingredients ingredient))
           total.

(** The orientation step: the pair in enumeration order (outer dish first),
    their time limits, and the [swapped] flag. *)
Definition orient (self : RestaurantOptimizer) (dish1 dish2 : Dish)
  : Dish * Dish * Z * Z * bool :=
  let time_limit1 := _calc_time_limit self dish1 in
  let time_limit2 := _calc_time_limit self dish2 in
  if Qlt_le_dec (profit_rate dish1) (profit_rate dish2)
  then (dish2, dish1, time_limit2, time_limit1, true)
  else (dish1, dish2, time_limit1, time_limit2, false).

(** The loop [for count1 in range(time_limit1 + 1)], with both of its
    exits; [best] is [(best_counts, best_profit)]. *)
Fixpoint count1_loop (total : gmap string Z) (dish1 dish2 : Dish)
    (time_limit2 : Z) (swapped : bool) (range : list Z)
    (best : list Z * Z) : list Z * Z :=
  match range with
  | [] => best
  | count1 :: rest =>
      match used_loop total count1 (items (ingredients dish1)) ∅ with
      | None => best
      | Some used_ingredients =>
          let remaining_ingredients := remaining_after total used_ingredients in
          let ingredient_limit2 :=
            _calc_ingredient_limit dish2 remaining_ingredients in
          let count2 := Z.min time_limit2 ingredient_limit2 in
          let profit := count1 * price dish1 + count2 * price dish2 in
          count1_loop total dish1 dish2 time_limit2 swapped rest
            (if best.2 <? profit
             then (if swapped then [count2; count1] else [count1; count2],
                   profit)
             else best)
      end
  end.

(** The search for a pair whose orientation is already fixed. *)
Definition search_oriented (total : gmap string Z) (outer inner : Dish)
    (time_limit1 time_limit2 : Z) (swapped : bool) : list Z * Z :=
  count1_loop total outer inner time_limit2 swapped
    (seqZ 0 (time_limit1 + 1)) ([0; 0], 0).

Definition _optimize_two_dishes (self : RestaurantOptimizer)
    (dish1 dish2 : Dish) : list Z * Z :=
  let '(outer, inner, time_limit1, time_limit2, swapped) :=
    orient self dish1 dish2 in
  search_oriented (total_ingredients self) outer inner
    time_limit1 time_limit2 swapped.

(** ** The whole search *)

(** The dictionary [best_solution]. *)
Record Solution := mkSolution {
  dishes : list Dish;
  counts : list Z;
  profit : Z;
  total_time_hours : list Q
}.

Definition empty_solution : Solution :=
  {| dishes := []; counts := []; profit := 0; total_time_hours := [] |}.

Definition hours_of (count : Z) (d : Dish) : Q := Qmake (count * time d) 60.

Definition try_single (self : RestaurantOptimizer) (best : Solution)
    (d : Dish) : Solution :=
  let '(count, profit1) := _optimize_single_dish self d in
  if profit best <? profit1
  then {| dishes := [d]; counts := [count]; profit := profit1;
          total_time_hours := [hours_of count d] |}
  else best.

(** [itertools.combinations(l, 2)]. *)
Fixpoint combinations2 {A : Type} (l : list A) : list (A * A) :=
  match l with
  | [] => []
  | x :: rest => map (fun y => (x, y)) rest ++ combinations2 rest
  end.

Definition try_pair (self : RestaurantOptimizer) (best : Solution)
    (p : Dish * Dish) : Solution :=
  let '(dish1, dish2) := p in
  let '(counts2, profit2) := _optimize_two_dishes self dish1 dish2 in
  if profit best <? profit2
  then {| dishes := [dish1; dish2]; counts := counts2; profit := profit2;
          total_time_hours :=
            [hours_of (nth 0 counts2 0) dish1; hours_of (nth 1 counts2 0) dish2] |}
  else best.

Definition best_single (self : RestaurantOptimizer) : Solution :=
  foldl (try_single self) empty_solution (unlocked_dishes self).

Definition search (self : RestaurantOptimizer) : Solution :=
  let best := best_single self in
  if 2 <=? max_slots self
  then foldl (try_pair self) best (combinations2 (unlocked_dishes self))
  else best.

(** ** Realisation of the chosen solution *)

(** [purchase_plan[name] += demand * count], creating the entry on
    [KeyError]. *)
Fixpoint demand_loop (purchasable : gmap string Z) (count : Z)
    (reqs : list (string * Z)) (purchase_plan : gmap string Z)
  : gmap string Z :=
  match reqs with
  | [] => purchase_plan
  | (ingredient_name, ingredient_demand) :: rest =>
      demand_loop purchasable count rest
        (match purchasable !! ingredient_name with
         | Some _ =>
             <[ingredient_name :=
                 get purchase_plan ingredient_name + ingredient_demand * count]>
               purchase_plan
         | None => purchase_plan
         end)
  end.

(** The loop over [range(len(best_solution['dishes']))]; the two lists
    of a solution built by the search always have the same length. *)
Fixpoint realize_loop (purchasable : gmap string Z)
    (ds : list Dish) (cs : list Z)
    (st : list MenuSolution * gmap string Z * gmap string Z)
  : list MenuSolution * gmap string Z * gmap string Z :=
  match ds, cs with
  | d :: ds', c :: cs' =>
      let '(solutions, purchase_plan, remaining_ingredients) := st in
      let '(ratio, remaining') := _calc_bar_ratio d c remaining_ingredients in
      realize_loop purchasable ds' cs'
        (solutions ++ [mkMenuSolution d c ratio],
         demand_loop purchasable c (items (ingredients d)) purchase_plan,
         remaining')
  | _, _ => st
  end.

(** The last loop: subtract what the warehouse already holds, floor at 0. *)
Definition rectify (warehouse purchase_plan : gmap string Z) : gmap string Z :=
  map_imap (fun name demand =>
              let rectified_demand := demand - get warehouse name in
              Some (if 0 <? rectified_demand then rectified_demand else 0))
           purchase_plan.

Definition realize (self : RestaurantOptimizer) (best : Solution)
  : list MenuSolution * gmap string Z :=
  let '(solutions, purchase_plan, _) :=
    realize_loop (purchasable_ingredients self) (dishes best) (counts best)
      ([], ∅, total_ingredients self) in
  (solutions, rectify (warehouse_storage self) purchase_plan).

Definition find_best_solution (self : RestaurantOptimizer)
  : list MenuSolution * gmap string Z :=
  realize self (search self).

(** * Vocabulary of the statements *)

(** A dish is degenerate when no requirement of it is positive. *)
Definition degenerate (d : Dish) : Prop :=
  map_Forall (fun _ v => v <= 0) (ingredients d).

Definition has_requirement (d : Dish) : Prop :=
  map_Exists (fun _ v => 0 < v) (ingredients d).

#[global] Instance degenerate_dec d : Decision (degenerate d).
Proof. unfold degenerate. apply _. Defined.

#[global] Instance has_requirement_dec d : Decision (has_requirement d).
Proof. unfold has_requirement. apply _. Defined.

(** [count1] units of [d] fit in the pool, ingredient by ingredient: the
    test that decides [can_make]. *)
Definition can_make (total : gmap string Z) (d : Dish) (count1 : Z) : Prop :=
  ∀ k v, ingredients d !! k = Some v → count1 * v <= get total k.

(** What is left of ingredient [k] once [c] units of [d] are reserved. *)
Definition left_over (total : gmap string Z) (d : Dish) (c : Z) (k : string)
  : Z :=
  match total !! k with
  | Some t => t - c * get (ingredients d) k
  | None => 0
  end.

(** The pool after [c] units of [d] are reserved, as the search computes
    it ([remaining_ingredients]). *)
Definition pool_left (total : gmap string Z) (d : Dish) (c : Z)
  : gmap string Z :=
  map_imap (fun k t => Some (t - c * get (ingredients d) k)) total.

(** The inner count, the profit and the pair of counts that the body of
    the loop computes at [count1]. *)
Definition count2_at (total : gmap string Z) (outer inner : Dish)
    (time_limit2 : Z) (count1 : Z) : Z :=
  Z.min time_limit2 (_calc_ingredient_limit inner (pool_left total outer count1)).

Definition profit_at (total : gmap string Z) (outer inner : Dish)
    (time_limit2 : Z) (count1 : Z) : Z :=
  count1 * price outer
  + count2_at total outer inner time_limit2 count1 * price inner.

Definition counts_at (total : gmap string Z) (outer inner : Dish)
    (time_limit2 : Z) (swapped : bool) (count1 : Z) : list Z :=
  if swapped
  then [count2_at total outer inner time_limit2 count1; count1]
  else [count1; count2_at total outer inner time_limit2 count1].

Definition pools_nonneg (pool : gmap string Z) : Prop :=
  map_Forall (fun _ v => 0 <= v) pool.

Definition requirements_nonneg (d : Dish) : Prop :=
  map_Forall (fun _ v => 0 <= v) (ingredients d).

#[global] Instance pools_nonneg_dec pool : Decision (pools_nonneg pool).
Proof. unfold pools_nonneg. apply _. Defined.

#[global] Instance requirements_nonneg_dec d : Decision (requirements_nonneg d).
Proof. unfold requirements_nonneg. apply _. Defined.

(** [c1] units of [d1] and [c2] units of [d2] were produced by one pass of
    the loop body, with one of the two dishes enumerated ([outer]). *)
Definition enumerated (self : RestaurantOptimizer) (outer inner : Dish)
    (cO cI : Z) : Prop :=
  0 <= cO <= _calc_time_limit self outer ∧
  can_make (total_ingredients self) outer cO ∧
  cI = count2_at (total_ingredients self) outer inner
         (_calc_time_limit self inner) cO.

Definition pair_alloc (self : RestaurantOptimizer) (d1 d2 : Dish)
    (c1 c2 : Z) : Prop :=
  enumerated self d1 d2 c1 c2 ∨ enumerated self d2 d1 c2 c1.

(** The best solution of the pair loop on its own, that is, started from
    the empty solution instead of the best single dish. *)
Definition two_best (self : RestaurantOptimizer) : Solution :=
  foldl (try_pair self) empty_solution (combinations2 (unlocked_dishes self)).

(** The shapes a kept solution can have. *)
Definition chosen_single (self : RestaurantOptimizer) (sol : Solution) : Prop :=
  ∃ d, d ∈ unlocked_dishes self ∧
       dishes sol = [d] ∧
       counts sol = [(_optimize_single_dish self d).1] ∧
       profit sol = (_optimize_single_dish self d).1 * price d ∧
       0 < profit sol.

Definition chosen_pair (self : RestaurantOptimizer) (sol : Solution) : Prop :=
  ∃ d1 d2 c1 c2,
    (d1, d2) ∈ combinations2 (unlocked_dishes self) ∧
    dishes sol = [d1; d2] ∧ counts sol = [c1; c2] ∧
    profit sol = c1 * price d1 + c2 * price d2 ∧
    pair_alloc self d1 d2 c1 c2 ∧
    profit (best_single self) < profit sol.

Definition chosen (self : RestaurantOptimizer) (sol : Solution) : Prop :=
  sol = empty_solution ∨ chosen_single self sol ∨ chosen_pair self sol.

(** The entries of a plan are computed one after the other, each against
    the pool its predecessors left. *)
Fixpoint threaded (pool : gmap string Z) (sols : list MenuSolution) : Prop :=
  match sols with
  | [] => True
  | s :: rest =>
      bar_ratio s = (_calc_bar_ratio (dish s) (count s) pool).1 ∧
      threaded (_calc_bar_ratio (dish s) (count s) pool).2 rest
  end.

(** The purchase plan before rectification, entry by entry. *)
Definition plan_of (purchasable : gmap string Z) (sols : list MenuSolution)
    (plan0 : gmap string Z) : gmap string Z :=
  foldl (fun plan s =>
           demand_loop purchasable (count s) (items (ingredients (dish s))) plan)
        plan0 sols.

(** [count] units fit the scarcest ingredient of [reqs] in [pool]. *)
Definition fits (pool : gmap string Z) (reqs : list (string * Z)) (count : Z)
  : Prop :=
  ∀ k v, (k, v) ∈ reqs → 0 < v → 0 < get pool k / v →
         0 <= count <= get pool k / v.

(** The total demand an allocation puts on ingredient [k]. *)
Definition total_demand (sols : list MenuSolution) (k : string) : Z :=
  foldr (fun s acc => count s * get (ingredients (dish s)) k + acc) 0 sols.

(** What is left of ingredient [k] in [pool] once the entries [earlier]
    are consumed. *)
Definition pool_after (pool : gmap string Z) (earlier : list MenuSolution)
    (k : string) : Z :=
  get pool k - total_demand earlier k.

(** The fill ratio in the words of the specification.  For one ingredient
    required in the positive quantity [required]:
    [max_makeable = remaining // required] and the ratio is
    [count / max_makeable], or 0 when [max_makeable] is not positive. *)
Definition ingredient_ratio (remaining : string → Z) (count : Z)
    (ingredient : string) (required : Z) : Q :=
  let max_makeable := remaining ingredient / required in
  if 0 <? max_makeable then Qmake count (Z.to_pos max_makeable) else 0%Q.

(** [ratio] is the fill ratio of [count] units of [d] against [remaining]:
    the largest of the ratios of the ingredients required in positive
    quantity, and 0 for a dish that requires nothing. *)
Definition spec_fill_ratio (remaining : string → Z) (d : Dish) (count : Z)
    (ratio : Q) : Prop :=
  (¬ has_requirement d ∧ (ratio == 0)%Q) ∨
  ((∀ k v, ingredients d !! k = Some v → 0 < v →
           (ingredient_ratio remaining count k v <= ratio)%Q) ∧
   ∃ k v, ingredients d !! k = Some v ∧ 0 < v ∧
          (ratio == ingredient_ratio remaining count k v)%Q).

(** Ingredient [k] is listed by a dish of the allocation. *)
Definition demanded (sols : list MenuSolution) (k : string) : Prop :=
  Exists (fun s => is_Some (ingredients (dish s) !! k)) sols.

(** The entries returned for each shape of the kept solution. *)
Inductive plan_shape (self : RestaurantOptimizer)
  : list MenuSolution → Prop :=
  | shape_empty : plan_shape self []
  | shape_single d ratio :
      d ∈ unlocked_dishes self →
      0 < (_optimize_single_dish self d).1 * price d →
      plan_shape self
        [mkMenuSolution d (_optimize_single_dish self d).1 ratio]
  | shape_pair d1 d2 c1 c2 ratio1 ratio2 :
      (d1, d2) ∈ combinations2 (unlocked_dishes self) →
      pair_alloc self d1 d2 c1 c2 →
      profit (best_single self) < c1 * price d1 + c2 * price d2 →
      plan_shape self
        [mkMenuSolution d1 c1 ratio1; mkMenuSolution d2 c2 ratio2].

(** * Concrete kitchens *)

Open Scope string_scope.

Ltac by_decision := apply (bool_decide_unpack _); vm_compute; exact I.

(** The names and counts of a plan. *)
Definition entries (r : list MenuSolution * gmap string Z)
  : list (string * Z) :=
  map (fun s => (name (dish s), count s)) r.1.

(** Two dishes on separate ingredients; the pair is kept. *)
Definition stir_fry : Dish := mkDish "stir_fry" "wok" 10 60 1 {[ "x" := 1 ]}.
Definition dumpling : Dish := mkDish "dumpling" "steamer" 5 60 1 {[ "y" := 1 ]}.

Definition kitchen : RestaurantOptimizer :=
  {| time_limit := 120; max_slots := 2;
     warehouse_storage := {[ "x" := 1; "y" := 3 ]};
     purchasable_ingredients := {[ "x" := 1 ]};
     unlocked_dishes := [stir_fry; dumpling];
     total_ingredients := {[ "x" := 2; "y" := 3 ]} |}.

(** Scenario A of the specification: a catalogue of one dish. *)
Definition dish_A : Dish := mkDish "A" "wok" 10 60 1 {[ "x" := 1 ]}.

Definition scenario_A : RestaurantOptimizer :=
  {| time_limit := 120; max_slots := 2;
     warehouse_storage := {[ "x" := 5 ]};
     purchasable_ingredients := ∅;
     unlocked_dishes := [dish_A];
     total_ingredients := {[ "x" := 5 ]} |}.

(** Scenario D: the warehouse alone covers the demand. *)
Definition scenario_D : RestaurantOptimizer :=
  {| time_limit := 120; max_slots := 2;
     warehouse_storage := {[ "x" := 5 ]};
     purchasable_ingredients := {[ "x" := 3 ]};
     unlocked_dishes := [dish_A];
     total_ingredients := {[ "x" := 8 ]} |}.

(** A dish without any requirement next to an ordinary one. *)
Definition free_dish : Dish := mkDish "free" "wok" 10 60 1 ∅.
Definition soup : Dish := mkDish "soup" "pot" 5 60 1 {[ "x" := 1 ]}.

Definition free_kitchen : RestaurantOptimizer :=
  {| time_limit := 120; max_slots := 2;
     warehouse_storage := {[ "x" := 1 ]};
     purchasable_ingredients := ∅;
     unlocked_dishes := [soup; free_dish];
     total_ingredients := {[ "x" := 1 ]} |}.

(** A requirement with a negative quantity. *)
Definition surplus : Dish := mkDish "surplus" "wok" 1 60 1 {[ "x" := -1 ]}.
Definition plain : Dish := mkDish "plain" "wok" 1 60 1 {[ "x" := 1 ]}.

Definition surplus_kitchen : RestaurantOptimizer :=
  {| time_limit := 120; max_slots := 2;
     warehouse_storage := {[ "x" := 1 ]};
     purchasable_ingredients := ∅;
     unlocked_dishes := [surplus; plain];
     total_ingredients := {[ "x" := 1 ]} |}.

(** A negative price under a negative horizon. *)
Definition loss : Dish := mkDish "loss" "wok" (-5) 60 1 {[ "x" := 1 ]}.

Definition backwards_kitchen : RestaurantOptimizer :=
  {| time_limit := -60; max_slots := 2;
     warehouse_storage := {[ "x" := 10 ]};
     purchasable_ingredients := ∅;
     unlocked_dishes := [loss];
     total_ingredients := {[ "x" := 10 ]} |}.

Definition late_kitchen : RestaurantOptimizer :=
  {| time_limit := -60; max_slots := 2;
     warehouse_storage := {[ "x" := 1 ]};
     purchasable_ingredients := ∅;
     unlocked_dishes := [soup];
     total_ingredients := {[ "x" := 1 ]} |}.

Definition default_kitchen : RestaurantOptimizer :=
  {| time_limit := 1440; max_slots := 2;
     warehouse_storage := {[ "x" := 1 ]};
     purchasable_ingredients := ∅;
     unlocked_dishes := [soup];
     total_ingredients := {[ "x" := 1 ]} |}.

(** A dish sold at a loss next to a profitable one. *)
Definition giveaway : Dish := mkDish "giveaway" "wok" (-1) 60 1 {[ "y" := 1 ]}.

Definition giveaway_kitchen : RestaurantOptimizer :=
  {| time_limit := 120; max_slots := 2;
     warehouse_storage := {[ "x" := 2; "y" := 3 ]};
     purchasable_ingredients := ∅;
     unlocked_dishes := [stir_fry; giveaway];
     total_ingredients := {[ "x" := 2; "y" := 3 ]} |}.

(** Two dishes that share an ingredient; the pair is kept. *)
Definition noodle : Dish := mkDish "noodle" "pot" 10 60 1 {[ "x" := 1 ]}.
Definition congee : Dish :=
  mkDish "congee" "pot" 5 60 1 {[ "x" := 1; "y" := 1 ]}.

Definition shared_kitchen : RestaurantOptimizer :=
  {| time_limit := 120; max_slots := 2;
     warehouse_storage := {[ "x" := 3; "y" := 3 ]};
     purchasable_ingredients := ∅;
     unlocked_dishes := [noodle; congee];
     total_ingredients := {[ "x" := 3; "y" := 3 ]} |}.

(** Three dishes on one scarce ingredient, the last two with the same
    profit; no pair earns more than the best single dish. *)
Definition tofu : Dish := mkDish "tofu" "wok" 3 60 1 {[ "x" := 1 ]}.
Definition bun : Dish := mkDish "bun" "steamer" 5 60 1 {[ "x" := 1 ]}.
Definition roll : Dish := mkDish "roll" "steamer" 5 60 1 {[ "x" := 1 ]}.

Definition tie_kitchen : RestaurantOptimizer :=
  {| time_limit := 120; max_slots := 2;
     warehouse_storage := {[ "x" := 2 ]};
     purchasable_ingredients := ∅;
     unlocked_dishes := [tofu; bun; roll];
     total_ingredients := {[ "x" := 2 ]} |}.

(** A horizon of 10^15 hours, that is, 6 * 10^16 minutes: more than 2^53. *)
Definition snack : Dish := mkDish "snack" "wok" 1 9 1 {[ "x" := 1 ]}.

Definition long_kitchen : RestaurantOptimizer :=
  {| time_limit := 60000000000000000; max_slots := 2;
     warehouse_storage := {[ "x" := 10000000000000000 ]};
     purchasable_ingredients := ∅;
     unlocked_dishes := [snack];
     total_ingredients := {[ "x" := 10000000000000000 ]} |}.

(** A pool with a negative entry for an ingredient listed with quantity 0. *)
Definition garnished : Dish :=
  mkDish "garnished" "wok" 10 60 1 {[ "x" := 1; "y" := 0 ]}.

Definition overdrawn_kitchen : RestaurantOptimizer :=
  {| time_limit := 60; max_slots := 2;
     warehouse_storage := {[ "x" := 5; "y" := -1 ]};
     purchasable_ingredients := ∅;
     unlocked_dishes := [garnished; soup];
     total_ingredients := {[ "x" := 5; "y" := -1 ]} |}.

Close Scope string_scope.

(** * The rest of the optimizer and its caller *)

(** ** Catalogue loading *)

(** One entry of [dishes.json] as [json.load] returns it, restricted to
    the keys [_load_dishes] reads; [None] is an absent key. *)
Record RawDish := mkRawDish {
  raw_dish_id : option string;
  raw_profit : option Z;
  raw_sell_time : option Z;
  raw_unlock_level : option Z;
  raw_ingredients : option (gmap string Z)
}.

(** The call [Dish(...)] of [_load_dishes]; [None] is the [KeyError] of
    [dic_dish['dish_id']] or [dic_dish['ingredients']]. *)
Definition load_dish (cookware : string) (dic_dish : RawDish) : option Dish :=
  match raw_dish_id dic_dish, raw_ingredients dic_dish with
  | Some dish_id, Some ingredients =>
      Some {| name := dish_id;
              cookware := cookware;
              price := default 0 (raw_profit dic_dish);
              time := default 0 (raw_sell_time dic_dish);
              unlock_level := default 3 (raw_unlock_level dic_dish);
              ingredients := ingredients |}
  | _, _ => None
  end.

(** The inner loop: [dishes.append(Dish(...))] for the entries of one
    cookware. *)
Fixpoint load_cookware (cookware : string) (current_cookware_dishes : list RawDish)
    (dishes : list Dish) : option (list Dish) :=
  match current_cookware_dishes with
  | [] => Some dishes
  | dic_dish :: rest =>
      match load_dish cookware dic_dish with
      | None => None
      | Some d => load_cookware cookware rest (dishes ++ [d])
      end
  end.

(** The outer loop over [dic_dishes.items()], in the order of the file. *)
Fixpoint load_dishes_loop (dic_dishes : list (string * list RawDish))
    (dishes : list Dish) : option (list Dish) :=
  match dic_dishes with
  | [] => Some dishes
  | (cookware, current_cookware_dishes) :: rest =>
      match load_cookware cookware current_cookware_dishes dishes with
      | None => None
      | Some dishes' => load_dishes_loop rest dishes'
      end
  end.

Definition _load_dishes (dic_dishes : list (string * list RawDish))
  : option (list Dish) :=
  load_dishes_loop dic_dishes [].

(** [RestaurantOptimizer(...)] from the contents of the two files:
    [player_status] gives [levels] and [ingredient_names]. *)
Definition new_optimizer (dic_dishes : list (string * list RawDish))
    (levels : gmap string Z) (ingredient_names : list string)
    (warehouse shop : gmap string Z) (hours : pyfloat) (slots : Z)
  : option RestaurantOptimizer :=
  match _load_dishes dic_dishes with
  | None => None
  | Some dishes => init dishes levels ingredient_names warehouse shop hours slots
  end.

(** ** The decisions of [RestaurantMainProcess.run] *)

Open Scope string_scope.

(** [shop_storage]: the shop is scanned unless the option is [DoNotBuy]. *)
Definition shop_storage_for (ingredients_purchase_option : string)
    (shop_scan : gmap string Z) : gmap string Z :=
  if String.eqb ingredients_purchase_option "DoNotBuy" then ∅ else shop_scan.

(** [max(demands.values())]; [None] is the [ValueError] on an empty
    dictionary. *)
Definition max_values (demands : gmap string Z) : option Z :=
  match (map_to_list demands).*2 with
  | [] => None
  | v :: rest => Some (foldl Z.max v rest)
  end.

(** The condition under which the task [shop_purchase] is run; the
    operators short-circuit, so the maximum is only taken of a non-empty
    dictionary. *)
Definition purchase_triggered (ingredients_purchase_option : string)
    (demands : gmap string Z) : bool :=
  if decide (demands = ∅) then false
  else if String.eqb ingredients_purchase_option "BuyAllDemand" then true
  else if String.eqb ingredients_purchase_option "OnlyBuyDemand"
       then match max_values demands with
            | Some m => (0 <? m)%Z
            | None => false
            end
       else false.

(** What one call of [run] decides once the optimizer exists: no plan
    (the message is pushed and nothing is shelved), or the plan to shelve
    together with the demands handed to [ShopPurchase], if any. *)
Inductive run_decision :=
  | NoPlan
  | Shelve (purchase : option (gmap string Z)) (solutions : list MenuSolution).

Definition decide_run (optimizer : RestaurantOptimizer)
    (ingredients_purchase_option : string) : run_decision :=
  let '(solutions, demands) := find_best_solution optimizer in
  match solutions with
  | [] => NoPlan
  | _ :: _ =>
      Shelve (if purchase_triggered ingredients_purchase_option demands
              then Some demands else None)
             solutions
  end.

(** [run] from the scans and its two parameters to its decision; [None]
    is an exception of the constructor. *)
Definition run (dishes : list Dish) (levels : gmap string Z)
    (ingredient_names : list string)
    (warehouse_scan shop_scan : gmap string Z)
    (estimated_selling_time : selling_time)
    (ingredients_purchase_option : string) : option run_decision :=
  match run_optimizer dishes levels ingredient_names warehouse_scan
          (shop_storage_for ingredients_purchase_option shop_scan)
          estimated_selling_time with
  | None => None
  | Some optimizer => Some (decide_run optimizer ingredients_purchase_option)
  end.

Close Scope string_scope.

(** ** Vocabulary of the further statements *)

(** [c1] units of [d1] and [c2] units of [d2] respect both time limits and
    fit the pool together. *)
Definition jointly_feasible (self : RestaurantOptimizer) (d1 d2 : Dish)
    (c1 c2 : Z) : Prop :=
  0 <= c1 <= _calc_time_limit self d1 ∧
  0 <= c2 <= _calc_time_limit self d2 ∧
  ∀ k, c1 * get (ingredients d1) k + c2 * get (ingredients d2) k
       <= get (total_ingredients self) k.

(** The profit of a plan. *)
Definition plan_profit (sols : list MenuSolution) : Z :=
  foldr (fun s acc => count s * price (dish s) + acc) 0 sols.

(** The running maximum of [_calc_bar_ratio] and the running minimum of
    [_calc_ingredient_limit], side by side. *)
Definition ratio_tracks (c : Z) (max_count : option Z) (ratio : Q) : Prop :=
  match max_count with
  | None => (ratio == 0)%Q
  | Some m => 0 < m ∧ (ratio == Qmake c (Z.to_pos m))%Q
  end.

(** The entries of [dishes.json] in file order, each with its cookware. *)
Definition catalogue_entries (dic_dishes : list (string * list RawDish))
  : list (string * RawDish) :=
  dic_dishes ≫= (fun '(cookware, entries) => (fun e => (cookware, e)) <$> entries).

(** The dish is unlocked at the levels of the player: its cookware has a
    level, and that level is at least the unlock level of the dish. *)
Definition unlocked_at (levels : gmap string Z) (d : Dish) : Prop :=
  match levels !! cookware d with
  | Some lv => unlock_level d <= lv
  | None => False
  end.

#[global] Instance unlocked_at_dec levels d : Decision (unlocked_at levels d).
Proof. unfold unlocked_at. destruct (levels !! cookware d); apply _. Defined.

(** The horizon text does not stand for a negative number. *)
Definition horizon_nonneg (est : selling_time) : Prop :=
  match est with
  | Numeric (Finite h) => (0 <= h)%Q
  | Numeric (Infinite negative) => negative = false
  | Numeric NaN => True
  | NotNumeric => True
  end.

(** The [best_solution] dictionary built for a single dish. *)
Definition single_solution (self : RestaurantOptimizer) (d : Dish) : Solution :=
  {| dishes := [d];
     counts := [(_optimize_single_dish self d).1];
     profit := (_optimize_single_dish self d).2;
     total_time_hours := [hours_of (_optimize_single_dish self d).1 d] |}.

(** ** Further concrete inputs *)

Open Scope string_scope.

(** A dish that needs an ingredient the player status does not name. *)
Definition exotic : Dish := mkDish "exotic" "wok" 1 60 1 {[ "z" := 1 ]}.

Definition pantry : RestaurantOptimizer :=
  {| time_limit := 120; max_slots := 2;
     warehouse_storage := {[ "z" := 9 ]};
     purchasable_ingredients := ∅;
     unlocked_dishes := [exotic; free_dish];
     total_ingredients := ∅ |}.

(** A catalogue file with one complete entry and one entry that has
    neither a selling time nor an unlock level. *)
Definition raw_catalogue : list (string * list RawDish) :=
  [("wok", [mkRawDish (Some "stir_fry") (Some 10) (Some 60) (Some 1)
              (Some {[ "x" := 1 ]});
            mkRawDish (Some "draft") (Some 99) None None
              (Some {[ "x" := 1 ]})])].

Close Scope string_scope.

(** The optimizer built from [raw_catalogue]. *)
Definition loaded_kitchen : RestaurantOptimizer :=
  {| time_limit := 120; max_slots := 2;
     warehouse_storage := {[ "x"%string := 5 ]};
     purchasable_ingredients := ∅;
     unlocked_dishes :=
       [mkDish "stir_fry" "wok" 10 60 1 {[ "x"%string := 1 ]};
        mkDish "draft" "wok" 99 0 3 {[ "x"%string := 1 ]}];
     total_ingredients := {[ "x"%string := 5 ]} |}.

(** * Recognition helpers ([RestaurantAssistant.py]) *)

(** ** OCR results *)

(** The library types [Rect] and [OCRResult], as far as the code uses
    them: a [Rect] has the integer fields [x], [y], [w], [h]; the [box] of
    a result is a list or tuple of integers, a [Rect], or something else;
    a score is a float, that is, a rational number. *)
Record Rect := mkRect {
  rect_x : Z;
  rect_y : Z;
  rect_w : Z;
  rect_h : Z
}.

Inductive box_value :=
  | BoxSeq (l : list Z)
  | BoxRect (r : Rect)
  | BoxOther.

Record OCRResult := mkOCRResult {
  text : string;
  box : box_value;
  score : Q
}.

(** [ocr_score_threshold = 0.8]: the double nearest to 8/10. *)
Definition ocr_score_threshold : Q :=
  Qmake 3602879701896397 4503599627370496.

Definition max_failed_num : Z := 5.

Definition above_threshold (result : OCRResult) : bool :=
  if Qlt_le_dec ocr_score_threshold (score result) then true else false.

(** ** [WarehouseScan.match_items_and_quantities] *)

Definition calculate_distance (p1 p2 : Z * Z) : Z :=
  Z.abs (p1.1 - p2.1) + Z.abs (p1.2 - p2.2).

(** [get_box]; [None] is the [ValueError] it raises. *)
Definition get_box (result : OCRResult) : option Rect :=
  match box result with
  | BoxSeq [x; y; w; h] => Some (mkRect x y w h)
  | BoxSeq _ => None
  | BoxRect r => Some r
  | BoxOther => None
  end.

(** The first loop: a result whose text converts with [int(...)] is a
    quantity, any other an item.  [int_text] is Python's [int] on a string,
    [None] for its [ValueError]. *)
Fixpoint split_results (int_text : string → option Z)
    (ocr_results : list OCRResult) (items quantities : list OCRResult)
  : list OCRResult * list OCRResult :=
  match ocr_results with
  | [] => (items, quantities)
  | result :: rest =>
      match int_text (text result) with
      | Some _ => split_results int_text rest items (quantities ++ [result])
      | None => split_results int_text rest (items ++ [result]) quantities
      end
  end.

(** The loop over [quantities] for one item; [i] is the position of the
    next quantity, [min_distance = None] is infinity, the outer [None] of
    the result is the [ValueError] of [get_box]. *)
Fixpoint nearest_quantity (item_point : Z * Z) (quantities : list OCRResult)
    (i : nat) (min_distance : option Z) (best : option (nat * OCRResult))
  : option (option (nat * OCRResult)) :=
  match quantities with
  | [] => Some best
  | quantity :: rest =>
      match get_box quantity with
      | None => None
      | Some quantity_box =>
          let quantity_point :=
            (rect_x quantity_box, rect_y quantity_box + rect_h quantity_box) in
          let current_distance := calculate_distance item_point quantity_point in
          if match min_distance with
             | None => true
             | Some m => current_distance <? m
             end
          then nearest_quantity item_point rest (S i)
                 (Some current_distance) (Some (i, quantity))
          else nearest_quantity item_point rest (S i) min_distance best
      end
  end.

(** The loop over [items].  [quantities.remove(best_match_quantity)]
    removes the first element equal to the best match, which is the best
    match itself: an equal element before it would have the same distance
    and would have been chosen. *)
Fixpoint match_loop (int_text : string → option Z)
    (items quantities : list OCRResult) (matched : gmap string Z)
  : option (gmap string Z) :=
  match items with
  | [] => Some matched
  | item :: rest =>
      match get_box item with
      | None => None
      | Some item_box =>
          let item_point := (rect_x item_box + rect_w item_box, rect_y item_box) in
          match quantities with
          | [] => Some matched
          | _ :: _ =>
              match nearest_quantity item_point quantities 0 None None with
              | None => None
              | Some None => match_loop int_text rest quantities matched
              | Some (Some (i, best_match_quantity)) =>
                  match int_text (text best_match_quantity) with
                  | None => None
                  | Some n =>
                      match_loop int_text rest (delete i quantities)
                        (<[text item := n]> matched)
                  end
              end
          end
      end
  end.

Definition match_items_and_quantities (int_text : string → option Z)
    (ocr_results : list OCRResult) : option (gmap string Z) :=
  let '(items, quantities) := split_results int_text ocr_results [] [] in
  match_loop int_text items quantities ∅.

(** ** Vocabulary for the matching *)

(** The distance the inner loop computes for a quantity; [None] when its
    box is malformed. *)
Definition quantity_distance (item_point : Z * Z) (quantity : OCRResult)
  : option Z :=
  (fun b => calculate_distance item_point (rect_x b, rect_y b + rect_h b))
    <$> get_box quantity.

(** The recognition point of an item: the upper right corner of its box. *)
Definition item_point_of (item : OCRResult) : option (Z * Z) :=
  (fun b => (rect_x b + rect_w b, rect_y b)) <$> get_box item.

(** A list of positions in increasing order. *)
Definition increasing (idx : list nat) : Prop :=
  ∀ p p' k k', (p < p')%nat → idx !! p = Some k → idx !! p' = Some k' →
               (k < k')%nat.

Definition is_item (int_text : string → option Z) (r : OCRResult) : Prop :=
  int_text (text r) = None.

Definition is_quantity (int_text : string → option Z) (r : OCRResult) : Prop :=
  is_Some (int_text (text r)).

(** ** [ShopScan.filter_eligible_ingredients] *)

(** [needle in s] on strings. *)
Fixpoint contains (needle s : string) : bool :=
  if String.prefix needle s then true
  else match s with
       | EmptyString => false
       | String _ s' => contains needle s'
       end.

Definition purchase_limit_mark : string := "限购".
Definition sold_out_mark : string := "本日售罄".

(** The first loop, over [recognition_results.filterd_results]. *)
Fixpoint classify_results (filterd_results : list OCRResult)
    (category sold_out_signs : list OCRResult)
  : list OCRResult * list OCRResult :=
  match filterd_results with
  | [] => (category, sold_out_signs)
  | result :: rest =>
      if above_threshold result then
        if negb (contains purchase_limit_mark (text result))
           && negb (contains sold_out_mark (text result))
        then classify_results rest (category ++ [result]) sold_out_signs
        else if contains sold_out_mark (text result)
        then classify_results rest category (sold_out_signs ++ [result])
        else classify_results rest category sold_out_signs
      else classify_results rest category sold_out_signs
  end.

(** The loop over [category] for one sign.  [box_item b i] is the
    subscript [b[i]] on a box, [None] when it raises; [min_distance = None]
    is infinity and the outer [None] of the result an exception. *)
Fixpoint nearest_ingredient (box_item : box_value → nat → option Z)
    (sign : OCRResult) (sign_point : Z * Z) (category : list OCRResult)
    (i : nat) (min_distance : option Z) (nearest : option (nat * OCRResult))
  : option (option (nat * OCRResult)) :=
  match category with
  | [] => Some nearest
  | ingredient :: rest =>
      match box_item (box ingredient) 1%nat, box_item (box sign) 1%nat with
      | Some ingredient_y, Some sign_y =>
          if ingredient_y <=? sign_y
          then nearest_ingredient box_item sign sign_point rest (S i)
                 min_distance nearest
          else
            match box_item (box ingredient) 0%nat with
            | None => None
            | Some ingredient_x =>
                let current_distance :=
                  calculate_distance sign_point (ingredient_x, ingredient_y) in
                if match min_distance with
                   | None => true
                   | Some m => current_distance <? m
                   end
                then nearest_ingredient box_item sign sign_point rest (S i)
                       (Some current_distance) (Some (i, ingredient))
                else nearest_ingredient box_item sign sign_point rest (S i)
                       min_distance nearest
            end
      | _, _ => None
      end
  end.

(** The loop over [sold_out_signs].  As in the warehouse matching,
    [category.remove(nearest_ingredient)] removes the nearest ingredient
    itself: an equal result before it has the same box, hence the same
    distance, and would have been chosen. *)
Fixpoint remove_sold_out (box_item : box_value → nat → option Z)
    (sold_out_signs category : list OCRResult) : option (list OCRResult) :=
  match sold_out_signs with
  | [] => Some category
  | sign :: rest =>
      match box_item (box sign) 0%nat, box_item (box sign) 1%nat with
      | Some sign_x, Some sign_y =>
          match nearest_ingredient box_item sign (sign_x, sign_y) category
                  0 None None with
          | None => None
          | Some None => remove_sold_out box_item rest category
          | Some (Some (i, _)) =>
              remove_sold_out box_item rest (delete i category)
          end
      | _, _ => None
      end
  end.

Definition filter_eligible_ingredients
    (box_item : box_value → nat → option Z)
    (filterd_results : list OCRResult) : option (list OCRResult) :=
  let '(category, sold_out_signs) := classify_results filterd_results [] [] in
  remove_sold_out box_item sold_out_signs category.

(** ** Vocabulary for the shop filter *)

Definition eligible (r : OCRResult) : Prop :=
  above_threshold r = true ∧
  contains purchase_limit_mark (text r) = false ∧
  contains sold_out_mark (text r) = false.

Definition sold_out_sign (r : OCRResult) : Prop :=
  above_threshold r = true ∧ contains sold_out_mark (text r) = true.

#[global] Instance eligible_dec r : Decision (eligible r).
Proof. unfold eligible. apply _. Defined.

#[global] Instance sold_out_sign_dec r : Decision (sold_out_sign r).
Proof. unfold sold_out_sign. apply _. Defined.

(** [q] lies strictly below [sign] on the screen. *)
Definition below (box_item : box_value → nat → option Z)
    (sign q : OCRResult) : Prop :=
  ∃ y sy, box_item (box q) 1%nat = Some y ∧ box_item (box sign) 1%nat = Some sy ∧
          sy < y.

(** The upper left corner of a box. *)
Definition corner (box_item : box_value → nat → option Z) (r : OCRResult)
  : option (Z * Z) :=
  match box_item (box r) 0%nat, box_item (box r) 1%nat with
  | Some x, Some y => Some (x, y)
  | _, _ => None
  end.

Definition corner_distance (box_item : box_value → nat → option Z)
    (sign q : OCRResult) : option Z :=
  match corner box_item sign, corner box_item q with
  | Some p, Some c => Some (calculate_distance p c)
  | _, _ => None
  end.

(** Subscripting as on a sequence: a list or tuple by position, a [Rect]
    as the list of its four fields. *)
Definition seq_item (b : box_value) (i : nat) : option Z :=
  match b with
  | BoxSeq l => l !! i
  | BoxRect r => [rect_x r; rect_y r; rect_w r; rect_h r] !! i
  | BoxOther => None
  end.

#[global] Instance below_dec box_item sign q :
  Decision (below box_item sign q).
Proof.
  unfold below.
  destruct (box_item (box q) 1%nat) as [y|];
    [|right; intros (? & ? & ? & _); discriminate].
  destruct (box_item (box sign) 1%nat) as [sy|];
    [|right; intros (? & ? & _ & ? & _); discriminate].
  destruct (decide (sy < y)) as [Hlt | Hge].
  - left. exists y, sy. auto.
  - right. intros (y' & sy' & Hy & Hsy & Hlt). apply Hge.
    injection Hy as <-. injection Hsy as <-. exact Hlt.
Defined.

(** ** The scanning loops ([WarehouseScan.analyze], [ShopScan.analyze]) *)

(** What one pass of the loop sees: the recognition of a fresh screenshot,
    [None] when [run_recognition] gives nothing, otherwise its
    [filterd_results].  The loops are run on the list of the screens to
    come. *)
Definition screen : Type := option (list OCRResult).

(** How a scan stands when the screens are used up: it has returned its
    stock, an exception has left it, or the loop is about to take the next
    screenshot. *)
Inductive scan_outcome :=
  | Returned (stock : gmap string Z)
  | Raised
  | Scanning (stock : gmap string Z) (failed_num : Z).

(** The loop over [match_items_and_quantities(category).items()];
    [recorded_items] is the live key view of [warehouse_stock].  The keys
    of the page are pairwise different, so the order in which the page is
    read does not matter (Lemma [record_warehouse_page_spec]). *)
Definition record_warehouse_page (page : gmap string Z)
    (warehouse_stock : gmap string Z) : gmap string Z * bool :=
  foldl (fun '(warehouse_stock, is_last_page) '(item, num) =>
           if decide (is_Some (warehouse_stock !! item))
           then (warehouse_stock, true)
           else (<[item := num]> warehouse_stock, is_last_page))
        (warehouse_stock, false) (items page).

Fixpoint warehouse_scan (int_text : string → option Z)
    (screens : list screen) (warehouse_stock : gmap string Z)
    (failed_num : Z) : scan_outcome :=
  match screens with
  | [] => Scanning warehouse_stock failed_num
  | Some ((_ :: _) as filterd_results) :: rest =>
      let category := List.filter above_threshold filterd_results in
      match match_items_and_quantities int_text category with
      | None => Raised
      | Some page =>
          let '(warehouse_stock, is_last_page) :=
            record_warehouse_page page warehouse_stock in
          if is_last_page then Returned warehouse_stock
          else warehouse_scan int_text rest warehouse_stock failed_num
      end
  | _ :: rest =>
      if max_failed_num <=? failed_num then Returned warehouse_stock
      else warehouse_scan int_text rest warehouse_stock (failed_num + 1)
  end.

Definition WarehouseScan_analyze (int_text : string → option Z)
    (screens : list screen) : scan_outcome :=
  warehouse_scan int_text screens ∅ 0.

(** The loop over [category] of the shop scan. *)
Fixpoint record_shop_page (merchandises : gmap string Z)
    (category : list OCRResult) (shop_stock : gmap string Z)
    (is_last_page : bool) : gmap string Z * bool :=
  match category with
  | [] => (shop_stock, is_last_page)
  | ingredient :: rest =>
      if decide (is_Some (shop_stock !! text ingredient))
      then record_shop_page merchandises rest shop_stock true
      else
        match merchandises !! text ingredient with
        | Some limit =>
            record_shop_page merchandises rest
              (<[text ingredient := limit]> shop_stock) is_last_page
        | None => record_shop_page merchandises rest shop_stock is_last_page
        end
  end.

Fixpoint shop_scan (box_item : box_value → nat → option Z)
    (merchandises : gmap string Z) (screens : list screen)
    (shop_stock : gmap string Z) (failed_num : Z) : scan_outcome :=
  match screens with
  | [] => Scanning shop_stock failed_num
  | Some ((_ :: _) as filterd_results) :: rest =>
      match filter_eligible_ingredients box_item filterd_results with
      | None => Raised
      | Some category =>
          let '(shop_stock, is_last_page) :=
            record_shop_page merchandises category shop_stock false in
          if is_last_page then Returned shop_stock
          else shop_scan box_item merchandises rest shop_stock failed_num
      end
  | _ :: rest =>
      if max_failed_num <=? failed_num then Returned shop_stock
      else shop_scan box_item merchandises rest shop_stock (failed_num + 1)
  end.

Definition ShopScan_analyze (box_item : box_value → nat → option Z)
    (merchandises : gmap string Z) (screens : list screen) : scan_outcome :=
  shop_scan box_item merchandises screens ∅ 0.

(** ** Vocabulary for the scans *)

(** A screen on which the recognition failed: nothing, or no result. *)
Definition failed (s : screen) : bool :=
  match s with
  | Some (_ :: _) => false
  | _ => true
  end.

Definition count_failed (screens : list screen) : Z :=
  Z.of_nat (length (List.filter failed screens)).

(** The stock a scan holds, when no exception has left it. *)
Definition stock_of (o : scan_outcome) : option (gmap string Z) :=
  match o with
  | Returned stock => Some stock
  | Raised => None
  | Scanning stock _ => Some stock
  end.

(** Two dictionaries share a key. *)
Definition overlap (a b : gmap string Z) : Prop :=
  map_Exists (fun k _ => is_Some (b !! k)) a.

(** The texts of [category] found in the merchandise table, with their
    daily limits. *)
Definition listed_merchandise (merchandises : gmap string Z)
    (category : list OCRResult) : gmap string Z :=
  filter (fun kv => kv.1 ∈ text <$> category) merchandises.

(** Some ingredient of the page is already recorded when its turn comes:
    before the page, or earlier on the same page. *)
Definition relisted (merchandises shop_stock : gmap string Z)
    (category : list OCRResult) : Prop :=
  ∃ i r, category !! i = Some r ∧
         (is_Some (shop_stock !! text r) ∨
          (is_Some (merchandises !! text r) ∧
           text r ∈ text <$> take i category)).

(** ** A concrete page *)

(** Python's [int] on a text of ASCII digits; the other texts used below
    hold no digit at all, and [int] raises on them. *)
Fixpoint digits_value (s : string) (acc : Z) : option Z :=
  match s with
  | EmptyString => Some acc
  | String c s' =>
      let n := Z.of_nat (Ascii.nat_of_ascii c) in
      if (48 <=? n) && (n <=? 57)
      then digits_value s' (10 * acc + (n - 48))
      else None
  end.

Definition decimal_text (s : string) : option Z :=
  match s with
  | EmptyString => None
  | _ => digits_value s 0
  end.

Definition rice_label : OCRResult :=
  mkOCRResult "rice"%string (BoxSeq [10; 10; 40; 20]) (Qmake 95 100).
Definition rice_number : OCRResult :=
  mkOCRResult "12"%string (BoxSeq [55; 0; 10; 12]) (Qmake 9 10).
Definition egg_label : OCRResult :=
  mkOCRResult "egg"%string (BoxRect (mkRect 10 60 40 20)) (Qmake 95 100).
Definition egg_number : OCRResult :=
  mkOCRResult "3"%string (BoxSeq [55; 50; 10; 12]) (Qmake 9 10).

Definition warehouse_page : list OCRResult :=
  [egg_number; rice_label; egg_label; rice_number].

Definition warehouse_page_stock : gmap string Z :=
  <["rice"%string := 12]> (<["egg"%string := 3]> ∅).

(** ** A concrete shop *)

Definition milk_label : OCRResult :=
  mkOCRResult "milk"%string (BoxSeq [300; 20; 50; 20]) (Qmake 9 10).
Definition flour_label : OCRResult :=
  mkOCRResult "flour"%string (BoxSeq [100; 100; 50; 20]) (Qmake 9 10).
Definition sold_out_label : OCRResult :=
  mkOCRResult "本日售罄"%string (BoxSeq [290; 60; 80; 20]) (Qmake 95 100).
Definition sugar_label : OCRResult :=
  mkOCRResult "sugar"%string (BoxRect (mkRect 300 100 50 20)) (Qmake 9 10).
Definition limit_label : OCRResult :=
  mkOCRResult "限购5"%string (BoxSeq [100; 130; 50; 20]) (Qmake 9 10).
Definition salt_label : OCRResult :=
  mkOCRResult "salt"%string (BoxSeq [500; 100; 50; 20]) (Qmake 1 2).

Definition shop_page : list OCRResult :=
  [milk_label; flour_label; sold_out_label; sugar_label; limit_label;
   salt_label].

(** A sold-out sign whose box is neither a sequence nor a [Rect]. *)
Definition boxless_sign : OCRResult :=
  mkOCRResult "本日售罄"%string BoxOther (Qmake 9 10).

Definition merchandise_table : gmap string Z :=
  <["milk"%string := 10]> (<["flour"%string := 20]>
    (<["sugar"%string := 5]> ∅)).

Definition shop_page_stock : gmap string Z :=
  <["milk"%string := 10]> (<["flour"%string := 20]> ∅).

Definition failing_screens : list screen :=
  [None; Some []; None; None; None; None].

(** * Properties *)

(** ** Floats *)

Lemma round_half_even_bounds n d :
  0 < d → n / d <= round_half_even n d <= n / d + 1.
Proof.
  intros Hd. unfold round_half_even.
  destruct (2 * (n mod d) <? d); [lia|].
  destruct (d <? 2 * (n mod d)); [lia|].
  destruct (Z.even (n / d)); lia.
Qed.

Lemma round_half_even_nonneg n d : 0 < d → 0 <= n → 0 <= round_half_even n d.
Proof.
  intros Hd Hn. pose proof (round_half_even_bounds n d Hd).
  pose proof (Z.div_pos n d Hn Hd). lia.
Qed.

Lemma round_half_even_nonpos n d : 0 < d → n <= 0 → round_half_even n d <= 0.
Proof.
  intros Hd Hn. unfold round_half_even.
  pose proof (Z.mod_pos_bound n d Hd) as Hr.
  pose proof (Z.div_mod n d ltac:(lia)) as Hdm.
  assert (Hq : n / d <= 0) by (apply Z.div_le_upper_bound; lia).
  destruct (2 * (n mod d) <? d) eqn:E1; [exact Hq|].
  apply Z.ltb_ge in E1.
  assert (n / d < 0) by nia.
  destruct (d <? 2 * (n mod d)); [lia|].
  destruct (Z.even (n / d)); lia.
Qed.

(** The rounding stays below an integer [M] that [n / d] misses by more
    than one half. *)
Lemma round_half_even_below n d M :
  0 < d → 2 * n < 2 * M * d - d → round_half_even n d < M.
Proof.
  intros Hd H. unfold round_half_even.
  pose proof (Z.mod_pos_bound n d Hd) as Hr.
  pose proof (Z.div_mod n d ltac:(lia)) as Hdm.
  destruct (2 * (n mod d) <? d) eqn:E1;
    [apply Z.ltb_lt in E1 | apply Z.ltb_ge in E1].
  - nia.
  - assert (n / d + 1 < M) by nia.
    destruct (d <? 2 * (n mod d)); [lia|].
    destruct (Z.even (n / d)); lia.
Qed.

Lemma round_half_even_above n d M :
  0 < d → M * d <= n → M <= round_half_even n d.
Proof.
  intros Hd H. pose proof (round_half_even_bounds n d Hd).
  assert (M <= n / d) by (apply Z.div_le_lower_bound; lia). lia.
Qed.

Lemma int_of_Q_sign_nonneg (x : Q) : (0 <= x)%Q → 0 <= int_of_Q x.
Proof.
  unfold Qle, int_of_Q. simpl. intros H. apply Z.quot_pos; lia.
Qed.

Lemma int_of_Q_sign_nonpos (x : Q) : (x <= 0)%Q → int_of_Q x <= 0.
Proof.
  unfold Qle, int_of_Q. simpl. intros H.
  pose proof (Z.quot_le_mono (Qnum x) 0 (Z.pos (Qden x)) ltac:(lia) ltac:(lia))
    as Hq.
  rewrite Z.quot_0_l in Hq by lia. exact Hq.
Qed.

Lemma round64_nonneg (x : Q) : (0 <= x)%Q → (0 <= round64 x)%Q.
Proof.
  intros Hx. unfold round64. unfold Qle in Hx. simpl in Hx.
  assert (Hn : 0 <= Qnum x) by lia.
  destruct (Qnum x =? 0); [unfold Qle; simpl; lia|].
  set (ulp := Z.max _ _).
  destruct (0 <=? ulp) eqn:E; [apply Z.leb_le in E | apply Z.leb_gt in E].
  - assert (0 < 2 ^ ulp) by (apply Z.pow_pos_nonneg; lia).
    assert (0 <= round_half_even (Qnum x) (Z.pos (Qden x) * 2 ^ ulp))
      by (apply round_half_even_nonneg; lia).
    unfold Qle. cbn [Qnum Qden inject_Z]. nia.
  - assert (0 < 2 ^ (- ulp)) by (apply Z.pow_pos_nonneg; lia).
    assert (0 <= round_half_even (Qnum x * 2 ^ (- ulp)) (Z.pos (Qden x)))
      by (apply round_half_even_nonneg; lia).
    unfold Qle. cbn [Qnum Qden]. lia.
Qed.

Lemma round64_nonpos (x : Q) : (x <= 0)%Q → (round64 x <= 0)%Q.
Proof.
  intros Hx. unfold round64. unfold Qle in Hx. simpl in Hx.
  assert (Hn : Qnum x <= 0) by lia.
  destruct (Qnum x =? 0); [unfold Qle; simpl; lia|].
  set (ulp := Z.max _ _).
  destruct (0 <=? ulp) eqn:E; [apply Z.leb_le in E | apply Z.leb_gt in E].
  - assert (0 < 2 ^ ulp) by (apply Z.pow_pos_nonneg; lia).
    assert (round_half_even (Qnum x) (Z.pos (Qden x) * 2 ^ ulp) <= 0)
      by (apply round_half_even_nonpos; lia).
    unfold Qle. cbn [Qnum Qden inject_Z]. nia.
  - assert (0 < 2 ^ (- ulp)) by (apply Z.pow_pos_nonneg; lia).
    assert (round_half_even (Qnum x * 2 ^ (- ulp)) (Z.pos (Qden x)) <= 0)
      by (apply round_half_even_nonpos; nia).
    unfold Qle. cbn [Qnum Qden]. lia.
Qed.

(** [floor_log2] on a quotient of at least 1. *)
Lemma floor_log2_ge1 a b :
  0 < b → b <= a →
  let e := floor_log2 a b in
  0 <= e ∧ b * 2 ^ e <= a ∧ (a < 2 ^ 53 → e <= 52).
Proof.
  intros Hb Hab e. unfold e, floor_log2.
  rewrite (proj2 (Z.leb_le b a) Hab).
  assert (Hq : 1 <= a / b) by (apply Z.div_le_lower_bound; lia).
  pose proof (Z.log2_nonneg (a / b)) as H0.
  destruct (Z.log2_spec (a / b) ltac:(lia)) as [Hlo Hhi].
  pose proof (Z.mul_div_le a b Hb) as Hmd.
  split; [exact H0|]. split; [nia|].
  intros Ha. assert (Hqa : a / b <= a) by (apply Z.div_le_upper_bound; nia).
  assert (Hlt : a / b < 2 ^ 53) by lia.
  apply Z.log2_lt_pow2 in Hlt; lia.
Qed.

(** [floor_log2] on a quotient below 1. *)
Lemma floor_log2_lt1 a b : 0 < a → a < b → floor_log2 a b <= -1.
Proof.
  intros Ha Hab. unfold floor_log2.
  rewrite (proj2 (Z.leb_gt b a) Hab).
  assert (2 <= (b + a - 1) / a) by (apply Z.div_le_lower_bound; lia).
  assert (0 < Z.log2_up ((b + a - 1) / a)) by (apply Z.log2_up_pos; lia).
  lia.
Qed.

(** Below 2^53 the truncated float quotient of two integers is their
    integer quotient. *)
Lemma trunc_round64_exact (a b : Z) :
  0 <= a < 2 ^ 53 → 0 < b →
  int_of_Q (round64 (Qmake a (Z.to_pos b))) = a / b.
Proof.
  intros [Ha0 Ha] Hb. unfold round64. cbn [Qnum Qden].
  rewrite Z2Pos.id by exact Hb.
  destruct (a =? 0) eqn:Ez.
  { apply Z.eqb_eq in Ez. subst a. rewrite Z.div_0_l by lia. reflexivity. }
  apply Z.eqb_neq in Ez. assert (Hapos : 0 < a) by lia.
  rewrite Z.abs_eq by lia.
  pose proof (Z.div_mod a b ltac:(lia)) as Hdm.
  pose proof (Z.mod_pos_bound a b Hb) as Hr.
  destruct (Z_lt_le_dec a b) as [Hlt | Hge].
  - (* the quotient is below 1 *)
    pose proof (floor_log2_lt1 a b Hapos Hlt) as He.
    set (e := floor_log2 a b) in *.
    set (ulp := Z.max (e - 52) (-1074)).
    assert (Hulp : -1074 <= ulp <= -53) by (unfold ulp; lia).
    rewrite (proj2 (Z.leb_gt 0 ulp)) by lia.
    set (K := 2 ^ (- ulp)).
    assert (HK : 2 ^ 53 <= K) by (apply Z.pow_le_mono_r; lia).
    assert (HKpos : 0 < K) by lia.
    rewrite Z.div_small by lia.
    unfold int_of_Q. cbn [Qnum Qden]. rewrite Z2Pos.id by exact HKpos.
    apply Z.quot_small. split.
    + apply round_half_even_nonneg; nia.
    + apply round_half_even_below; [exact Hb|].
      destruct (Z_lt_le_dec b (2 ^ 53)) as [Hbs | Hbl]; nia.
  - (* the quotient is at least 1 *)
    destruct (floor_log2_ge1 a b Hb Hge) as (He0 & Hlo & He52).
    specialize (He52 Ha).
    set (e := floor_log2 a b) in *.
    set (ulp := Z.max (e - 52) (-1074)).
    assert (Hulp : ulp = e - 52) by (unfold ulp; lia).
    assert (Hpe : 0 < 2 ^ e) by (apply Z.pow_pos_nonneg; lia).
    destruct (Z.eq_dec e 52) as [E52 | Hne].
    + (* the last place is the unit *)
      rewrite Hulp, E52. cbn [Z.sub Z.leb Z.compare Z.pow Z.pow_pos Pos.iter
                                Z.mul Pos.mul Z.opp].
      change (52 - 52) with 0. cbn.
      rewrite Z.mul_1_r.
      unfold int_of_Q. cbn [Qnum Qden inject_Z]. rewrite Z.mul_1_r.
      rewrite Z.quot_1_r.
      rewrite E52 in Hlo.
      assert (b = 1) by nia. subst b.
      unfold round_half_even. rewrite Z.mod_1_r, Z.div_1_r. reflexivity.
    + rewrite (proj2 (Z.leb_gt 0 ulp)) by lia.
      set (K := 2 ^ (- ulp)).
      assert (HKe : K * 2 ^ e = 2 ^ 52).
      { unfold K. rewrite <- Z.pow_add_r by lia. f_equal. lia. }
      assert (HKpos : 0 < K) by (apply Z.pow_pos_nonneg; lia).
      unfold int_of_Q. cbn [Qnum Qden]. rewrite Z2Pos.id by exact HKpos.
      rewrite Z.quot_div_nonneg;
        [|apply round_half_even_nonneg; nia | exact HKpos].
      assert (Hb2K : b < 2 * K) by nia.
      symmetry. apply Z.div_unique with
        (r := round_half_even (a * K) b - K * (a / b)).
      * left. split.
        -- assert (a / b * K <= round_half_even (a * K) b)
             by (apply round_half_even_above; nia).
           lia.
        -- assert (round_half_even (a * K) b < (a / b + 1) * K)
             by (apply round_half_even_below; nia).
           lia.
      * lia.
Qed.


(** ** Dictionaries and loops over their items *)

Lemma elem_of_items (d : gmap string Z) (k : string) (v : Z) :
  (k, v) ∈ items d ↔ d !! k = Some v.
Proof. unfold items. apply elem_of_map_to_list. Qed.

Lemma NoDup_keys_items (d : gmap string Z) : NoDup (items d).*1.
Proof. unfold items. apply NoDup_fst_map_to_list. Qed.

Lemma get_Some (d : gmap string Z) (k : string) (v : Z) :
  d !! k = Some v → get d k = v.
Proof. unfold get. intros ->. reflexivity. Qed.

Lemma get_None (d : gmap string Z) (k : string) :
  d !! k = None → get d k = 0.
Proof. unfold get. intros ->. reflexivity. Qed.

Lemma get_insert_eq (d : gmap string Z) (k : string) (v : Z) :
  get (<[k := v]> d) k = v.
Proof. unfold get. rewrite lookup_insert_eq. reflexivity. Qed.

Lemma get_insert_ne (d : gmap string Z) (k k' : string) (v : Z) :
  k ≠ k' → get (<[k := v]> d) k' = get d k'.
Proof. intros Hne. unfold get. rewrite lookup_insert_ne; done. Qed.

Lemma get_nonneg (d : gmap string Z) :
  (∀ k v, d !! k = Some v → 0 <= v) → ∀ k, 0 <= get d k.
Proof.
  intros Hd k. unfold get. destruct (d !! k) as [v|] eqn:E; simpl.
  - eauto.
  - lia.
Qed.

Lemma foldl_invariant {A B : Type} (P : A → Prop) (f : A → B → A)
    (l : list B) (a : A) :
  P a → (∀ acc x, x ∈ l → P acc → P (f acc x)) → P (foldl f a l).
Proof.
  revert a. induction l as [|x l IH]; intros a Ha Hstep; simpl.
  - exact Ha.
  - apply IH.
    + apply Hstep; [left | exact Ha].
    + intros acc y Hy. apply Hstep. right. exact Hy.
Qed.

(** ** The ingredient limit *)

Section IngredientLimit.
Variable available : gmap string Z.

Lemma ingredient_limit_loop_bound reqs acc m :
  ingredient_limit_loop available reqs acc = Some m →
  (∀ a, acc = Some a → m <= a) ∧
  (∀ k v, (k, v) ∈ reqs → 0 < v → m <= get available k / v).
Proof.
  revert acc. induction reqs as [|[k0 v0] reqs IH]; intros acc H; simpl in H.
  - split.
    + intros a ->. injection H as ->. lia.
    + intros k v Hin. inversion Hin.
  - apply IH in H as [Hacc Hrest]. split.
    + intros a ->. destruct (0 <? v0); [simpl in Hacc|]; 
        [specialize (Hacc _ eq_refl); lia | apply Hacc; reflexivity].
    + intros k v Hin Hv. apply elem_of_cons in Hin as [Heq | Hin].
      * injection Heq as -> ->.
        assert (E : (0 <? v0) = true) by (apply Z.ltb_lt; exact Hv).
        rewrite E in Hacc. destruct acc as [a|]; simpl in Hacc.
        -- specialize (Hacc _ eq_refl). lia.
        -- specialize (Hacc _ eq_refl). lia.
      * apply Hrest; assumption.
Qed.

Lemma ingredient_limit_loop_attained reqs acc m :
  ingredient_limit_loop available reqs acc = Some m →
  acc = Some m ∨
  ∃ k v, (k, v) ∈ reqs ∧ 0 < v ∧ m = get available k / v.
Proof.
  revert acc. induction reqs as [|[k0 v0] reqs IH]; intros acc H; simpl in H.
  - left. exact H.
  - apply IH in H as [Hacc | (k & v & Hin & Hv & Hm)].
    + destruct (0 <? v0) eqn:E.
      * apply Z.ltb_lt in E. destruct acc as [a|]; simpl in Hacc.
        -- injection Hacc as Hm.
           destruct (Z.min_spec a (get available k0 / v0)) as [[_ Hmin]|[_ Hmin]].
           ++ left. congruence.
           ++ right. exists k0, v0. split; [left|split; [exact E|congruence]].
        -- injection Hacc as Hm. right. exists k0, v0.
           split; [left|split; [exact E|congruence]].
      * left. exact Hacc.
    + right. exists k, v. split; [right; exact Hin | split; assumption].
Qed.

Lemma ingredient_limit_loop_None reqs acc :
  ingredient_limit_loop available reqs acc = None →
  acc = None ∧ ∀ k v, (k, v) ∈ reqs → v <= 0.
Proof.
  revert acc. induction reqs as [|[k0 v0] reqs IH]; intros acc H; simpl in H.
  - split; [exact H|]. intros k v Hin. inversion Hin.
  - apply IH in H as [Hacc Hrest].
    destruct (0 <? v0) eqn:E.
    + destruct acc; discriminate Hacc.
    + apply Z.ltb_ge in E. split; [exact Hacc|].
      intros k v Hin. apply elem_of_cons in Hin as [Heq | Hin].
      * injection Heq as -> ->. exact E.
      * eapply Hrest; exact Hin.
Qed.
End IngredientLimit.

Lemma ingredient_limit_loop_ext (a b : gmap string Z) reqs acc :
  (∀ k, get a k = get b k) →
  ingredient_limit_loop a reqs acc = ingredient_limit_loop b reqs acc.
Proof.
  intros Hab. revert acc. induction reqs as [|[k v] reqs IH]; intros acc; simpl.
  - reflexivity.
  - rewrite Hab. apply IH.
Qed.

Lemma calc_ingredient_limit_ext d (a b : gmap string Z) :
  (∀ k, get a k = get b k) →
  _calc_ingredient_limit d a = _calc_ingredient_limit d b.
Proof.
  intros Hab. unfold _calc_ingredient_limit.
  rewrite (ingredient_limit_loop_ext a b); [reflexivity | exact Hab].
Qed.

Lemma calc_ingredient_limit_upper d available k v :
  ingredients d !! k = Some v → 0 < v →
  _calc_ingredient_limit d available <= get available k / v.
Proof.
  intros Hk Hv. unfold _calc_ingredient_limit.
  destruct (ingredient_limit_loop available (items (ingredients d)) None)
    as [m|] eqn:E.
  - apply ingredient_limit_loop_bound in E as [_ E].
    apply E; [apply elem_of_items; exact Hk | exact Hv].
  - apply ingredient_limit_loop_None in E as [_ E].
    specialize (E k v). rewrite elem_of_items in E. specialize (E Hk). lia.
Qed.

Lemma calc_ingredient_limit_cases d available :
  (degenerate d ∧ _calc_ingredient_limit d available = 0) ∨
  (∃ k v, ingredients d !! k = Some v ∧ 0 < v ∧
          _calc_ingredient_limit d available = get available k / v).
Proof.
  unfold _calc_ingredient_limit.
  destruct (ingredient_limit_loop available (items (ingredients d)) None)
    as [m|] eqn:E.
  - apply ingredient_limit_loop_attained in E as [E | (k & v & Hin & Hv & Hm)].
    + discriminate E.
    + right. exists k, v. rewrite <- elem_of_items. auto.
  - apply ingredient_limit_loop_None in E as [_ E]. left. split; [|reflexivity].
    intros k v Hk. apply (E k v). apply elem_of_items. exact Hk.
Qed.

Lemma calc_ingredient_limit_degenerate d available :
  degenerate d → _calc_ingredient_limit d available = 0.
Proof.
  intros Hd.
  destruct (calc_ingredient_limit_cases d available)
    as [[_ H] | (k & v & Hk & Hv & _)]; [exact H|].
  specialize (Hd k v Hk). simpl in Hd. lia.
Qed.

Lemma calc_ingredient_limit_nonneg d available :
  (∀ k, 0 <= get available k) → 0 <= _calc_ingredient_limit d available.
Proof.
  intros Hav.
  destruct (calc_ingredient_limit_cases d available)
    as [[_ H] | (k & v & Hk & Hv & H)]; rewrite H; [lia|].
  apply Z.div_pos; [apply Hav | exact Hv].
Qed.

Lemma calc_ingredient_limit_greatest d available c :
  has_requirement d →
  (∀ k v, ingredients d !! k = Some v → 0 < v → c <= get available k / v) →
  c <= _calc_ingredient_limit d available.
Proof.
  intros (k0 & v0 & Hk0 & Hv0) Hc.
  destruct (calc_ingredient_limit_cases d available)
    as [[Hd _] | (k & v & Hk & Hv & H)].
  - specialize (Hd k0 v0 Hk0). simpl in Hd. lia.
  - rewrite H. apply Hc; assumption.
Qed.

Lemma calc_time_limit_nonneg self d :
  0 <= time_limit self → 0 <= _calc_time_limit self d.
Proof.
  intros HT. unfold _calc_time_limit.
  destruct (time d <=? 0) eqn:E; [lia|].
  apply Z.leb_gt in E. apply int_of_Q_sign_nonneg, round64_nonneg.
  unfold Qle. simpl. lia.
Qed.

Lemma calc_time_limit_nonpos self d :
  time_limit self <= 0 → _calc_time_limit self d <= 0.
Proof.
  intros HT. unfold _calc_time_limit. destruct (time d <=? 0) eqn:E; [lia|].
  apply Z.leb_gt in E. apply int_of_Q_sign_nonpos, round64_nonpos.
  unfold Qle. simpl. lia.
Qed.

(** While the minute budget is below 2^53 the float quotient is exact
    enough: the time limit is the integer quotient. *)
Lemma calc_time_limit_exact self d :
  0 <= time_limit self < 2 ^ 53 → 0 < time d →
  _calc_time_limit self d = time_limit self / time d.
Proof.
  intros HT Ht. unfold _calc_time_limit.
  rewrite (proj2 (Z.leb_gt (time d) 0) Ht).
  apply trunc_round64_exact; assumption.
Qed.


(** ** Reserving the ingredients of the outer dish *)

Lemma used_loop_Some total c reqs used u :
  used_loop total c reqs used = Some u →
  ∀ k v, (k, v) ∈ reqs → c * v <= get total k.
Proof.
  revert used. induction reqs as [|[k0 v0] reqs IH]; intros used H k v Hin.
  - inversion Hin.
  - simpl in H. destruct (get total k0 <? c * v0) eqn:E; [discriminate|].
    apply Z.ltb_ge in E. apply elem_of_cons in Hin as [Heq | Hin].
    + injection Heq as -> ->. exact E.
    + eapply IH; eassumption.
Qed.

Lemma used_loop_total total c reqs used :
  (∀ k v, (k, v) ∈ reqs → c * v <= get total k) →
  ∃ u, used_loop total c reqs used = Some u.
Proof.
  revert used. induction reqs as [|[k0 v0] reqs IH]; intros used H; simpl.
  - eauto.
  - assert (E : (get total k0 <? c * v0) = false).
    { apply Z.ltb_ge. apply H. left. }
    rewrite E. apply IH. intros k v Hin. apply H. right. exact Hin.
Qed.

Lemma used_loop_lookup total c reqs used u :
  NoDup reqs.*1 →
  used_loop total c reqs used = Some u →
  (∀ k v, (k, v) ∈ reqs → u !! k = Some (c * v)) ∧
  (∀ k, k ∉ reqs.*1 → u !! k = used !! k).
Proof.
  revert used. induction reqs as [|[k0 v0] reqs IH]; intros used Hnd H.
  - simpl in H. injection H as ->. split; [|auto].
    intros k v Hin. inversion Hin.
  - simpl in H. destruct (get total k0 <? c * v0); [discriminate|].
    simpl in Hnd. apply NoDup_cons in Hnd as [Hk0 Hnd].
    destruct (IH _ Hnd H) as [Hin Hout]. split.
    + intros k v Hkv. apply elem_of_cons in Hkv as [Heq | Hkv].
      * injection Heq as -> ->. rewrite (Hout k0 Hk0).
        apply lookup_insert_eq.
      * eauto.
    + intros k Hk. simpl in Hk. apply not_elem_of_cons in Hk as [Hne Hk].
      rewrite (Hout k Hk). apply lookup_insert_ne. congruence.
Qed.

Lemma used_loop_dish total d c u :
  used_loop total c (items (ingredients d)) ∅ = Some u →
  can_make total d c ∧ ∀ k, get u k = c * get (ingredients d) k.
Proof.
  intros H. split.
  - intros k v Hk. eapply used_loop_Some; [exact H|].
    apply elem_of_items. exact Hk.
  - destruct (used_loop_lookup _ _ _ _ _ (NoDup_keys_items _) H) as [Hin Hout].
    intros k. destruct (ingredients d !! k) as [v|] eqn:E.
    + rewrite (get_Some _ _ _ E). apply get_Some. apply Hin.
      apply elem_of_items. exact E.
    + rewrite (get_None _ _ E). rewrite Z.mul_0_r. apply get_None.
      rewrite Hout; [apply lookup_empty|].
      intros Hk. apply list_elem_of_fmap in Hk as ([k' v'] & -> & Hk').
      apply elem_of_items in Hk'. simpl in E. congruence.
Qed.

Lemma used_loop_dish_total total d c :
  can_make total d c →
  ∃ u, used_loop total c (items (ingredients d)) ∅ = Some u.
Proof.
  intros H. apply used_loop_total. intros k v Hin. apply H.
  apply elem_of_items. exact Hin.
Qed.

Lemma get_remaining_after total u k :
  get (remaining_after total u) k =
  match total !! k with
  | Some t => t - get u k
  | None => 0
  end.
Proof.
  unfold get at 1, remaining_after. rewrite map_lookup_imap.
  destruct (total !! k); reflexivity.
Qed.

Lemma left_over_nonneg total d c k :
  (∀ k, 0 <= get total k) → can_make total d c →
  0 <= left_over total d c k.
Proof.
  intros Hpool Hc. unfold left_over.
  destruct (total !! k) as [t|] eqn:Et; [|lia].
  destruct (ingredients d !! k) as [v|] eqn:Ev.
  - specialize (Hc k v Ev). rewrite (get_Some _ _ _ Et) in Hc.
    rewrite (get_Some _ _ _ Ev). lia.
  - rewrite (get_None _ _ Ev). specialize (Hpool k).
    rewrite (get_Some _ _ _ Et) in Hpool. lia.
Qed.

Lemma left_over_zero total d k :
  left_over total d 0 k = get total k.
Proof.
  unfold left_over, get. destruct (total !! k); simpl; lia.
Qed.

(** ** The enumeration of the outer count *)

Lemma get_pool_left total d c k :
  get (pool_left total d c) k = left_over total d c k.
Proof.
  unfold get, pool_left, left_over. rewrite map_lookup_imap.
  destruct (total !! k); reflexivity.
Qed.

Section Enumeration.
Variable total : gmap string Z.
Variables outer inner : Dish.
Variable time_limit2 : Z.
Variable swapped : bool.

Local Abbreviation profit_here := (profit_at total outer inner time_limit2).
Local Abbreviation counts_here :=
  (counts_at total outer inner time_limit2 swapped).

Lemma count1_loop_break c rest best :
  ¬ can_make total outer c →
  count1_loop total outer inner time_limit2 swapped (c :: rest) best = best.
Proof.
  intros Hno. simpl.
  destruct (used_loop total c (items (ingredients outer)) ∅) as [u|] eqn:E;
    [|reflexivity].
  apply used_loop_dish in E as [Hc _]. contradiction.
Qed.

Lemma count1_loop_body c rest best :
  can_make total outer c →
  count1_loop total outer inner time_limit2 swapped (c :: rest) best =
  count1_loop total outer inner time_limit2 swapped rest
    (if best.2 <? profit_here c then (counts_here c, profit_here c) else best).
Proof.
  intros Hc. simpl.
  destruct (used_loop_dish_total _ _ _ Hc) as [u E]. rewrite E.
  apply used_loop_dish in E as [_ Hu].
  assert (Hil : _calc_ingredient_limit inner (remaining_after total u) =
                _calc_ingredient_limit inner (pool_left total outer c)).
  { apply calc_ingredient_limit_ext. intros k.
    rewrite get_remaining_after, get_pool_left. unfold left_over.
    rewrite Hu. reflexivity. }
  rewrite Hil. reflexivity.
Qed.

Lemma can_make_dec c : can_make total outer c ∨ ¬ can_make total outer c.
Proof.
  destruct (used_loop total c (items (ingredients outer)) ∅) as [u|] eqn:E.
  - left. apply used_loop_dish in E as [Hc _]. exact Hc.
  - right. intros Hc. destruct (used_loop_dish_total _ _ _ Hc) as [u E'].
    congruence.
Qed.

(** Any property kept by every improvement holds of the result. *)
Lemma count1_loop_invariant (P : list Z * Z → Prop) range best :
  P best →
  (∀ c b, c ∈ range → can_make total outer c → P b → b.2 < profit_here c →
          P (counts_here c, profit_here c)) →
  P (count1_loop total outer inner time_limit2 swapped range best).
Proof.
  revert best. induction range as [|c range IH]; intros best Hb Hstep.
  - exact Hb.
  - destruct (can_make_dec c) as [Hc | Hc].
    + rewrite count1_loop_body by exact Hc. apply IH.
      * destruct (best.2 <? profit_here c) eqn:E; [|exact Hb].
        apply Z.ltb_lt in E. eapply Hstep; [left | exact Hc | exact Hb | exact E].
      * intros c' b Hin. apply Hstep. right. exact Hin.
    + rewrite count1_loop_break by exact Hc. exact Hb.
Qed.

Lemma count1_loop_mono range best :
  best.2 <= (count1_loop total outer inner time_limit2 swapped range best).2.
Proof.
  apply (count1_loop_invariant (fun r => best.2 <= r.2)).
  - lia.
  - intros c b _ _ Hb Hlt. simpl. lia.
Qed.

(** A count is reached when every count before it can be made; its profit
    is then a lower bound of the result. *)
Lemma count1_loop_reaches before c after best :
  Forall (can_make total outer) before → can_make total outer c →
  profit_here c <=
  (count1_loop total outer inner time_limit2 swapped
     (before ++ c :: after) best).2.
Proof.
  intros Hbefore Hc. revert best.
  induction Hbefore as [|c0 before Hc0 _ IH]; intros best; simpl app.
  - rewrite count1_loop_body by exact Hc.
    etransitivity; [|apply count1_loop_mono].
    destruct (best.2 <? profit_here c) eqn:E; simpl.
    + lia.
    + apply Z.ltb_ge in E. exact E.
  - rewrite count1_loop_body by exact Hc0. apply IH.
Qed.

Lemma search_oriented_reaches time_limit1 c :
  0 <= c <= time_limit1 →
  (∀ c', 0 <= c' <= c → can_make total outer c') →
  profit_here c <=
  (search_oriented total outer inner time_limit1 time_limit2 swapped).2.
Proof.
  intros Hc Hfeas. unfold search_oriented.
  replace (time_limit1 + 1) with (c + (1 + (time_limit1 - c))) by lia.
  rewrite seqZ_app by lia. rewrite (seqZ_cons (0 + c)) by lia.
  apply count1_loop_reaches.
  - apply Forall_forall. intros c' Hin. apply elem_of_seqZ in Hin.
    apply Hfeas. lia.
  - apply Hfeas. lia.
Qed.

(** The result is the start value or one of the enumerated candidates. *)
Lemma search_oriented_result time_limit1 :
  let r := search_oriented total outer inner time_limit1 time_limit2 swapped in
  r = ([0; 0], 0) ∨
  ∃ c, 0 <= c <= time_limit1 ∧ can_make total outer c ∧
       r = (counts_here c, profit_here c) ∧ 0 < profit_here c.
Proof.
  unfold search_oriented.
  apply (count1_loop_invariant
           (fun r => r = ([0; 0], 0) ∨
                     ∃ c, 0 <= c <= time_limit1 ∧ can_make total outer c ∧
                          r = (counts_here c, profit_here c) ∧ 0 < profit_here c)).
  - left. reflexivity.
  - intros c b Hin Hc Hb Hlt. right. exists c.
    apply elem_of_seqZ in Hin. repeat split; try lia; try exact Hc.
    destruct Hb as [-> | (c' & _ & _ & -> & Hpos)]; simpl in Hlt; lia.
Qed.
End Enumeration.

(** ** What the two searches return *)

Lemma requirements_nonneg_get d k :
  requirements_nonneg d → 0 <= get (ingredients d) k.
Proof. intros H. apply get_nonneg. exact H. Qed.

Lemma orient_cases self d1 d2 :
  (orient self d1 d2 =
     (d2, d1, _calc_time_limit self d2, _calc_time_limit self d1, true) ∧
   (profit_rate d1 < profit_rate d2)%Q) ∨
  (orient self d1 d2 =
     (d1, d2, _calc_time_limit self d1, _calc_time_limit self d2, false) ∧
   (profit_rate d2 <= profit_rate d1)%Q).
Proof.
  unfold orient. destruct (Qlt_le_dec (profit_rate d1) (profit_rate d2)); auto.
Qed.

Lemma optimize_two_dishes_result self d1 d2 :
  _optimize_two_dishes self d1 d2 = ([0; 0], 0) ∨
  ∃ c1 c2,
    _optimize_two_dishes self d1 d2 = ([c1; c2], c1 * price d1 + c2 * price d2) ∧
    0 < c1 * price d1 + c2 * price d2 ∧
    pair_alloc self d1 d2 c1 c2.
Proof.
  unfold _optimize_two_dishes.
  destruct (orient_cases self d1 d2) as [[-> _] | [-> _]].
  - destruct (search_oriented_result (total_ingredients self) d2 d1
                (_calc_time_limit self d1) true (_calc_time_limit self d2))
      as [H | (c & Hc & Hmk & H & Hpos)]; [left; exact H|].
    right. exists (count2_at (total_ingredients self) d2 d1
                     (_calc_time_limit self d1) c), c.
    unfold profit_at, counts_at in *. rewrite H. split; [f_equal; lia|].
    split; [lia|]. right. repeat split; (lia || assumption).
  - destruct (search_oriented_result (total_ingredients self) d1 d2
                (_calc_time_limit self d2) false (_calc_time_limit self d1))
      as [H | (c & Hc & Hmk & H & Hpos)]; [left; exact H|].
    right. exists c, (count2_at (total_ingredients self) d1 d2
                        (_calc_time_limit self d2) c).
    unfold profit_at, counts_at in *. rewrite H. split; [reflexivity|].
    split; [lia|]. left. repeat split; (lia || assumption).
Qed.

(** The inner count is never negative on a non-negative pool and horizon. *)
Lemma count2_at_nonneg total outer inner tl2 c :
  (∀ k, 0 <= get total k) → can_make total outer c → 0 <= tl2 →
  0 <= count2_at total outer inner tl2 c.
Proof.
  intros Hpool Hc Htl. unfold count2_at. apply Z.min_glb; [exact Htl|].
  apply calc_ingredient_limit_nonneg. intros k. rewrite get_pool_left.
  apply left_over_nonneg; assumption.
Qed.

(** Joint use of one ingredient by an enumerated pair. *)
Lemma enumerated_joint self outer inner cO cI k :
  pools_nonneg (total_ingredients self) →
  enumerated self outer inner cO cI →
  0 <= cI ∨ requirements_nonneg inner →
  cO * get (ingredients outer) k + cI * get (ingredients inner) k
  <= get (total_ingredients self) k.
Proof.
  intros Hpool (HcO & Hmk & HcI) Hsign.
  pose proof (get_nonneg _ Hpool) as Hget.
  assert (Houter : cO * get (ingredients outer) k <= get (total_ingredients self) k).
  { destruct (ingredients outer !! k) as [v|] eqn:E.
    - rewrite (get_Some _ _ _ E). apply Hmk. exact E.
    - rewrite (get_None _ _ E). specialize (Hget k). lia. }
  destruct (ingredients inner !! k) as [v|] eqn:Ev.
  2:{ rewrite (get_None _ _ Ev). lia. }
  rewrite (get_Some _ _ _ Ev).
  destruct (Z_lt_le_dec 0 v) as [Hv | Hv].
  - assert (Hle : cI <= left_over (total_ingredients self) outer cO k / v).
    { rewrite HcI. unfold count2_at. etransitivity; [apply Z.le_min_r|].
      rewrite <- get_pool_left. apply calc_ingredient_limit_upper; assumption. }
    pose proof (Z.mul_div_le (left_over (total_ingredients self) outer cO k) v Hv)
      as Hdiv.
    assert (Hlo : cI * v <= left_over (total_ingredients self) outer cO k) by nia.
    unfold left_over in Hlo.
    destruct (total_ingredients self !! k) as [t|] eqn:Et.
    + rewrite (get_Some _ _ _ Et). lia.
    + rewrite (get_None _ _ Et) in *. nia.
  - destruct Hsign as [HcI0 | Hreq].
    + nia.
    + specialize (Hreq k v Ev). simpl in Hreq.
      assert (v = 0) by lia. subst v. lia.
Qed.

Lemma pair_alloc_joint self d1 d2 c1 c2 k :
  pools_nonneg (total_ingredients self) →
  pair_alloc self d1 d2 c1 c2 →
  0 <= time_limit self ∨ (requirements_nonneg d1 ∧ requirements_nonneg d2) →
  c1 * get (ingredients d1) k + c2 * get (ingredients d2) k
  <= get (total_ingredients self) k.
Proof.
  intros Hpool [He | He] Hsign.
  - apply enumerated_joint; [exact Hpool | exact He |].
    destruct Hsign as [HT | [_ H2]]; [left | right; exact H2].
    destruct He as (_ & Hmk & ->). apply count2_at_nonneg;
      [apply get_nonneg; exact Hpool | exact Hmk |
       apply calc_time_limit_nonneg; exact HT].
  - rewrite Z.add_comm. apply enumerated_joint; [exact Hpool | exact He |].
    destruct Hsign as [HT | [H1 _]]; [left | right; exact H1].
    destruct He as (_ & Hmk & ->). apply count2_at_nonneg;
      [apply get_nonneg; exact Hpool | exact Hmk |
       apply calc_time_limit_nonneg; exact HT].
Qed.

Lemma pair_alloc_counts self d1 d2 c1 c2 :
  pools_nonneg (total_ingredients self) → 0 <= time_limit self →
  pair_alloc self d1 d2 c1 c2 →
  (0 <= c1 <= _calc_time_limit self d1) ∧ (0 <= c2 <= _calc_time_limit self d2).
Proof.
  intros Hpool HT.
  assert (Hin : ∀ outer inner cO cI, enumerated self outer inner cO cI →
                  0 <= cI <= _calc_time_limit self inner).
  { intros outer inner cO cI (_ & Hmk & ->). split.
    - apply count2_at_nonneg;
        [apply get_nonneg; exact Hpool | exact Hmk |
         apply calc_time_limit_nonneg; exact HT].
    - apply Z.le_min_l. }
  intros [He | He]; pose proof (Hin _ _ _ _ He); destruct He as (? & _ & _);
    split; assumption.
Qed.

(** The single-dish count. *)
Lemma single_count_nonneg self d :
  pools_nonneg (total_ingredients self) → 0 <= time_limit self →
  0 <= (_optimize_single_dish self d).1.
Proof.
  intros Hpool HT. simpl. apply Z.min_glb.
  - apply calc_time_limit_nonneg. exact HT.
  - apply calc_ingredient_limit_nonneg. apply get_nonneg. exact Hpool.
Qed.

Lemma single_count_uses self d k :
  pools_nonneg (total_ingredients self) →
  0 <= (_optimize_single_dish self d).1 ∨ requirements_nonneg d →
  (_optimize_single_dish self d).1 * get (ingredients d) k
  <= get (total_ingredients self) k.
Proof.
  intros Hpool Hsign. simpl in *.
  set (c := Z.min _ _) in *.
  pose proof (get_nonneg _ Hpool k) as Hget.
  destruct (ingredients d !! k) as [v|] eqn:Ev.
  2:{ rewrite (get_None _ _ Ev). lia. }
  rewrite (get_Some _ _ _ Ev).
  destruct (Z_lt_le_dec 0 v) as [Hv | Hv].
  - assert (Hle : c <= get (total_ingredients self) k / v).
    { unfold c. etransitivity; [apply Z.le_min_r|].
      apply calc_ingredient_limit_upper; assumption. }
    pose proof (Z.mul_div_le (get (total_ingredients self) k) v Hv). nia.
  - destruct Hsign as [Hc | Hreq].
    + nia.
    + specialize (Hreq k v Ev). simpl in Hreq.
      assert (v = 0) by lia. subst v. lia.
Qed.

(** ** The solution kept by [find_best_solution] *)

Lemma foldl_dominates {A B : Type} (m : A → Z) (g : B → Z) (f : A → B → A)
    (l : list B) (a : A) (x : B) :
  (∀ acc y, m acc <= m (f acc y)) →
  (∀ acc y, g y <= m (f acc y)) →
  x ∈ l → g x <= m (foldl f a l).
Proof.
  intros Hmono Hdom. revert a. induction l as [|y l IH]; intros a Hin.
  - inversion Hin.
  - simpl. apply elem_of_cons in Hin as [-> | Hin].
    + etransitivity; [apply (Hdom a y)|].
      apply (foldl_invariant (fun acc => m (f a y) <= m acc)); [lia|].
      intros acc z _ Hacc. etransitivity; [exact Hacc | apply Hmono].
    + apply IH. exact Hin.
Qed.

Lemma foldl_mono {A B : Type} (m : A → Z) (f : A → B → A) (l : list B) (a : A) :
  (∀ acc y, m acc <= m (f acc y)) → m a <= m (foldl f a l).
Proof.
  intros Hmono. apply (foldl_invariant (fun acc => m a <= m acc)); [lia|].
  intros acc z _ Hacc. etransitivity; [exact Hacc | apply Hmono].
Qed.

Lemma try_single_cases self best d :
  (try_single self best d = best ∧
   (_optimize_single_dish self d).2 <= profit best) ∨
  (profit best < (_optimize_single_dish self d).2 ∧
   try_single self best d =
     {| dishes := [d]; counts := [(_optimize_single_dish self d).1];
        profit := (_optimize_single_dish self d).2;
        total_time_hours := [hours_of (_optimize_single_dish self d).1 d] |}).
Proof.
  unfold try_single. simpl.
  destruct (profit best <? _) eqn:E.
  - right. apply Z.ltb_lt in E. auto.
  - left. apply Z.ltb_ge in E. auto.
Qed.

Lemma try_pair_cases self best d1 d2 :
  (try_pair self best (d1, d2) = best ∧
   (_optimize_two_dishes self d1 d2).2 <= profit best) ∨
  (profit best < (_optimize_two_dishes self d1 d2).2 ∧
   dishes (try_pair self best (d1, d2)) = [d1; d2] ∧
   counts (try_pair self best (d1, d2)) = (_optimize_two_dishes self d1 d2).1 ∧
   profit (try_pair self best (d1, d2)) = (_optimize_two_dishes self d1 d2).2).
Proof.
  unfold try_pair. destruct (_optimize_two_dishes self d1 d2) as [cs p]. simpl.
  destruct (profit best <? p) eqn:E.
  - right. apply Z.ltb_lt in E. auto.
  - left. apply Z.ltb_ge in E. auto.
Qed.

Lemma try_single_mono self best d : profit best <= profit (try_single self best d).
Proof.
  destruct (try_single_cases self best d) as [[-> _] | [H ->]]; simpl in *; lia.
Qed.

Lemma try_single_dominates self best d :
  (_optimize_single_dish self d).2 <= profit (try_single self best d).
Proof.
  destruct (try_single_cases self best d) as [[-> H] | [_ ->]]; simpl in *; lia.
Qed.

Lemma try_pair_mono self best p : profit best <= profit (try_pair self best p).
Proof.
  destruct p as [d1 d2].
  destruct (try_pair_cases self best d1 d2) as [[-> _] | (H & _ & _ & ->)]; lia.
Qed.

Lemma try_pair_dominates self best p :
  (_optimize_two_dishes self p.1 p.2).2 <= profit (try_pair self best p).
Proof.
  destruct p as [d1 d2]. cbn [fst snd].
  destruct (try_pair_cases self best d1 d2) as [[-> H] | (_ & _ & _ & ->)]; lia.
Qed.

Lemma best_single_dominates self d :
  d ∈ unlocked_dishes self →
  (_optimize_single_dish self d).2 <= profit (best_single self).
Proof.
  unfold best_single.
  apply (foldl_dominates profit (fun d => (_optimize_single_dish self d).2)).
  - apply try_single_mono.
  - apply try_single_dominates.
Qed.

Lemma best_single_nonneg self : 0 <= profit (best_single self).
Proof.
  unfold best_single.
  apply (foldl_mono profit (try_single self) _ empty_solution).
  apply try_single_mono.
Qed.

Lemma two_best_dominates self d1 d2 :
  (d1, d2) ∈ combinations2 (unlocked_dishes self) →
  (_optimize_two_dishes self d1 d2).2 <= profit (two_best self).
Proof.
  unfold two_best. intros Hin.
  apply (foldl_dominates profit
           (fun p : Dish * Dish => (_optimize_two_dishes self p.1 p.2).2)
           (try_pair self) _ empty_solution (d1, d2)).
  - apply try_pair_mono.
  - apply try_pair_dominates.
  - exact Hin.
Qed.

Lemma best_single_chosen self :
  best_single self = empty_solution ∨ chosen_single self (best_single self).
Proof.
  unfold best_single.
  apply (foldl_invariant
           (fun sol => (sol = empty_solution ∨ chosen_single self sol) ∧
                       0 <= profit sol)).
  - split; [left; reflexivity | simpl; lia].
  - intros acc d Hd [Hacc Hpos].
    destruct (try_single_cases self acc d) as [[-> _] | [Hlt ->]].
    + split; assumption.
    + split; [|simpl in *; lia]. right. exists d. simpl in *.
      repeat split; try assumption; try reflexivity. lia.
Qed.

Lemma search_chosen self : chosen self (search self).
Proof.
  unfold search. destruct (2 <=? max_slots self).
  2:{ destruct (best_single_chosen self) as [H | H]; [left | right; left]; exact H. }
  apply (foldl_invariant
           (fun sol => chosen self sol ∧ profit (best_single self) <= profit sol)).
  - split; [|lia].
    destruct (best_single_chosen self) as [H | H]; [left | right; left]; exact H.
  - intros acc [d1 d2] Hin [Hacc Hle].
    destruct (try_pair_cases self acc d1 d2) as [[-> _] | (Hlt & Hd & Hc & Hp)].
    + split; assumption.
    + split; [|lia]. right; right.
      destruct (optimize_two_dishes_result self d1 d2)
        as [E | (c1 & c2 & E & Hpos & Halloc)].
      * rewrite E in Hlt. simpl in Hlt.
        pose proof (best_single_nonneg self). lia.
      * rewrite E in *. simpl in *. exists d1, d2, c1, c2.
        repeat split; try assumption. lia.
Qed.

(** ** Realisation: plan entries *)

Lemma realize_loop_spec purchasable ds : ∀ cs sols0 plan0 rem0,
  ∃ new rem,
    realize_loop purchasable ds cs (sols0, plan0, rem0) =
      (sols0 ++ new, plan_of purchasable new plan0, rem) ∧
    map dish new = take (length cs) ds ∧
    map count new = take (length ds) cs ∧
    threaded rem0 new.
Proof.
  induction ds as [|d ds IH]; intros cs sols0 plan0 rem0.
  - exists [], rem0. simpl. rewrite app_nil_r, take_nil.
    destruct cs; simpl; auto.
  - destruct cs as [|c cs].
    + exists [], rem0. simpl. rewrite app_nil_r. auto.
    + simpl realize_loop.
      destruct (_calc_bar_ratio d c rem0) as [ratio rem1] eqn:E.
      destruct (IH cs (sols0 ++ [mkMenuSolution d c ratio])
                  (demand_loop purchasable c (items (ingredients d)) plan0) rem1)
        as (new & rem & Hrun & Hd & Hc & Hth).
      exists (mkMenuSolution d c ratio :: new), rem.
      rewrite Hrun. rewrite <- app_assoc. simpl. rewrite E. simpl.
      split; [reflexivity|]. split; [congruence|]. split; [congruence|].
      split; [reflexivity | exact Hth].
Qed.

Lemma realize_spec self best :
  ∃ sols,
    realize self best =
      (sols, rectify (warehouse_storage self)
               (plan_of (purchasable_ingredients self) sols ∅)) ∧
    map dish sols = take (length (counts best)) (dishes best) ∧
    map count sols = take (length (dishes best)) (counts best) ∧
    threaded (total_ingredients self) sols.
Proof.
  unfold realize.
  destruct (realize_loop_spec (purchasable_ingredients self) (dishes best)
              (counts best) [] ∅ (total_ingredients self))
    as (new & rem & -> & Hd & Hc & Hth).
  exists new. simpl. auto.
Qed.

(** ** Realisation: the fill ratio *)

Lemma Qmax_py_unit a b :
  (0 <= a <= 1)%Q → (0 <= b <= 1)%Q → (0 <= Qmax_py a b <= 1)%Q.
Proof. intros Ha Hb. unfold Qmax_py. destruct (Qlt_le_dec a b); assumption. Qed.

Lemma ratio_unit (count mm : Z) :
  (0 < mm → 0 <= count <= mm) →
  (0 <= (if 0 <? mm then Qmake count (Z.to_pos mm) else 0) <= 1)%Q.
Proof.
  intros H. destruct (0 <? mm) eqn:E.
  - apply Z.ltb_lt in E. specialize (H E). unfold Qle. simpl.
    rewrite Z2Pos.id by exact E. lia.
  - unfold Qle. simpl. lia.
Qed.

Lemma bar_ratio_loop_unit count reqs : ∀ ratio pool,
  NoDup reqs.*1 → fits pool reqs count → (0 <= ratio <= 1)%Q →
  (0 <= (bar_ratio_loop count reqs (ratio, pool)).1 <= 1)%Q.
Proof.
  induction reqs as [|[k0 v0] reqs IH]; intros ratio pool Hnd Hfit Hr.
  - exact Hr.
  - simpl in Hnd. apply NoDup_cons in Hnd as [Hk0 Hnd]. simpl.
    destruct (v0 <=? 0) eqn:E.
    + apply IH; [exact Hnd | | exact Hr].
      intros k v Hin. apply Hfit. right. exact Hin.
    + apply Z.leb_gt in E. apply IH; [exact Hnd | |].
      * intros k v Hin. rewrite get_insert_ne.
        -- apply Hfit. right. exact Hin.
        -- intros ->. apply Hk0. apply list_elem_of_fmap.
           exists (k, v). split; [reflexivity | exact Hin].
      * apply Qmax_py_unit; [|exact Hr]. apply ratio_unit.
        apply Hfit; [left | exact E].
Qed.

Lemma calc_bar_ratio_unit d count pool :
  (∀ k v, ingredients d !! k = Some v → 0 < v → 0 < get pool k / v →
          0 <= count <= get pool k / v) →
  (0 <= (_calc_bar_ratio d count pool).1 <= 1)%Q.
Proof.
  intros H. unfold _calc_bar_ratio. apply bar_ratio_loop_unit.
  - apply NoDup_keys_items.
  - intros k v Hin. apply H. apply elem_of_items. exact Hin.
  - unfold Qle. simpl. lia.
Qed.

Lemma Qmax_py_cases a b :
  (a <= Qmax_py a b)%Q ∧ (b <= Qmax_py a b)%Q ∧
  (Qmax_py a b = a ∨ Qmax_py a b = b).
Proof.
  unfold Qmax_py. destruct (Qlt_le_dec a b) as [H | H].
  - split; [apply Qlt_le_weak; exact H|]. split; [apply Qle_refl | auto].
  - split; [apply Qle_refl|]. split; [exact H | auto].
Qed.

(** The ratio the loop returns is the largest of the start value and the
    ratios of the ingredients required in positive quantity, each taken
    against the pool the loop started from. *)
Lemma bar_ratio_loop_max count reqs : ∀ ratio pool,
  NoDup reqs.*1 →
  (ratio <= (bar_ratio_loop count reqs (ratio, pool)).1)%Q ∧
  (∀ k v, (k, v) ∈ reqs → 0 < v →
     (ingredient_ratio (get pool) count k v
      <= (bar_ratio_loop count reqs (ratio, pool)).1)%Q) ∧
  ((bar_ratio_loop count reqs (ratio, pool)).1 = ratio ∨
   ∃ k v, (k, v) ∈ reqs ∧ 0 < v ∧
          (bar_ratio_loop count reqs (ratio, pool)).1
          = ingredient_ratio (get pool) count k v).
Proof.
  induction reqs as [|[k0 v0] reqs IH]; intros ratio pool Hnd.
  - simpl. split; [apply Qle_refl|]. split; [|auto].
    intros k v Hin. inversion Hin.
  - simpl in Hnd. apply NoDup_cons in Hnd as [Hk0 Hnd]. simpl.
    destruct (v0 <=? 0) eqn:E.
    + apply Z.leb_le in E. destruct (IH ratio pool Hnd) as (H1 & H2 & H3).
      split; [exact H1|]. split.
      * intros k v Hin Hv. apply elem_of_cons in Hin as [Heq | Hin].
        -- injection Heq as -> ->. lia.
        -- apply H2; assumption.
      * destruct H3 as [H3 | (k & v & Hin & Hv & H3)]; [auto|].
        right. exists k, v. split; [right; exact Hin | auto].
    + apply Z.leb_gt in E.
      set (current := if 0 <? get pool k0 / v0
                      then Qmake count (Z.to_pos (get pool k0 / v0))
                      else 0%Q).
      set (pool' := <[k0 := _]> pool).
      assert (Hsame : ∀ k v, (k, v) ∈ reqs →
                ingredient_ratio (get pool') count k v
                = ingredient_ratio (get pool) count k v).
      { intros k v Hin. unfold ingredient_ratio, pool'.
        rewrite get_insert_ne; [reflexivity|].
        intros ->. apply Hk0. apply list_elem_of_fmap.
        exists (k, v). split; [reflexivity | exact Hin]. }
      destruct (IH (Qmax_py current ratio) pool' Hnd) as (H1 & H2 & H3).
      destruct (Qmax_py_cases current ratio) as (Hc & Hr & Hm).
      split; [eapply Qle_trans; eassumption|]. split.
      * intros k v Hin Hv. apply elem_of_cons in Hin as [Heq | Hin].
        -- injection Heq as -> ->. eapply Qle_trans; [|exact H1]. exact Hc.
        -- rewrite <- (Hsame k v Hin). apply H2; assumption.
      * destruct H3 as [H3 | (k & v & Hin & Hv & H3)].
        -- rewrite H3. destruct Hm as [-> | ->]; [|auto].
           right. exists k0, v0. split; [left|]. auto.
        -- right. exists k, v. split; [right; exact Hin|].
           split; [exact Hv|]. rewrite H3. apply Hsame. exact Hin.
Qed.

Lemma ingredient_ratio_ext (r1 r2 : string → Z) count k v :
  r1 k = r2 k → ingredient_ratio r1 count k v = ingredient_ratio r2 count k v.
Proof. intros H. unfold ingredient_ratio. rewrite H. reflexivity. Qed.

Lemma ingredient_ratio_nonneg remaining count k v :
  0 <= count → (0 <= ingredient_ratio remaining count k v)%Q.
Proof.
  intros Hc. unfold ingredient_ratio.
  destruct (0 <? remaining k / v); unfold Qle; simpl; lia.
Qed.

(** The ratio of [_calc_bar_ratio] is the fill ratio of the specification
    against any description [remaining] of the pool it is given. *)
Lemma calc_bar_ratio_spec_ratio d count pool (remaining : string → Z) :
  0 <= count →
  (∀ k, remaining k = get pool k) →
  spec_fill_ratio remaining d count (_calc_bar_ratio d count pool).1.
Proof.
  intros Hc Hrem. unfold _calc_bar_ratio.
  destruct (bar_ratio_loop_max count (items (ingredients d)) 0%Q pool
              (NoDup_keys_items _)) as (H0 & Hub & Hatt).
  set (R := (bar_ratio_loop count (items (ingredients d)) (0%Q, pool)).1) in *.
  assert (Hub' : ∀ k v, ingredients d !! k = Some v → 0 < v →
                   (ingredient_ratio remaining count k v <= R)%Q).
  { intros k v Hk Hv.
    rewrite (ingredient_ratio_ext remaining (get pool)) by apply Hrem.
    apply Hub; [apply elem_of_items; exact Hk | exact Hv]. }
  destruct (decide (has_requirement d)) as [Hreq | Hreq].
  - right. split; [exact Hub'|].
    destruct Hatt as [HR | (k & v & Hin & Hv & HR)].
    + apply map_Exists_lookup in Hreq as (k & v & Hk & Hv).
      exists k, v. split; [exact Hk|]. split; [exact Hv|].
      apply Qle_antisym.
      * rewrite HR. apply ingredient_ratio_nonneg. exact Hc.
      * apply Hub'; assumption.
    + exists k, v. split; [apply elem_of_items; exact Hin|].
      split; [exact Hv|]. rewrite HR.
      rewrite (ingredient_ratio_ext remaining (get pool)) by apply Hrem.
      reflexivity.
  - left. split; [exact Hreq|].
    destruct Hatt as [HR | (k & v & Hin & Hv & _)].
    + rewrite HR. reflexivity.
    + exfalso. apply Hreq. apply map_Exists_lookup.
      exists k, v. split; [apply elem_of_items; exact Hin | exact Hv].
Qed.

Lemma bar_ratio_loop_pool count reqs : ∀ ratio pool,
  NoDup reqs.*1 →
  (∀ k v, (k, v) ∈ reqs →
     get (bar_ratio_loop count reqs (ratio, pool)).2 k =
     if v <=? 0 then get pool k else Z.max 0 (get pool k - v * count)) ∧
  (∀ k, k ∉ reqs.*1 →
     get (bar_ratio_loop count reqs (ratio, pool)).2 k = get pool k).
Proof.
  induction reqs as [|[k0 v0] reqs IH]; intros ratio pool Hnd.
  - split; [|reflexivity]. intros k v Hin. inversion Hin.
  - simpl in Hnd. apply NoDup_cons in Hnd as [Hk0 Hnd]. simpl.
    destruct (v0 <=? 0) eqn:E.
    + destruct (IH ratio pool Hnd) as [Hin Hout]. split.
      * intros k v Hkv. apply elem_of_cons in Hkv as [Heq | Hkv].
        -- injection Heq as -> ->. rewrite E. apply Hout. exact Hk0.
        -- apply Hin. exact Hkv.
      * intros k Hk. apply not_elem_of_cons in Hk as [_ Hk]. apply Hout. exact Hk.
    + match goal with
      | |- context [bar_ratio_loop count reqs (?r, ?p)] =>
          destruct (IH r p Hnd) as [Hin Hout]
      end.
      split.
      * intros k v Hkv. apply elem_of_cons in Hkv as [Heq | Hkv].
        -- injection Heq as -> ->. rewrite E. rewrite (Hout k0 Hk0).
           rewrite get_insert_eq.
           destruct (get pool k0 - v0 * count <? 0) eqn:E2;
             [apply Z.ltb_lt in E2 | apply Z.ltb_ge in E2]; lia.
        -- rewrite (Hin k v Hkv). rewrite get_insert_ne; [reflexivity|].
           intros ->. apply Hk0. apply list_elem_of_fmap.
           exists (k, v). split; [reflexivity | exact Hkv].
      * intros k Hk. apply not_elem_of_cons in Hk as [Hne Hk].
        rewrite (Hout k Hk). apply get_insert_ne. congruence.
Qed.

Lemma calc_bar_ratio_pool d count pool k :
  get (_calc_bar_ratio d count pool).2 k =
  match ingredients d !! k with
  | Some v => if v <=? 0 then get pool k else Z.max 0 (get pool k - v * count)
  | None => get pool k
  end.
Proof.
  unfold _calc_bar_ratio.
  destruct (bar_ratio_loop_pool count (items (ingredients d)) 0%Q pool
              (NoDup_keys_items _)) as [Hin Hout].
  destruct (ingredients d !! k) as [v|] eqn:E.
  - apply Hin. apply elem_of_items. exact E.
  - apply Hout. intros Hk. apply list_elem_of_fmap in Hk as ([k' v'] & -> & Hk').
    apply elem_of_items in Hk'. simpl in E. congruence.
Qed.

(** ** Realisation: the purchase plan *)

Lemma total_demand_cons s sols k :
  total_demand (s :: sols) k =
  count s * get (ingredients (dish s)) k + total_demand sols k.
Proof. reflexivity. Qed.

Lemma demand_loop_lookup purchasable c reqs : ∀ plan k,
  NoDup reqs.*1 →
  (∀ v, (k, v) ∈ reqs → is_Some (purchasable !! k) →
        demand_loop purchasable c reqs plan !! k = Some (get plan k + v * c)) ∧
  (k ∉ reqs.*1 ∨ purchasable !! k = None →
        demand_loop purchasable c reqs plan !! k = plan !! k).
Proof.
  induction reqs as [|[k0 v0] reqs IH]; intros plan k Hnd.
  - split; [|reflexivity]. intros v Hin. inversion Hin.
  - simpl in Hnd. apply NoDup_cons in Hnd as [Hk0 Hnd]. simpl.
    match goal with
    | |- context [demand_loop purchasable c reqs ?p] =>
        destruct (IH p k Hnd) as [Hin Hout]
    end.
    split.
    + intros v Hkv [x Hx]. apply elem_of_cons in Hkv as [Heq | Hkv].
      * injection Heq as -> ->. rewrite Hout by (left; exact Hk0).
        rewrite Hx. apply lookup_insert_eq.
      * rewrite (Hin v Hkv) by eauto. f_equal. f_equal.
        destruct (purchasable !! k0); [|reflexivity].
        apply get_insert_ne. intros ->. apply Hk0. apply list_elem_of_fmap.
        exists (k, v). split; [reflexivity | exact Hkv].
    + intros Hmiss. rewrite Hout.
      * destruct (purchasable !! k0) eqn:Ep; [|reflexivity].
        apply lookup_insert_ne. intros ->.
        destruct Hmiss as [Hk | Hp]; [|congruence].
        apply Hk. left.
      * destruct Hmiss as [Hk | Hp]; [left | right; exact Hp].
        intros Hin'. apply Hk. right. exact Hin'.
Qed.

Lemma demand_dish_lookup purchasable c d plan k :
  demand_loop purchasable c (items (ingredients d)) plan !! k =
  match purchasable !! k, ingredients d !! k with
  | Some _, Some v => Some (get plan k + v * c)
  | _, _ => plan !! k
  end.
Proof.
  destruct (demand_loop_lookup purchasable c (items (ingredients d)) plan k
              (NoDup_keys_items _)) as [Hin Hout].
  destruct (purchasable !! k) as [x|] eqn:Ep.
  - destruct (ingredients d !! k) as [v|] eqn:Ev.
    + apply Hin; [apply elem_of_items; exact Ev | eauto].
    + apply Hout. left. intros Hk.
      apply list_elem_of_fmap in Hk as ([k' v'] & -> & Hk').
      apply elem_of_items in Hk'. simpl in Ev. congruence.
  - apply Hout. right. reflexivity.
Qed.

Lemma plan_of_cons purchasable s sols plan0 :
  plan_of purchasable (s :: sols) plan0 =
  plan_of purchasable sols
    (demand_loop purchasable (count s) (items (ingredients (dish s))) plan0).
Proof. reflexivity. Qed.

Lemma plan_of_not_purchasable purchasable sols plan0 k :
  purchasable !! k = None → plan_of purchasable sols plan0 !! k = plan0 !! k.
Proof.
  intros Hp. unfold plan_of.
  apply (foldl_invariant (fun plan => plan !! k = plan0 !! k)); [reflexivity|].
  intros acc s _ Hacc. rewrite demand_dish_lookup, Hp. exact Hacc.
Qed.

Lemma plan_of_not_demanded purchasable sols : ∀ plan0 k,
  ¬ demanded sols k → plan_of purchasable sols plan0 !! k = plan0 !! k.
Proof.
  induction sols as [|s sols IH]; intros plan0 k Hno; [reflexivity|].
  rewrite plan_of_cons. rewrite IH.
  - rewrite demand_dish_lookup.
    destruct (ingredients (dish s) !! k) as [v|] eqn:Ev.
    + exfalso. apply Hno. left. rewrite Ev. eauto.
    + destruct (purchasable !! k); reflexivity.
  - intros H. apply Hno. right. exact H.
Qed.

Lemma total_demand_not_demanded sols k :
  ¬ demanded sols k → total_demand sols k = 0.
Proof.
  induction sols as [|s sols IH]; intros Hno; [reflexivity|].
  rewrite total_demand_cons.
  rewrite IH by (intros H; apply Hno; right; exact H).
  destruct (ingredients (dish s) !! k) as [v|] eqn:Ev.
  - exfalso. apply Hno. left. rewrite Ev. eauto.
  - rewrite (get_None _ _ Ev). lia.
Qed.

Lemma plan_of_demanded purchasable sols : ∀ plan0 k,
  is_Some (purchasable !! k) → demanded sols k →
  plan_of purchasable sols plan0 !! k =
  Some (get plan0 k + total_demand sols k).
Proof.
  induction sols as [|s sols IH]; intros plan0 k Hp Hdem.
  - inversion Hdem.
  - rewrite plan_of_cons.
    set (plan1 := demand_loop purchasable (count s)
                    (items (ingredients (dish s))) plan0).
    assert (H1 : plan1 !! k =
                 match ingredients (dish s) !! k with
                 | Some v => Some (get plan0 k + v * count s)
                 | None => plan0 !! k
                 end).
    { unfold plan1. rewrite demand_dish_lookup. destruct Hp as [x ->].
      reflexivity. }
    destruct (decide (demanded sols k)) as [Hrest | Hrest].
    + rewrite (IH plan1 k Hp Hrest). f_equal. rewrite total_demand_cons.
      unfold get at 1. rewrite H1.
      destruct (ingredients (dish s) !! k) as [v|] eqn:Ev.
      * rewrite (get_Some _ _ _ Ev). simpl. lia.
      * rewrite (get_None _ _ Ev). unfold get. lia.
    + rewrite plan_of_not_demanded by exact Hrest.
      rewrite total_demand_cons.
      rewrite (total_demand_not_demanded _ _ Hrest). rewrite H1.
      apply Exists_cons in Hdem as [[v Ev] | Hdem]; [|contradiction].
      rewrite Ev. rewrite (get_Some _ _ _ Ev). f_equal. lia.
Qed.

Lemma rectify_lookup warehouse plan k :
  rectify warehouse plan !! k =
  (fun demand => Z.max 0 (demand - get warehouse k)) <$> plan !! k.
Proof.
  unfold rectify. rewrite map_lookup_imap.
  destruct (plan !! k) as [demand|]; [|reflexivity]. simpl. f_equal.
  destruct (0 <? demand - get warehouse k) eqn:E;
    [apply Z.ltb_lt in E | apply Z.ltb_ge in E]; lia.
Qed.

(** The purchase plan of an allocation, key by key. *)
Lemma purchase_plan_lookup self sols k q :
  rectify (warehouse_storage self)
    (plan_of (purchasable_ingredients self) sols ∅) !! k = Some q ↔
  is_Some (purchasable_ingredients self !! k) ∧ demanded sols k ∧
  q = Z.max 0 (total_demand sols k - get (warehouse_storage self) k).
Proof.
  rewrite rectify_lookup. split.
  - intros H.
    destruct (purchasable_ingredients self !! k) as [x|] eqn:Ep.
    2:{ rewrite plan_of_not_purchasable in H by exact Ep.
        rewrite lookup_empty in H. discriminate. }
    destruct (decide (demanded sols k)) as [Hd | Hd].
    2:{ rewrite plan_of_not_demanded in H by exact Hd.
        rewrite lookup_empty in H. discriminate. }
    rewrite plan_of_demanded in H by eauto. simpl in H.
    injection H as <-. split; [eauto|]. split; [exact Hd|].
    unfold get at 1. rewrite lookup_empty. simpl. reflexivity.
  - intros (Hp & Hd & ->). rewrite plan_of_demanded by assumption.
    simpl. unfold get at 1. rewrite lookup_empty. simpl. reflexivity.
Qed.

(** ** From the kept solution to the returned plan *)

Lemma combinations2_elem {A : Type} (l : list A) (a b : A) :
  (a, b) ∈ combinations2 l → a ∈ l ∧ b ∈ l.
Proof.
  induction l as [|x l IH]; simpl; intros Hin.
  - inversion Hin.
  - apply elem_of_app in Hin as [Hin | Hin].
    + apply list_elem_of_fmap in Hin as (y & Heq & Hy).
      injection Heq as -> ->. split; [left | right; exact Hy].
    + destruct (IH Hin). split; right; assumption.
Qed.

Lemma combinations2_partner {A : Type} (l : list A) (a : A) :
  (2 <= length l)%nat → a ∈ l →
  ∃ b, (a, b) ∈ combinations2 l ∨ (b, a) ∈ combinations2 l.
Proof.
  destruct l as [|x [|y l]]; intros Hlen Hin; simpl in Hlen; try lia.
  change (combinations2 (x :: y :: l))
    with (map (fun z => (x, z)) (y :: l) ++ combinations2 (y :: l)).
  apply elem_of_cons in Hin as [-> | Hin].
  - exists y. left. apply elem_of_app. left. left.
  - exists x. right. apply elem_of_app. left.
    apply (list_elem_of_fmap_2 (fun z => (x, z))) in Hin. exact Hin.
Qed.

Lemma find_best_solution_spec self :
  ∃ sols,
    find_best_solution self =
      (sols, rectify (warehouse_storage self)
               (plan_of (purchasable_ingredients self) sols ∅)) ∧
    threaded (total_ingredients self) sols ∧
    plan_shape self sols.
Proof.
  unfold find_best_solution.
  destruct (realize_spec self (search self)) as (sols & -> & Hd & Hc & Hth).
  exists sols. split; [reflexivity|]. split; [exact Hth|].
  destruct (search_chosen self)
    as [E | [(d & Hin & Ed & Ec & Ep & Hpos)
            | (d1 & d2 & c1 & c2 & Hin & Ed & Ec & Ep & Ha & Hlt)]].
  - rewrite E in Hd. simpl in Hd. destruct sols; [constructor | discriminate].
  - rewrite Ed, Ec in Hd, Hc. simpl in Hd, Hc.
    destruct sols as [|[d' c' r'] [|? ?]]; try discriminate.
    cbn [map dish count] in Hd, Hc. injection Hd as ->. injection Hc as ->.
    apply shape_single; [exact Hin | lia].
  - rewrite Ed, Ec in Hd, Hc. simpl in Hd, Hc.
    destruct sols as [|[d1' c1' r1] [|[d2' c2' r2] [|? ?]]]; try discriminate.
    cbn [map dish count] in Hd, Hc.
    injection Hd as -> ->. injection Hc as -> ->.
    apply shape_pair; [exact Hin | exact Ha | lia].
Qed.

(** ** C1: joint feasibility of the returned allocation *)


(** ** C3: the fill ratio *)

Lemma fits_by_product (a v c : Z) :
  0 < v → 0 <= c → c * v <= a → 0 < a / v → 0 <= c <= a / v.
Proof.
  intros Hv Hc Hcv _. split; [exact Hc|].
  apply Z.div_le_lower_bound; [exact Hv | lia].
Qed.

(** C3 (amended). With a non-negative pool, a non-negative horizon and
    non-negative requirement quantities, every entry of the returned plan
    has the fill ratio of the specification (the largest, over the
    ingredients it requires in positive quantity, of
    [count / (remaining // required)], 0 counted where that quotient is
    not positive), taken against what remains of the pool once all
    earlier entries of the plan are consumed ([pool_after]); and that
    ratio lies in [0, 1]. *)
Theorem fill_ratio_unit (self : RestaurantOptimizer) :
  pools_nonneg (total_ingredients self) →
  0 <= time_limit self →
  Forall requirements_nonneg (unlocked_dishes self) →
  ∀ sols plan, find_best_solution self = (sols, plan) →
  ∀ earlier s later, sols = earlier ++ s :: later →
    spec_fill_ratio (pool_after (total_ingredients self) earlier)
      (dish s) (count s) (bar_ratio s) ∧
    (0 <= bar_ratio s <= 1)%Q.
Proof.
  intros Hpool HT Hreq sols plan Hrun earlier s later Hsplit.
  destruct (find_best_solution_spec self) as (sols' & E & Hth & Hshape).
  rewrite E in Hrun. injection Hrun as <- _.
  pose proof (get_nonneg _ Hpool) as Hget.
  rewrite Forall_forall in Hreq.
  destruct Hshape as [| d ratio Hin Hpos | d1 d2 c1 c2 r1 r2 Hin Ha Hlt].
  - destruct earlier; discriminate.
  - assert (earlier = [] ∧ s = mkMenuSolution d (_optimize_single_dish self d).1
                                  ratio) as [-> ->].
    { destruct earlier as [|? [|? ?]]; try discriminate.
      injection Hsplit as <- _. auto. }
    destruct Hth as [Hr _]. simpl in Hr. cbn [dish count bar_ratio].
    rewrite Hr. split.
    + apply calc_bar_ratio_spec_ratio.
      * apply (single_count_nonneg self d); assumption.
      * intros k. unfold pool_after. simpl. lia.
    + apply calc_bar_ratio_unit. intros k v Hk Hv _. split.
      * apply (single_count_nonneg self d); assumption.
      * etransitivity; [apply Z.le_min_r|].
        apply calc_ingredient_limit_upper; assumption.
  - destruct (combinations2_elem _ _ _ Hin) as [Hd1 Hd2].
    pose proof (Hreq _ Hd1) as Hreq1. pose proof (Hreq _ Hd2) as Hreq2.
    destruct (pair_alloc_counts _ _ _ _ _ Hpool HT Ha) as [[H1 _] [H2 _]].
    assert (Hjoint : ∀ k, c1 * get (ingredients d1) k + c2 * get (ingredients d2) k
                          <= get (total_ingredients self) k).
    { intros k. apply pair_alloc_joint; [exact Hpool | exact Ha | left; exact HT]. }
    destruct Hth as (Hr1 & Hr2 & _). simpl in Hr1, Hr2.
    (* what the first entry leaves is the pool minus its demand *)
    assert (Hleft : ∀ k,
              get (_calc_bar_ratio d1 c1 (total_ingredients self)).2 k
              = get (total_ingredients self) k - c1 * get (ingredients d1) k).
    { intros k. rewrite calc_bar_ratio_pool. specialize (Hjoint k).
      pose proof (requirements_nonneg_get d2 k Hreq2).
      destruct (ingredients d1 !! k) as [v1|] eqn:E1.
      - rewrite (get_Some _ _ _ E1) in *.
        specialize (Hreq1 k v1 E1). simpl in Hreq1.
        destruct (v1 <=? 0) eqn:E0.
        + apply Z.leb_le in E0. assert (v1 = 0) by lia. subst v1. lia.
        + nia.
      - rewrite (get_None _ _ E1). lia. }
    assert (Hcase : (earlier = [] ∧ s = mkMenuSolution d1 c1 r1) ∨
                    (earlier = [mkMenuSolution d1 c1 r1] ∧
                     s = mkMenuSolution d2 c2 r2)).
    { destruct earlier as [|e1 [|e2 [|? ?]]]; try discriminate.
      - injection Hsplit as <- _. auto.
      - injection Hsplit as <- <- _. auto. }
    destruct Hcase as [[-> ->] | [-> ->]]; cbn [dish count bar_ratio].
    + rewrite Hr1. split.
      * apply calc_bar_ratio_spec_ratio; [exact H1|].
        intros k. unfold pool_after. simpl. lia.
      * apply calc_bar_ratio_unit. intros k v Hk Hv.
        apply fits_by_product; [exact Hv | exact H1 |].
        specialize (Hjoint k). rewrite (get_Some _ _ _ Hk) in Hjoint.
        pose proof (requirements_nonneg_get d2 k Hreq2). nia.
    + rewrite Hr2. split.
      * apply calc_bar_ratio_spec_ratio; [exact H2|].
        intros k. unfold pool_after. rewrite Hleft.
        cbn [total_demand foldr dish count]. lia.
      * apply calc_bar_ratio_unit. intros k v Hk Hv.
        apply fits_by_product; [exact Hv | exact H2 |].
        rewrite Hleft.
        specialize (Hjoint k). rewrite (get_Some _ _ _ Hk) in Hjoint. lia.
Qed.

(** ** C2: the two-dish search against the single-dish search *)

Lemma can_make_zero total d :
  (∀ k, 0 <= get total k) → can_make total d 0.
Proof. intros Hget k v _. specialize (Hget k). lia. Qed.

Lemma count2_at_zero total outer inner tl2 :
  count2_at total outer inner tl2 0 =
  Z.min tl2 (_calc_ingredient_limit inner total).
Proof.
  unfold count2_at. f_equal. apply calc_ingredient_limit_ext.
  intros k. rewrite get_pool_left. apply left_over_zero.
Qed.

(** Up to the single-dish count, every count of a dish can be made. *)
Lemma can_make_below_limit total d c :
  (∀ k, 0 <= get total k) →
  0 <= c <= _calc_ingredient_limit d total → can_make total d c.
Proof.
  intros Hget [Hc0 Hc] k v Hk.
  destruct (Z_lt_le_dec 0 v) as [Hv | Hv].
  - pose proof (calc_ingredient_limit_upper d total k v Hk Hv).
    pose proof (Z.mul_div_le (get total k) v Hv). nia.
  - specialize (Hget k). nia.
Qed.

Section PairAgainstSingle.
Variable self : RestaurantOptimizer.
Hypothesis Hpool : pools_nonneg (total_ingredients self).

Local Abbreviation total := (total_ingredients self).

Lemma single_profit_positive d :
  0 <= price d → 0 < (_optimize_single_dish self d).2 →
  0 < (_optimize_single_dish self d).1 ∧ 0 < time_limit self.
Proof.
  simpl. intros Hp Hpos.
  assert (Hc : 0 < Z.min (_calc_time_limit self d)
                         (_calc_ingredient_limit d (total_ingredients self)))
    by nia.
  split; [exact Hc|].
  assert (Htl : 0 < _calc_time_limit self d) by lia.
  destruct (Z_lt_le_dec 0 (time_limit self)) as [H | H]; [exact H|].
  pose proof (calc_time_limit_nonpos self d H). lia.
Qed.

(** The dish enumerated by the loop: its single-dish count is reached. *)
Lemma outer_dominates outer inner swapped :
  0 <= price outer → 0 <= price inner →
  (_optimize_single_dish self outer).2 <=
  (search_oriented total outer inner (_calc_time_limit self outer)
     (_calc_time_limit self inner) swapped).2.
Proof.
  intros HpO HpI.
  destruct (Z_lt_le_dec 0 (_optimize_single_dish self outer).2) as [Hpos | Hneg].
  2:{ etransitivity; [exact Hneg|]. unfold search_oriented.
      apply (count1_loop_mono total outer inner _ swapped _ ([0; 0], 0)). }
  destruct (single_profit_positive outer HpO Hpos) as [Hc HT].
  pose proof (get_nonneg _ Hpool) as Hget.
  simpl in Hc |- *. set (c := Z.min _ _) in *.
  assert (Hmk : ∀ c', 0 <= c' <= c → can_make total outer c').
  { intros c' Hc'. apply can_make_below_limit; [exact Hget|]. unfold c in Hc'. lia. }
  etransitivity;
    [|apply (search_oriented_reaches total outer inner _ swapped _ c)].
  - unfold profit_at.
    assert (0 <= count2_at total outer inner (_calc_time_limit self inner) c).
    { apply count2_at_nonneg; [exact Hget | apply Hmk; lia |].
      apply calc_time_limit_nonneg. lia. }
    nia.
  - unfold c. lia.
  - exact Hmk.
Qed.

(** The other dish: its single-dish count is the inner count at
    [count1 = 0]. *)
Lemma inner_dominates outer inner swapped :
  0 <= price inner →
  (_optimize_single_dish self inner).2 <=
  (search_oriented total outer inner (_calc_time_limit self outer)
     (_calc_time_limit self inner) swapped).2.
Proof.
  intros HpI.
  destruct (Z_lt_le_dec 0 (_optimize_single_dish self inner).2) as [Hpos | Hneg].
  2:{ etransitivity; [exact Hneg|]. unfold search_oriented.
      apply (count1_loop_mono total outer inner _ swapped _ ([0; 0], 0)). }
  destruct (single_profit_positive inner HpI Hpos) as [Hc HT].
  pose proof (get_nonneg _ Hpool) as Hget.
  etransitivity;
    [|apply (search_oriented_reaches total outer inner _ swapped _ 0)].
  - unfold profit_at. rewrite count2_at_zero. simpl. lia.
  - split; [lia|]. apply calc_time_limit_nonneg. lia.
  - intros c' Hc'. assert (c' = 0) by lia. subst c'.
    apply can_make_zero. exact Hget.
Qed.

Lemma two_dominates_single d1 d2 :
  0 <= price d1 → 0 <= price d2 →
  (_optimize_single_dish self d1).2 <= (_optimize_two_dishes self d1 d2).2 ∧
  (_optimize_single_dish self d2).2 <= (_optimize_two_dishes self d1 d2).2.
Proof.
  intros Hp1 Hp2. unfold _optimize_two_dishes.
  destruct (orient_cases self d1 d2) as [[-> _] | [-> _]]; split.
  - apply inner_dominates. exact Hp1.
  - apply outer_dominates; assumption.
  - apply outer_dominates; assumption.
  - apply inner_dominates. exact Hp2.
Qed.
End PairAgainstSingle.

(** C2 (amended). With a non-negative pool and no negative price, the
    profit that [_optimize_two_dishes] finds for a pair is at least the
    single-dish profit of each of its two dishes; hence, when at least two
    dishes are unlocked, the best profit over all pairs is at least the
    best single-dish profit. *)
Theorem two_best_dominates_single (self : RestaurantOptimizer) :
  pools_nonneg (total_ingredients self) →
  Forall (fun d => 0 <= price d) (unlocked_dishes self) →
  (∀ d1 d2, d1 ∈ unlocked_dishes self → d2 ∈ unlocked_dishes self →
     (_optimize_single_dish self d1).2 <= (_optimize_two_dishes self d1 d2).2 ∧
     (_optimize_single_dish self d2).2 <= (_optimize_two_dishes self d1 d2).2) ∧
  ((2 <= length (unlocked_dishes self))%nat →
   profit (best_single self) <= profit (two_best self)).
Proof.
  intros Hpool Hprice. rewrite Forall_forall in Hprice.
  assert (Hpair : ∀ d1 d2, d1 ∈ unlocked_dishes self → d2 ∈ unlocked_dishes self →
     (_optimize_single_dish self d1).2 <= (_optimize_two_dishes self d1 d2).2 ∧
     (_optimize_single_dish self d2).2 <= (_optimize_two_dishes self d1 d2).2).
  { intros d1 d2 H1 H2. apply (two_dominates_single self Hpool d1 d2); auto. }
  split; [exact Hpair|]. intros Hlen.
  destruct (best_single_chosen self) as [-> | (d & Hin & _ & _ & Ep & _)].
  - unfold two_best.
    apply (foldl_mono profit (try_pair self) _ empty_solution).
    apply try_pair_mono.
  - rewrite Ep.
    destruct (combinations2_partner _ d Hlen Hin) as [e [He | He]];
      pose proof (combinations2_elem _ _ _ He) as [Ha Hb].
    + etransitivity; [|apply (two_best_dominates self d e He)].
      apply (Hpair d e Ha Hb).
    + etransitivity; [|apply (two_best_dominates self e d He)].
      apply (Hpair e d Ha Hb).
Qed.

Lemma positive_factor (c p : Z) :
  0 <= c ∨ 0 <= p → 0 < c * p → 1 <= c.
Proof.
  intros Hsign Hpos. destruct (Z_lt_le_dec 0 c) as [H | H]; [lia|].
  exfalso. destruct Hsign as [Hc | Hp].
  - assert (c = 0) by lia. subst c. lia.
  - nia.
Qed.

(** A dish that is enumerated never exceeds its own single-dish count. *)
Lemma enumerated_outer_le_single self outer inner cO cI :
  has_requirement outer →
  enumerated self outer inner cO cI →
  cO <= (_optimize_single_dish self outer).1.
Proof.
  intros Hreq ([_ Htl] & Hmk & _). simpl. apply Z.min_glb; [exact Htl|].
  apply calc_ingredient_limit_greatest; [exact Hreq|].
  intros k v Hk Hv. apply Z.div_le_lower_bound; [exact Hv|].
  specialize (Hmk k v Hk). lia.
Qed.

Lemma enumerated_positive self outer inner cO cI :
  pools_nonneg (total_ingredients self) →
  0 <= time_limit self ∨ (0 <= price outer ∧ 0 <= price inner) →
  has_requirement outer →
  outer ∈ unlocked_dishes self → inner ∈ unlocked_dishes self →
  enumerated self outer inner cO cI →
  profit (best_single self) < cO * price outer + cI * price inner →
  1 <= cO ∧ 1 <= cI.
Proof.
  intros Hpool Hsign Hreq HinO HinI He Hlt.
  pose proof (best_single_dominates self outer HinO) as HbO.
  pose proof (best_single_dominates self inner HinI) as HbI.
  pose proof (best_single_nonneg self) as Hb0.
  pose proof (enumerated_outer_le_single _ _ _ _ _ Hreq He) as HleO.
  destruct He as ([HcO0 HcOtl] & Hmk & HcI).
  simpl in HbO, HbI, HleO.
  split.
  - destruct (Z_lt_le_dec 0 cO) as [H | H]; [lia|]. exfalso.
    assert (cO = 0) by lia. subst cO.
    rewrite count2_at_zero in HcI. subst cI. lia.
  - destruct (Z_lt_le_dec 0 cI) as [H | H]; [lia|]. exfalso.
    assert (HI : cI * price inner <= 0).
    { destruct Hsign as [HT | [_ HpI]]; [|nia].
      assert (0 <= cI).
      { rewrite HcI. apply count2_at_nonneg;
          [apply get_nonneg; exact Hpool | exact Hmk |
           apply calc_time_limit_nonneg; exact HT]. }
      assert (cI = 0) by lia. subst cI. lia. }
    assert (HO : 0 <= price outer).
    { destruct Hsign as [HT | [HpO _]]; [|exact HpO]. nia. }
    nia.
Qed.

(** C9 (amended). If every unlocked dish has a requirement with positive
    quantity, the pool is non-negative, and the horizon is non-negative or
    no price is negative, then every entry of the returned plan has a count
    of at least 1. *)
Theorem plan_counts_positive (self : RestaurantOptimizer) :
  Forall has_requirement (unlocked_dishes self) →
  pools_nonneg (total_ingredients self) →
  0 <= time_limit self ∨ Forall (fun d => 0 <= price d) (unlocked_dishes self) →
  ∀ s, s ∈ (find_best_solution self).1 → 1 <= count s.
Proof.
  intros Hreq Hpool Hsign s Hs.
  destruct (find_best_solution_spec self) as (sols & E & _ & Hshape).
  rewrite E in Hs. simpl in Hs.
  rewrite Forall_forall in Hreq.
  assert (Hsign' : ∀ d, d ∈ unlocked_dishes self →
                        0 <= time_limit self ∨ 0 <= price d).
  { intros d Hd. destruct Hsign as [HT | Hp]; [left; exact HT | right].
    rewrite Forall_forall in Hp. apply Hp. exact Hd. }
  destruct Hshape as [| d ratio Hin Hpos | d1 d2 c1 c2 r1 r2 Hin Ha Hlt].
  - inversion Hs.
  - apply list_elem_of_singleton in Hs as ->. cbn [count].
    apply (positive_factor _ (price d)); [|exact Hpos].
    destruct (Hsign' d Hin) as [HT | Hp]; [left | right; exact Hp].
    apply single_count_nonneg; assumption.
  - destruct (combinations2_elem _ _ _ Hin) as [Hd1 Hd2].
    assert (H12 : 1 <= c1 ∧ 1 <= c2).
    { destruct Ha as [He | He].
      - apply (enumerated_positive self d1 d2 c1 c2); auto.
        destruct (Hsign' d1 Hd1), (Hsign' d2 Hd2); auto.
      - apply and_comm.
        apply (enumerated_positive self d2 d1 c2 c1); auto; [|lia].
        destruct (Hsign' d1 Hd1), (Hsign' d2 Hd2); auto. }
    apply elem_of_cons in Hs as [-> | Hs];
      [|apply list_elem_of_singleton in Hs as ->]; simpl; lia.
Qed.

(** ** C5: the horizon argument *)

Lemma minutes_nonpos (h : Q) :
  (h <= 0)%Q → int_of_Q (round64 (h * 60)) <= 0.
Proof.
  intros Hh. apply int_of_Q_sign_nonpos, round64_nonpos.
  unfold Qle in *. simpl in *. lia.
Qed.

Lemma minutes_nonneg (h : Q) :
  (0 <= h)%Q → 0 <= int_of_Q (round64 (h * 60)).
Proof.
  intros Hh. apply int_of_Q_sign_nonneg, round64_nonneg.
  unfold Qle in *. simpl in *. lia.
Qed.

Lemma default_minutes : int_of_float (times_60 default_time_limit) = inr 1440.
Proof. vm_compute. reflexivity. Qed.

(** The constructor on the default horizon raises nothing but [KeyError]. *)
Lemma construct_default dishes levels ingredient_names warehouse shop slots :
  construct dishes levels ingredient_names warehouse shop
    default_time_limit slots =
  match filter_unlocked levels dishes with
  | None => inl KeyError
  | Some unlocked =>
      inr {| time_limit := 1440;
             max_slots := slots;
             warehouse_storage := warehouse;
             purchasable_ingredients := shop;
             unlocked_dishes := unlocked;
             total_ingredients :=
               sum_storages warehouse shop ingredient_names |}
  end.
Proof. unfold construct. rewrite default_minutes. reflexivity. Qed.

(** The constructor on a finite horizon. *)
Lemma construct_finite dishes levels ingredient_names warehouse shop h slots
    self :
  construct dishes levels ingredient_names warehouse shop (Finite h) slots
    = inr self →
  time_limit self = int_of_Q (round64 (h * 60)) ∧
  max_slots self = slots ∧
  warehouse_storage self = warehouse ∧
  purchasable_ingredients self = shop ∧
  filter_unlocked levels dishes = Some (unlocked_dishes self) ∧
  total_ingredients self = sum_storages warehouse shop ingredient_names.
Proof.
  unfold construct, times_60, float_of. intros H.
  destruct (Qle_bool _ _); [discriminate|]. cbn [int_of_float] in H.
  destruct (filter_unlocked levels dishes); [|discriminate].
  injection H as <-. auto 10.
Qed.

(** What the constructor builds, whatever the horizon. *)
Lemma init_Some dishes levels ingredient_names warehouse shop hours slots
    self :
  init dishes levels ingredient_names warehouse shop hours slots = Some self →
  ∃ minutes,
    int_of_float (times_60 hours) = inr minutes ∧
    time_limit self = minutes ∧
    max_slots self = slots ∧
    warehouse_storage self = warehouse ∧
    purchasable_ingredients self = shop ∧
    filter_unlocked levels dishes = Some (unlocked_dishes self) ∧
    total_ingredients self = sum_storages warehouse shop ingredient_names.
Proof.
  unfold init, construct. intros H.
  destruct (int_of_float (times_60 hours)) as [e | minutes]; [discriminate|].
  destruct (filter_unlocked levels dishes); [|discriminate].
  injection H as <-. exists minutes. auto 10.
Qed.

Lemma realize_empty self : realize self empty_solution = ([], ∅).
Proof.
  unfold realize. cbn [realize_loop dishes counts empty_solution].
  unfold rectify. rewrite map_imap_empty. reflexivity.
Qed.

Lemma search_nonpositive_horizon self :
  time_limit self <= 0 →
  Forall (fun d => 0 <= price d) (unlocked_dishes self) →
  find_best_solution self = ([], ∅).
Proof.
  intros HT Hprice. rewrite Forall_forall in Hprice.
  assert (E : search self = empty_solution).
  { destruct (search_chosen self)
      as [E | [(d & Hin & _ & _ & Ep & Hpos)
              | (d1 & d2 & c1 & c2 & Hin & _ & _ & Ep & Ha & Hlt)]];
      [exact E | exfalso ..].
    - rewrite Ep in Hpos. simpl in Hpos.
      pose proof (calc_time_limit_nonpos self d HT).
      pose proof (Hprice d Hin). nia.
    - destruct (combinations2_elem _ _ _ Hin) as [Hd1 Hd2].
      pose proof (Hprice d1 Hd1). pose proof (Hprice d2 Hd2).
      pose proof (calc_time_limit_nonpos self d1 HT).
      pose proof (calc_time_limit_nonpos self d2 HT).
      pose proof (best_single_nonneg self).
      destruct Ha as [(Hc & _ & HcI) | (Hc & _ & HcI)];
        unfold count2_at in HcI; nia. }
  unfold find_best_solution. rewrite E. apply realize_empty.
Qed.

(** C5 (amended). A horizon text that is not a number, or that reads as
    a NaN, makes the caller build the optimizer with the default of 24
    hours (1440 minutes); a horizon that is infinite, or whose float
    product with 60 is, ends the run with the [OverflowError] of the
    constructor.  Any other horizon is used as given, also when it is
    zero or negative: the minute budget is the truncated float product
    with 60; for a horizon of at most 0 it is non-positive and, no price
    being negative, the optimizer returns no plan entry and an empty
    purchase plan. *)
Theorem horizon_handling (catalogue : list Dish) (levels : gmap string Z)
    (ingredient_names : list string) (warehouse shop : gmap string Z) :
  run_optimizer catalogue levels ingredient_names warehouse shop NotNumeric
    = run_optimizer catalogue levels ingredient_names warehouse shop
        (Numeric (Finite 24)) ∧
  run_optimizer catalogue levels ingredient_names warehouse shop (Numeric NaN)
    = run_optimizer catalogue levels ingredient_names warehouse shop
        NotNumeric ∧
  (∀ self,
     run_optimizer catalogue levels ingredient_names warehouse shop NotNumeric
       = Some self →
     time_limit self = 1440) ∧
  (∀ negative,
     run_optimizer catalogue levels ingredient_names warehouse shop
       (Numeric (Infinite negative)) = None) ∧
  (∀ h self,
     (h <= 0)%Q →
     run_optimizer catalogue levels ingredient_names warehouse shop
       (Numeric (Finite h)) = Some self →
     Forall (fun d => 0 <= price d) (unlocked_dishes self) →
     time_limit self = int_of_Q (round64 (h * 60)) ∧ time_limit self <= 0 ∧
     find_best_solution self = ([], ∅)) ∧
  (∀ h self,
     run_optimizer catalogue levels ingredient_names warehouse shop
       (Numeric (Finite h)) = Some self →
     time_limit self = int_of_Q (round64 (h * 60))) ∧
  (∀ h,
     times_60 (Finite h) ≠ Finite (round64 (h * 60)) →
     run_optimizer catalogue levels ingredient_names warehouse shop
       (Numeric (Finite h)) = None).
Proof.
  assert (Hfinite : ∀ h self,
            run_optimizer catalogue levels ingredient_names warehouse shop
              (Numeric (Finite h)) = Some self →
            time_limit self = int_of_Q (round64 (h * 60))).
  { intros h self H. unfold run_optimizer in H.
    destruct (construct _ _ _ _ _ (Finite h) 2) as [e | o] eqn:E.
    { unfold construct, times_60, float_of in E.
      destruct (Qle_bool _ _); cbn [int_of_float] in E.
      - injection E as <-. discriminate.
      - destruct (filter_unlocked levels catalogue); [discriminate|].
        injection E as <-. discriminate. }
    injection H as ->. apply construct_finite in E as (HT & _). exact HT. }
  split; [|split; [|split; [|split; [|split; [|split]]]]].
  - unfold run_optimizer, init.
    change (Finite 24) with default_time_limit.
    destruct (construct _ _ _ _ _ default_time_limit 2) as [e | o] eqn:E;
      [|reflexivity].
    rewrite construct_default in E.
    destruct (filter_unlocked levels catalogue); [discriminate|].
    injection E as <-. reflexivity.
  - reflexivity.
  - intros self H. unfold run_optimizer, init in H.
    rewrite construct_default in H.
    destruct (filter_unlocked levels catalogue); [|discriminate].
    injection H as <-. reflexivity.
  - intros negative. reflexivity.
  - intros h self Hh H Hprice. pose proof (Hfinite h self H) as HT.
    pose proof (minutes_nonpos h Hh) as Hle. rewrite <- HT in Hle.
    split; [exact HT|]. split; [exact Hle|].
    apply search_nonpositive_horizon; assumption.
  - exact Hfinite.
  - intros h Hover. unfold run_optimizer, construct.
    unfold times_60, float_of in *.
    destruct (Qle_bool _ _); [reflexivity | congruence].
Qed.

(** ** C6, C7, C10: the purchase plan *)

(** C7. For every allocation (dishes with their counts), the purchase plan
    maps each shop-purchasable ingredient listed by a dish of the
    allocation to [max(0, total demand - warehouse quantity)]; no value is
    negative; and an ingredient outside the purchasable set has no entry,
    whatever its shortfall. *)
Theorem purchase_plan_spec (self : RestaurantOptimizer) (best : Solution) :
  length (dishes best) = length (counts best) →
  ∀ sols plan, realize self best = (sols, plan) →
    map dish sols = dishes best ∧ map count sols = counts best ∧
    ∀ k,
      (is_Some (purchasable_ingredients self !! k) → demanded sols k →
       plan !! k =
       Some (Z.max 0 (total_demand sols k - get (warehouse_storage self) k))) ∧
      (∀ q, plan !! k = Some q → 0 <= q) ∧
      (purchasable_ingredients self !! k = None → plan !! k = None) ∧
      (¬ demanded sols k → plan !! k = None).
Proof.
  intros Hlen sols plan Hrun.
  destruct (realize_spec self best) as (sols' & E & Hd & Hc & _).
  rewrite E in Hrun. injection Hrun as <- <-.
  rewrite <- Hlen in Hd. rewrite Hlen in Hc. rewrite firstn_all in Hd, Hc.
  split; [exact Hd|]. split; [exact Hc|]. intros k.
  repeat split.
  - intros Hp Hdem. apply purchase_plan_lookup. auto.
  - intros q Hq. apply purchase_plan_lookup in Hq as (_ & _ & ->). lia.
  - intros Hp. destruct (rectify _ _ !! k) as [q|] eqn:Eq; [|reflexivity].
    apply purchase_plan_lookup in Eq as ([x Hx] & _). congruence.
  - intros Hno. destruct (rectify _ _ !! k) as [q|] eqn:Eq; [|reflexivity].
    apply purchase_plan_lookup in Eq as (_ & Hdem & _). contradiction.
Qed.

(** C6 (amended). Every key of the purchase plan returned by
    [find_best_solution] is a purchasable ingredient listed by a dish of
    the plan, and its value is [max(0, demand - warehouse quantity)], hence
    never negative; an ingredient without shortfall is not dropped: it is
    kept with the value 0. *)
Theorem purchase_plan_values (self : RestaurantOptimizer) (k : string) :
  (∀ q, (find_best_solution self).2 !! k = Some q →
        0 <= q ∧
        is_Some (purchasable_ingredients self !! k) ∧
        demanded (find_best_solution self).1 k ∧
        q = Z.max 0 (total_demand (find_best_solution self).1 k
                     - get (warehouse_storage self) k)) ∧
  (is_Some (purchasable_ingredients self !! k) →
   demanded (find_best_solution self).1 k →
   total_demand (find_best_solution self).1 k <= get (warehouse_storage self) k →
   (find_best_solution self).2 !! k = Some 0).
Proof.
  destruct (find_best_solution_spec self) as (sols & -> & _ & _). simpl.
  split.
  - intros q Hq. apply purchase_plan_lookup in Hq as (Hp & Hd & ->).
    split; [lia | auto].
  - intros Hp Hd Hle. apply purchase_plan_lookup.
    split; [exact Hp|]. split; [exact Hd | lia].
Qed.

Lemma sum_storages_loop_lookup (warehouse shop : gmap string Z) names :
  ∀ (acc : gmap string Z) k,
  foldl (fun acc n => <[n := get warehouse n + get shop n]> acc) acc names !! k =
  if decide (k ∈ names) then Some (get warehouse k + get shop k) else acc !! k.
Proof.
  induction names as [|n names IH]; intros acc k; simpl.
  - destruct (decide (k ∈ [])) as [H | _]; [inversion H | reflexivity].
  - rewrite IH. destruct (decide (k ∈ names)) as [Hin | Hout].
    + rewrite decide_True by (right; exact Hin). reflexivity.
    + destruct (decide (k = n)) as [-> | Hne].
      * rewrite decide_True by left. apply lookup_insert_eq.
      * rewrite decide_False.
        -- apply lookup_insert_ne. congruence.
        -- intros H. apply elem_of_cons in H as [? | ?]; contradiction.
Qed.

Lemma sum_storages_lookup warehouse shop names k :
  sum_storages warehouse shop names !! k =
  if decide (k ∈ names) then Some (get warehouse k + get shop k) else None.
Proof.
  unfold sum_storages. rewrite sum_storages_loop_lookup.
  destruct (decide (k ∈ names)); [reflexivity | apply lookup_empty].
Qed.

Lemma sum_storages_nonneg warehouse shop names :
  pools_nonneg warehouse → pools_nonneg shop →
  pools_nonneg (sum_storages warehouse shop names).
Proof.
  intros Hw Hs k v Hk. rewrite sum_storages_lookup in Hk.
  destruct (decide (k ∈ names)); [|discriminate]. injection Hk as <-.
  pose proof (get_nonneg _ Hw k). pose proof (get_nonneg _ Hs k). simpl. lia.
Qed.

Lemma sum_storages_get_le warehouse shop names k :
  pools_nonneg warehouse → pools_nonneg shop →
  get (sum_storages warehouse shop names) k <= get warehouse k + get shop k.
Proof.
  intros Hw Hs. unfold get at 1. rewrite sum_storages_lookup.
  pose proof (get_nonneg _ Hw k). pose proof (get_nonneg _ Hs k).
  destruct (decide (k ∈ names)); simpl; lia.
Qed.

(** The demand of a returned plan never exceeds the pool. *)
Lemma shape_demand_bounded self sols k :
  pools_nonneg (total_ingredients self) →
  0 <= time_limit self ∨ Forall requirements_nonneg (unlocked_dishes self) →
  plan_shape self sols →
  total_demand sols k <= get (total_ingredients self) k.
Proof.
  intros Hpool Hsign Hshape.
  assert (Hsign' : ∀ d, d ∈ unlocked_dishes self →
                        0 <= time_limit self ∨ requirements_nonneg d).
  { intros d Hd. destruct Hsign as [HT | Hr]; [left; exact HT | right].
    rewrite Forall_forall in Hr. apply Hr. exact Hd. }
  destruct Hshape as [| d ratio Hin Hpos | d1 d2 c1 c2 r1 r2 Hin Ha Hlt].
  - simpl. apply get_nonneg. exact Hpool.
  - rewrite total_demand_cons. cbn [count dish total_demand foldr].
    rewrite Z.add_0_r. apply single_count_uses; [exact Hpool|].
    destruct (Hsign' d Hin) as [HT | Hr]; [left | right; exact Hr].
    apply single_count_nonneg; assumption.
  - destruct (combinations2_elem _ _ _ Hin) as [Hd1 Hd2].
    rewrite !total_demand_cons. cbn [count dish total_demand foldr].
    rewrite Z.add_0_r. apply pair_alloc_joint; [exact Hpool | exact Ha |].
    destruct (Hsign' d1 Hd1), (Hsign' d2 Hd2); auto.
Qed.

(** C10. With non-negative warehouse and shop quantities and non-negative
    requirements, no value of the returned purchase plan exceeds the shop
    quantity recorded for its ingredient. *)
Theorem purchase_within_shop (catalogue : list Dish) (levels : gmap string Z)
    (ingredient_names : list string) (warehouse shop : gmap string Z)
    (hours : pyfloat) (slots : Z) (self : RestaurantOptimizer) :
  init catalogue levels ingredient_names warehouse shop hours slots = Some self →
  pools_nonneg warehouse → pools_nonneg shop →
  Forall requirements_nonneg (unlocked_dishes self) →
  ∀ k q, (find_best_solution self).2 !! k = Some q → q <= get shop k.
Proof.
  intros Hinit Hw Hs Hreq k q Hq.
  apply init_Some in Hinit as (_ & _ & _ & _ & Hwh & _ & _ & Htot).
  destruct (find_best_solution_spec self) as (sols & E & _ & Hshape).
  rewrite E in Hq. cbn [snd] in Hq.
  apply purchase_plan_lookup in Hq as (_ & _ & ->).
  assert (Hpool : pools_nonneg (total_ingredients self)).
  { rewrite Htot. apply sum_storages_nonneg; assumption. }
  pose proof (shape_demand_bounded self sols k Hpool (or_intror Hreq) Hshape)
    as Hdem.
  pose proof (sum_storages_get_le warehouse shop ingredient_names k Hw Hs) as Hle.
  rewrite Htot in Hdem. rewrite Hwh.
  pose proof (get_nonneg _ Hs k). lia.
Qed.

(** ** C4: the orientation of a pair *)

(** Whatever the pair, the dish enumerated by the outer loop is the one
    whose profit rate is not the lower one. *)
Lemma orient_outer_rate self d1 d2 :
  (profit_rate (orient self d1 d2).1.1.1.2
   <= profit_rate (orient self d1 d2).1.1.1.1)%Q.
Proof.
  destruct (orient_cases self d1 d2) as [[-> H] | [-> H]]; simpl.
  - apply Qlt_le_weak. exact H.
  - exact H.
Qed.

Section Orientation.
Variable self : RestaurantOptimizer.
Hypothesis Hpool : pools_nonneg (total_ingredients self).

Local Abbreviation pool := (total_ingredients self).
Local Abbreviation tl := (_calc_time_limit self).

(** Enumerating [a] finds nothing that enumerating [b] misses. *)
Lemma oriented_le a b sa sb :
  0 <= price a → 0 <= price b →
  requirements_nonneg a → has_requirement a →
  (search_oriented pool a b (tl a) (tl b) sa).2 <=
  (search_oriented pool b a (tl b) (tl a) sb).2.
Proof.
  intros Hpa Hpb Hreq Hhas.
  pose proof (get_nonneg _ Hpool) as Hget.
  destruct (search_oriented_result pool a b (tl b) sa (tl a))
    as [-> | (ca & Hca & Hmk & -> & Hpos)].
  { unfold search_oriented.
    apply (count1_loop_mono pool b a _ sb _ ([0; 0], 0)). }
  cbn [snd]. set (cb := count2_at pool a b (tl b) ca).
  assert (Hcb_tl : cb <= tl b) by apply Z.le_min_l.
  assert (Hcb0 : 0 <= cb).
  { destruct (Z_lt_le_dec (tl b) 0) as [Hneg | Hok].
    - exfalso. unfold profit_at in Hpos. fold cb in Hpos.
      assert (HT : time_limit self < 0).
      { destruct (Z_lt_le_dec (time_limit self) 0) as [H | H]; [exact H|].
        pose proof (calc_time_limit_nonneg self b H). lia. }
      pose proof (calc_time_limit_nonpos self a ltac:(lia)).
      assert (ca = 0) by lia. subst ca. nia.
    - apply count2_at_nonneg; assumption. }
  assert (He : enumerated self a b ca cb).
  { split; [exact Hca|]. split; [exact Hmk | reflexivity]. }
  assert (Hjoint : ∀ k, ca * get (ingredients a) k + cb * get (ingredients b) k
                        <= get pool k).
  { intros k. apply enumerated_joint; [exact Hpool | exact He | left; exact Hcb0]. }
  assert (Hmkb : ∀ c', 0 <= c' <= cb → can_make pool b c').
  { intros c' Hc' k v Hk. specialize (Hjoint k).
    rewrite (get_Some _ _ _ Hk) in Hjoint.
    pose proof (requirements_nonneg_get a k Hreq).
    destruct (Z_lt_le_dec 0 v); [nia|]. specialize (Hget k). nia. }
  etransitivity; [|apply (search_oriented_reaches pool b a _ sb _ cb)];
    [|lia|exact Hmkb].
  unfold profit_at. fold cb.
  assert (Hle : ca <= count2_at pool b a (tl a) cb).
  { unfold count2_at. apply Z.min_glb; [lia|].
    apply calc_ingredient_limit_greatest; [exact Hhas|].
    intros k v Hk Hv. rewrite get_pool_left.
    apply Z.div_le_lower_bound; [exact Hv|].
    specialize (Hjoint k). rewrite (get_Some _ _ _ Hk) in Hjoint.
    unfold left_over. destruct (total_ingredients self !! k) as [t|] eqn:Et.
    - rewrite (get_Some _ _ _ Et) in Hjoint. lia.
    - specialize (Hmk k v Hk). rewrite (get_None _ _ Et) in Hmk. lia. }
  nia.
Qed.
End Orientation.

(** Under the conditions below the orientation does not change the best
    profit of a pair: both enumerations reach the same optimum. *)
Theorem orientation_irrelevant (self : RestaurantOptimizer) (d1 d2 : Dish) :
  pools_nonneg (total_ingredients self) →
  0 <= price d1 → 0 <= price d2 →
  requirements_nonneg d1 → requirements_nonneg d2 →
  has_requirement d1 → has_requirement d2 →
  (search_oriented (total_ingredients self) d1 d2
     (_calc_time_limit self d1) (_calc_time_limit self d2) false).2 =
  (search_oriented (total_ingredients self) d2 d1
     (_calc_time_limit self d2) (_calc_time_limit self d1) true).2.
Proof.
  intros Hpool Hp1 Hp2 Hr1 Hr2 Hh1 Hh2. apply Z.le_antisymm.
  - apply oriented_le; assumption.
  - apply oriented_le; assumption.
Qed.

(** * The claims on the concrete kitchens *)


Open Scope string_scope.

Lemma kitchen_init :
  init [stir_fry; dumpling] {[ "wok" := 1; "steamer" := 1 ]} ["x"; "y"]
       {[ "x" := 1; "y" := 3 ]} {[ "x" := 1 ]} (Finite 2) 2 = Some kitchen.
Proof. vm_compute. reflexivity. Defined.

Example kitchen_plan :
  entries (find_best_solution kitchen) = [("stir_fry", 2); ("dumpling", 2)] ∧
  (find_best_solution kitchen).2 = {[ "x" := 1 ]}.
Proof. split; vm_compute; reflexivity. Qed.

Example scenario_A_plan :
  _optimize_single_dish scenario_A dish_A = (2, 20) ∧
  entries (find_best_solution scenario_A) = [("A", 2)].
Proof. split; vm_compute; reflexivity. Qed.

(** ** C1 *)



(** ** C2 *)

(** The claim as stated fails in three ways.  On a catalogue of one dish
    (Scenario A) there is no pair to search: the two-dish search finds
    profit 0 where the single-dish search finds 20.  On two dishes it
    fails for the pair itself when the pool has a negative entry (the
    enumeration stops at [count1 = 0]) and when a price is negative (the
    inner dish is always produced at its maximum). *)
Lemma two_item_search_below_single :
  (profit (best_single scenario_A) = 20 ∧
   profit (two_best scenario_A) = 0) ∧
  ((_optimize_single_dish overdrawn_kitchen garnished).2 = 10 ∧
   (_optimize_two_dishes overdrawn_kitchen garnished soup).2 = 0 ∧
   profit (best_single overdrawn_kitchen) = 10 ∧
   profit (two_best overdrawn_kitchen) = 0) ∧
  ((_optimize_single_dish giveaway_kitchen stir_fry).2 = 20 ∧
   (_optimize_two_dishes giveaway_kitchen stir_fry giveaway).2 = 18 ∧
   profit (best_single giveaway_kitchen) = 20 ∧
   profit (two_best giveaway_kitchen) = 18).
Proof. repeat split; vm_compute; reflexivity. Qed.

Lemma two_best_dominates_single_witness :
  pools_nonneg (total_ingredients kitchen) ∧
  Forall (fun d => 0 <= price d) (unlocked_dishes kitchen) ∧
  (2 <= length (unlocked_dishes kitchen))%nat ∧
  (_optimize_single_dish kitchen stir_fry).2
    <= (_optimize_two_dishes kitchen stir_fry dumpling).2 ∧
  profit (best_single kitchen) <= profit (two_best kitchen).
Proof.
  assert (Hp : pools_nonneg (total_ingredients kitchen)) by by_decision.
  assert (Hprice : Forall (fun d => 0 <= price d) (unlocked_dishes kitchen))
    by by_decision.
  assert (Hlen : (2 <= length (unlocked_dishes kitchen))%nat) by (simpl; lia).
  destruct (two_best_dominates_single kitchen Hp Hprice) as [Hpair Hall].
  split; [exact Hp|]. split; [exact Hprice|]. split; [exact Hlen|]. split.
  - apply (Hpair stir_fry dumpling); [left | right; left].
  - exact (Hall Hlen).
Defined.

(** ** C3 *)

(** The claim as stated fails when a requirement is negative: reserving
    the outer dish enlarges the pool seen by the search, but the fill ratio
    is computed against the pool as it is. *)
Lemma fill_ratio_above_one :
  pools_nonneg (total_ingredients surplus_kitchen) ∧
  0 < time_limit surplus_kitchen ∧
  entries (find_best_solution surplus_kitchen) = [("surplus", 2); ("plain", 2)] ∧
  ∃ s, s ∈ (find_best_solution surplus_kitchen).1 ∧
       ¬ (bar_ratio s <= 1)%Q.
Proof.
  split; [by_decision|]. split; [simpl; lia|].
  split; [vm_compute; reflexivity|].
  exists (mkMenuSolution plain 2 2%Q). split.
  - vm_compute. right. left.
  - vm_compute. intros H. apply H. reflexivity.
Qed.

(** On two dishes that share an ingredient the second ratio is taken
    against what the first entry leaves: 1 of the 3 units of [x]. *)
Lemma fill_ratio_unit_witness :
  pools_nonneg (total_ingredients shared_kitchen) ∧
  0 <= time_limit shared_kitchen ∧
  Forall requirements_nonneg (unlocked_dishes shared_kitchen) ∧
  (find_best_solution shared_kitchen).1
    = ([] ++ mkMenuSolution noodle 2 (2 # 3)
          :: [mkMenuSolution congee 1 (1 # 1)])%list ∧
  pool_after (total_ingredients shared_kitchen)
    [mkMenuSolution noodle 2 (2 # 3)] "x" = 1 ∧
  (spec_fill_ratio
     (pool_after (total_ingredients shared_kitchen) [])
     noodle 2 (2 # 3) ∧
   (0 <= 2 # 3 <= 1)%Q) ∧
  (spec_fill_ratio
     (pool_after (total_ingredients shared_kitchen)
        [mkMenuSolution noodle 2 (2 # 3)])
     congee 1 (1 # 1) ∧
   (0 <= 1 # 1 <= 1)%Q).
Proof.
  assert (Hp : pools_nonneg (total_ingredients shared_kitchen)) by by_decision.
  assert (HT : 0 <= time_limit shared_kitchen) by (simpl; lia).
  assert (Hr : Forall requirements_nonneg (unlocked_dishes shared_kitchen))
    by by_decision.
  assert (Hplan : (find_best_solution shared_kitchen).1
                  = ([] ++ mkMenuSolution noodle 2 (2 # 3)
                        :: [mkMenuSolution congee 1 (1 # 1)])%list)
    by (vm_compute; reflexivity).
  split; [exact Hp|]. split; [exact HT|]. split; [exact Hr|].
  split; [exact Hplan|]. split; [vm_compute; reflexivity|].
  split.
  - exact (fill_ratio_unit shared_kitchen Hp HT Hr _ _ (surjective_pairing _)
             [] (mkMenuSolution noodle 2 (2 # 3))
             [mkMenuSolution congee 1 (1 # 1)] Hplan).
  - exact (fill_ratio_unit shared_kitchen Hp HT Hr _ _ (surjective_pairing _)
             [mkMenuSolution noodle 2 (2 # 3)] (mkMenuSolution congee 1 (1 # 1))
             [] Hplan).
Defined.

(** ** C4 *)

(** C4 (evaluation). On a pair with different profit rates the outer loop
    enumerates the dish with the higher rate, whichever way round the pair
    is given: the orientation is the opposite of the one stated in the
    comment of [_optimize_two_dishes]. *)
Theorem orient_enumerates_higher_rate :
  (profit_rate dumpling < profit_rate stir_fry)%Q ∧
  (orient kitchen stir_fry dumpling).1.1.1.1 = stir_fry ∧
  (orient kitchen stir_fry dumpling).2 = false ∧
  (orient kitchen dumpling stir_fry).1.1.1.1 = stir_fry ∧
  (orient kitchen dumpling stir_fry).2 = true.
Proof. repeat split; vm_compute; reflexivity. Qed.

(** With a dish that requires nothing the orientation does change the
    result: enumerated, the dish is limited by time only (profit 25); as
    the inner dish it gets the ingredient limit 0 (profit 5). *)
Example orientation_matters_for_free_dish :
  (search_oriented (total_ingredients free_kitchen) free_dish soup 2 2 false).2
    = 25 ∧
  (search_oriented (total_ingredients free_kitchen) soup free_dish 2 2 true).2
    = 5.
Proof. split; vm_compute; reflexivity. Qed.

(** ** C5 *)

(** The claim as stated fails for a negative number: with a horizon of
    [-1] hour the optimizer runs on [-60] minutes and returns nothing,
    where the default horizon would have produced a plan. *)
Lemma negative_horizon_is_not_default :
  (time_limit <$> run_optimizer [soup] {[ "pot" := 1 ]} ["x"] {[ "x" := 1 ]} ∅
                    (Numeric (Finite (-1)))) = Some (-60) ∧
  (entries ∘ find_best_solution <$>
     run_optimizer [soup] {[ "pot" := 1 ]} ["x"] {[ "x" := 1 ]} ∅
       (Numeric (Finite (-1)))) = Some [] ∧
  (entries ∘ find_best_solution <$>
     run_optimizer [soup] {[ "pot" := 1 ]} ["x"] {[ "x" := 1 ]} ∅
       NotNumeric) = Some [("soup", 1)] ∧
  (find_best_solution <$>
     run_optimizer [soup] {[ "pot" := 1 ]} ["x"] {[ "x" := 1 ]} ∅
       (Numeric (Finite (-1)))) ≠
  (find_best_solution <$>
     run_optimizer [soup] {[ "pot" := 1 ]} ["x"] {[ "x" := 1 ]} ∅
       NotNumeric).
Proof.
  split; [vm_compute; reflexivity|]. split; [vm_compute; reflexivity|].
  split; [vm_compute; reflexivity|].
  intros H. apply (f_equal (fmap (M := option) entries)) in H.
  vm_compute in H. discriminate H.
Qed.

(** The minute budget on floats: the double nearest to 0.35 gives 21
    minutes (its exact product with 60 is below 21, the float product is
    21), its opposite -21; a NaN gives the default; an infinity, or a
    number whose product with 60 is infinite, raises. *)
Example horizon_of_floats :
  (time_limit <$> run_optimizer [soup] {[ "pot" := 1 ]} ["x"] {[ "x" := 1 ]} ∅
     (Numeric (Finite (3152519739159347 # 9007199254740992)))) = Some 21 ∧
  (time_limit <$> run_optimizer [soup] {[ "pot" := 1 ]} ["x"] {[ "x" := 1 ]} ∅
     (Numeric (Finite (-3152519739159347 # 9007199254740992))))
    = Some (-21) ∧
  (time_limit <$> run_optimizer [soup] {[ "pot" := 1 ]} ["x"] {[ "x" := 1 ]} ∅
     (Numeric NaN)) = Some 1440 ∧
  run_optimizer [soup] {[ "pot" := 1 ]} ["x"] {[ "x" := 1 ]} ∅
    (Numeric (Infinite false)) = None ∧
  run_optimizer [soup] {[ "pot" := 1 ]} ["x"] {[ "x" := 1 ]} ∅
    (Numeric (Finite (inject_Z (10 ^ 308)))) = None.
Proof. repeat split; vm_compute; reflexivity. Qed.

Lemma horizon_handling_witness :
  time_limit default_kitchen = 1440 ∧
  (-1 <= 0)%Q ∧
  Forall (fun d => 0 <= price d) (unlocked_dishes late_kitchen) ∧
  time_limit late_kitchen = int_of_Q (round64 (-1 * 60)) ∧
  time_limit late_kitchen <= 0 ∧
  find_best_solution late_kitchen = ([], ∅).
Proof.
  pose proof (horizon_handling [soup] {[ "pot" := 1 ]} ["x"] {[ "x" := 1 ]} ∅)
    as (_ & _ & Hdefault & _ & Hnumeric & _).
  assert (Hrun1 : run_optimizer [soup] {[ "pot" := 1 ]} ["x"] {[ "x" := 1 ]} ∅
                    NotNumeric = Some default_kitchen)
    by (vm_compute; reflexivity).
  assert (Hrun2 : run_optimizer [soup] {[ "pot" := 1 ]} ["x"] {[ "x" := 1 ]} ∅
                    (Numeric (Finite (-1))) = Some late_kitchen)
    by (vm_compute; reflexivity).
  assert (Hh : (-1 <= 0)%Q) by (vm_compute; discriminate).
  assert (Hprice : Forall (fun d => 0 <= price d) (unlocked_dishes late_kitchen))
    by by_decision.
  split; [exact (Hdefault _ Hrun1)|]. split; [exact Hh|].
  split; [exact Hprice|].
  exact (Hnumeric (-1)%Q late_kitchen Hh Hrun2 Hprice).
Defined.

(** ** C6 *)

(** The claim as stated fails when the warehouse covers the demand: the
    ingredient stays in the purchase plan with the value 0. *)
Lemma zero_shortfall_is_kept :
  (find_best_solution scenario_D).2 !! "x" = Some 0.
Proof. vm_compute. reflexivity. Qed.

Lemma purchase_plan_values_witness :
  is_Some (purchasable_ingredients scenario_D !! "x") ∧
  demanded (find_best_solution scenario_D).1 "x" ∧
  total_demand (find_best_solution scenario_D).1 "x"
    <= get (warehouse_storage scenario_D) "x" ∧
  (find_best_solution scenario_D).2 !! "x" = Some 0.
Proof.
  assert (Hp : is_Some (purchasable_ingredients scenario_D !! "x"))
    by (vm_compute; eauto).
  assert (Hd : demanded (find_best_solution scenario_D).1 "x")
    by (vm_compute; left; eauto).
  assert (Hle : total_demand (find_best_solution scenario_D).1 "x"
                <= get (warehouse_storage scenario_D) "x")
    by (vm_compute; discriminate).
  split; [exact Hp|]. split; [exact Hd|]. split; [exact Hle|].
  exact (proj2 (purchase_plan_values scenario_D "x") Hp Hd Hle).
Defined.

(** ** C7 *)

Lemma purchase_plan_spec_witness :
  length [stir_fry; dumpling] = length [2; 2] ∧
  ∃ sols plan,
    realize kitchen (mkSolution [stir_fry; dumpling] [2; 2] 30 []) = (sols, plan) ∧
    map dish sols = [stir_fry; dumpling] ∧ map count sols = [2; 2] ∧
    plan !! "x" = Some 1 ∧ plan !! "y" = None.
Proof.
  split; [reflexivity|].
  set (best := mkSolution [stir_fry; dumpling] [2; 2] 30 []).
  exists (realize kitchen best).1, (realize kitchen best).2.
  destruct (purchase_plan_spec kitchen best eq_refl _ _ (surjective_pairing _))
    as (Hd & Hc & Hplan).
  split; [apply surjective_pairing|]. split; [exact Hd|]. split; [exact Hc|].
  split.
  - destruct (Hplan "x") as (Hx & _). rewrite Hx.
    + vm_compute. reflexivity.
    + vm_compute. eauto.
    + vm_compute. left. eauto.
  - destruct (Hplan "y") as (_ & _ & Hy & _). apply Hy. vm_compute. reflexivity.
Defined.

(** ** C8 *)

(** C8 (evaluation). The dish [free_dish] has no requirement; its
    ingredient limit and its single-dish count are 0, yet the two-dish
    search, which enumerates it in the outer loop without consulting the
    ingredient limit, allocates 2 units of it. *)
Theorem degenerate_dish_allocated :
  degenerate free_dish ∧
  _calc_ingredient_limit free_dish (total_ingredients free_kitchen) = 0 ∧
  (_optimize_single_dish free_kitchen free_dish).1 = 0 ∧
  _optimize_two_dishes free_kitchen soup free_dish = ([1; 2], 25) ∧
  entries (find_best_solution free_kitchen) = [("soup", 1); ("free", 2)].
Proof.
  split; [by_decision|]. repeat split; vm_compute; reflexivity.
Qed.

(** In the single-dish search a degenerate dish never gets a positive
    count, whatever the pool. *)
Lemma degenerate_single_count self d :
  degenerate d → (_optimize_single_dish self d).1 <= 0.
Proof.
  intros Hd. simpl. rewrite (calc_ingredient_limit_degenerate d _ Hd).
  apply Z.le_min_r.
Qed.

(** ** C9 *)

(** The claim as stated fails under a negative horizon with a negative
    price: the count is negative and its product with the price positive. *)
Lemma negative_count_returned :
  Forall has_requirement (unlocked_dishes backwards_kitchen) ∧
  pools_nonneg (total_ingredients backwards_kitchen) ∧
  entries (find_best_solution backwards_kitchen) = [("loss", -1)] ∧
  ∃ s, s ∈ (find_best_solution backwards_kitchen).1 ∧ ¬ (1 <= count s).
Proof.
  split; [by_decision|]. split; [by_decision|].
  split; [vm_compute; reflexivity|].
  exists (mkMenuSolution loss (-1) 0%Q). split.
  - vm_compute. left.
  - simpl. lia.
Qed.

Lemma plan_counts_positive_witness :
  Forall has_requirement (unlocked_dishes kitchen) ∧
  pools_nonneg (total_ingredients kitchen) ∧
  0 <= time_limit kitchen ∧
  (∀ s, s ∈ (find_best_solution kitchen).1 → 1 <= count s).
Proof.
  assert (Hr : Forall has_requirement (unlocked_dishes kitchen)) by by_decision.
  assert (Hp : pools_nonneg (total_ingredients kitchen)) by by_decision.
  assert (HT : 0 <= time_limit kitchen) by (simpl; lia).
  split; [exact Hr|]. split; [exact Hp|]. split; [exact HT|].
  apply (plan_counts_positive kitchen Hr Hp (or_introl HT)).
Defined.

(** ** C10 *)

Lemma purchase_within_shop_witness :
  pools_nonneg (warehouse_storage kitchen) ∧
  pools_nonneg (purchasable_ingredients kitchen) ∧
  Forall requirements_nonneg (unlocked_dishes kitchen) ∧
  (∀ k q, (find_best_solution kitchen).2 !! k = Some q →
          q <= get (purchasable_ingredients kitchen) k).
Proof.
  assert (Hw : pools_nonneg (warehouse_storage kitchen)) by by_decision.
  assert (Hs : pools_nonneg (purchasable_ingredients kitchen)) by by_decision.
  assert (Hr : Forall requirements_nonneg (unlocked_dishes kitchen))
    by by_decision.
  split; [exact Hw|]. split; [exact Hs|]. split; [exact Hr|].
  apply (purchase_within_shop _ _ _ _ _ _ _ kitchen kitchen_init Hw Hs Hr).
Defined.

(** * Further properties of the optimizer *)

Close Scope string_scope.

(** ** The limits *)

(** X1. [_calc_time_limit] is 0 for a dish without a positive time; for a
    positive time and a non-negative horizon of less than 2^53 minutes it
    is the largest count that fits the horizon: a count is within the
    limit exactly when [count * time <= time_limit].  From 2^53 minutes on
    the float quotient can exceed it ([calc_time_limit_beyond_bound]). *)
Theorem calc_time_limit_largest (self : RestaurantOptimizer) (d : Dish) :
  (time d <= 0 → _calc_time_limit self d = 0) ∧
  (0 < time d → 0 <= time_limit self → time_limit self < 2 ^ 53 →
   ∀ c, c <= _calc_time_limit self d ↔ c * time d <= time_limit self).
Proof.
  split.
  - intros Ht. unfold _calc_time_limit.
    destruct (time d <=? 0) eqn:E; [reflexivity|].
    apply Z.leb_gt in E. lia.
  - intros Ht HT Hbound c.
    rewrite calc_time_limit_exact by (assumption || lia). split.
    + intros Hc. pose proof (Z.mul_div_le (time_limit self) (time d) Ht). nia.
    + intros Hc. apply Z.div_le_lower_bound; [exact Ht | lia].
Qed.

Lemma calc_time_limit_largest_witness :
  0 < time stir_fry ∧ 0 <= time_limit kitchen ∧ time_limit kitchen < 2 ^ 53 ∧
  (2 <= _calc_time_limit kitchen stir_fry ↔ 2 * time stir_fry <= time_limit kitchen).
Proof.
  assert (Ht : 0 < time stir_fry) by (simpl; lia).
  assert (HT : 0 <= time_limit kitchen) by (simpl; lia).
  assert (Hb : time_limit kitchen < 2 ^ 53) by reflexivity.
  split; [exact Ht|]. split; [exact HT|]. split; [exact Hb|].
  exact (proj2 (calc_time_limit_largest kitchen stir_fry) Ht HT Hb 2).
Defined.

Example calc_time_limit_beyond_bound :
  _calc_time_limit long_kitchen snack = 6666666666666667 ∧
  time_limit long_kitchen / time snack = 6666666666666666.
Proof. split; vm_compute; reflexivity. Qed.

(** X2. For a dish with at least one positive requirement,
    [_calc_ingredient_limit] is the largest count the pool allows: a count
    is within the limit exactly when, for every positive requirement, the
    count times the quantity is at most what the pool holds (0 for an
    ingredient the pool does not list). *)
Theorem calc_ingredient_limit_largest (d : Dish) (available : gmap string Z) :
  has_requirement d →
  ∀ c, c <= _calc_ingredient_limit d available ↔
       (∀ k v, ingredients d !! k = Some v → 0 < v → c * v <= get available k).
Proof.
  intros Hreq c. split.
  - intros Hc k v Hk Hv.
    pose proof (calc_ingredient_limit_upper d available k v Hk Hv).
    pose proof (Z.mul_div_le (get available k) v Hv). nia.
  - intros Hc. apply calc_ingredient_limit_greatest; [exact Hreq|].
    intros k v Hk Hv. apply Z.div_le_lower_bound; [exact Hv|].
    specialize (Hc k v Hk Hv). lia.
Qed.

Lemma calc_ingredient_limit_largest_witness :
  has_requirement stir_fry ∧
  (2 <= _calc_ingredient_limit stir_fry (total_ingredients kitchen) ↔
   (∀ k v, ingredients stir_fry !! k = Some v → 0 < v →
           2 * v <= get (total_ingredients kitchen) k)).
Proof.
  assert (Hr : has_requirement stir_fry) by by_decision.
  split; [exact Hr|].
  exact (calc_ingredient_limit_largest stir_fry (total_ingredients kitchen) Hr 2).
Defined.

(** X3. For a dish with a positive time and a positive requirement, on a
    non-negative horizon of less than 2^53 minutes, the count of
    [_optimize_single_dish] is the largest count that fits both the
    horizon and the pool, and its profit is that count times the price. *)
Theorem optimize_single_dish_largest (self : RestaurantOptimizer) (d : Dish) :
  0 < time d → 0 <= time_limit self → time_limit self < 2 ^ 53 →
  has_requirement d →
  (_optimize_single_dish self d).2 = (_optimize_single_dish self d).1 * price d ∧
  ∀ c, c <= (_optimize_single_dish self d).1 ↔
       (c * time d <= time_limit self ∧
        ∀ k v, ingredients d !! k = Some v → 0 < v →
               c * v <= get (total_ingredients self) k).
Proof.
  intros Ht HT Hbound Hreq. split; [reflexivity|]. intros c. simpl.
  rewrite Z.min_glb_iff.
  assert (Htime : c <= _calc_time_limit self d ↔ c * time d <= time_limit self).
  { rewrite calc_time_limit_exact by (assumption || lia). split.
    - intros Hc. pose proof (Z.mul_div_le (time_limit self) (time d) Ht). nia.
    - intros Hc. apply Z.div_le_lower_bound; [exact Ht | lia]. }
  rewrite Htime. split.
  - intros [Hc1 Hc2]. split; [exact Hc1|]. intros k v Hk Hv.
    pose proof (calc_ingredient_limit_upper d (total_ingredients self) k v Hk Hv).
    pose proof (Z.mul_div_le (get (total_ingredients self) k) v Hv). nia.
  - intros [Hc1 Hc2]. split; [exact Hc1|].
    apply calc_ingredient_limit_greatest; [exact Hreq|].
    intros k v Hk Hv. apply Z.div_le_lower_bound; [exact Hv|].
    specialize (Hc2 k v Hk Hv). lia.
Qed.

Lemma optimize_single_dish_largest_witness :
  0 < time stir_fry ∧ 0 <= time_limit kitchen ∧ time_limit kitchen < 2 ^ 53 ∧
  has_requirement stir_fry ∧
  (_optimize_single_dish kitchen stir_fry).2
    = (_optimize_single_dish kitchen stir_fry).1 * price stir_fry ∧
  (3 <= (_optimize_single_dish kitchen stir_fry).1 ↔
   (3 * time stir_fry <= time_limit kitchen ∧
    ∀ k v, ingredients stir_fry !! k = Some v → 0 < v →
           3 * v <= get (total_ingredients kitchen) k)).
Proof.
  assert (Ht : 0 < time stir_fry) by (simpl; lia).
  assert (HT : 0 <= time_limit kitchen) by (simpl; lia).
  assert (Hb : time_limit kitchen < 2 ^ 53) by reflexivity.
  assert (Hr : has_requirement stir_fry) by by_decision.
  split; [exact Ht|]. split; [exact HT|]. split; [exact Hb|].
  split; [exact Hr|].
  destruct (optimize_single_dish_largest kitchen stir_fry Ht HT Hb Hr)
    as [Hp Hc].
  split; [exact Hp | exact (Hc 3)].
Defined.

(** ** Optimality of the two-dish search *)

(** Whichever dish is enumerated, every jointly feasible pair of counts is
    covered: the outer count is reached before the loop can stop, and the
    inner count computed there is at least the given one. *)
Lemma search_oriented_covers self outer inner swapped cO cI :
  0 <= price inner →
  requirements_nonneg outer → requirements_nonneg inner →
  has_requirement inner →
  0 <= cO <= _calc_time_limit self outer →
  0 <= cI <= _calc_time_limit self inner →
  (∀ k, cO * get (ingredients outer) k + cI * get (ingredients inner) k
        <= get (total_ingredients self) k) →
  cO * price outer + cI * price inner <=
  (search_oriented (total_ingredients self) outer inner
     (_calc_time_limit self outer) (_calc_time_limit self inner) swapped).2.
Proof.
  intros HpI HrO HrI Hhas HcO HcI Hjoint.
  assert (Hmk : ∀ c', 0 <= c' <= cO → can_make (total_ingredients self) outer c').
  { intros c' Hc' k v Hk. specialize (Hjoint k).
    rewrite (get_Some _ _ _ Hk) in Hjoint.
    pose proof (requirements_nonneg_get inner k HrI).
    specialize (HrO k v Hk). simpl in HrO. nia. }
  etransitivity;
    [|apply (search_oriented_reaches (total_ingredients self) outer inner
               _ swapped _ cO); [lia | exact Hmk]].
  unfold profit_at.
  assert (Hle : cI <= count2_at (total_ingredients self) outer inner
                        (_calc_time_limit self inner) cO).
  { unfold count2_at. apply Z.min_glb; [lia|].
    apply calc_ingredient_limit_greatest; [exact Hhas|].
    intros k v Hk Hv. rewrite get_pool_left.
    apply Z.div_le_lower_bound; [exact Hv|].
    specialize (Hjoint k). rewrite (get_Some _ _ _ Hk) in Hjoint.
    pose proof (requirements_nonneg_get outer k HrO).
    unfold left_over. destruct (total_ingredients self !! k) as [t|] eqn:Et.
    - rewrite (get_Some _ _ _ Et) in Hjoint. lia.
    - rewrite (get_None _ _ Et) in Hjoint. nia. }
  nia.
Qed.

(** Every jointly feasible pair of counts earns at most what
    [_optimize_two_dishes] returns. *)
Lemma two_dishes_covers self d1 d2 c1 c2 :
  0 <= price d1 → 0 <= price d2 →
  requirements_nonneg d1 → requirements_nonneg d2 →
  has_requirement d1 → has_requirement d2 →
  jointly_feasible self d1 d2 c1 c2 →
  c1 * price d1 + c2 * price d2 <= (_optimize_two_dishes self d1 d2).2.
Proof.
  intros Hp1 Hp2 Hr1 Hr2 Hh1 Hh2 (Hc1 & Hc2 & Hjoint).
  unfold _optimize_two_dishes.
  destruct (orient_cases self d1 d2) as [[-> _] | [-> _]].
  - rewrite Z.add_comm. apply search_oriented_covers; try assumption.
    intros k. rewrite Z.add_comm. apply Hjoint.
  - apply search_oriented_covers; assumption.
Qed.

(** X4. On a non-negative pool and horizon, for two dishes with
    non-negative prices and requirements that each have a positive
    requirement, [_optimize_two_dishes] returns a pair of counts that
    respects both time limits and fits the pool jointly, with its profit,
    and no jointly feasible pair of counts earns more. *)
Theorem optimize_two_dishes_optimal (self : RestaurantOptimizer) (d1 d2 : Dish) :
  pools_nonneg (total_ingredients self) → 0 <= time_limit self →
  0 <= price d1 → 0 <= price d2 →
  requirements_nonneg d1 → requirements_nonneg d2 →
  has_requirement d1 → has_requirement d2 →
  ∃ c1 c2,
    _optimize_two_dishes self d1 d2 = ([c1; c2], c1 * price d1 + c2 * price d2) ∧
    jointly_feasible self d1 d2 c1 c2 ∧
    ∀ c1' c2', jointly_feasible self d1 d2 c1' c2' →
               c1' * price d1 + c2' * price d2 <= c1 * price d1 + c2 * price d2.
Proof.
  intros Hpool HT Hp1 Hp2 Hr1 Hr2 Hh1 Hh2.
  assert (Hbound : ∀ c1' c2', jointly_feasible self d1 d2 c1' c2' →
            c1' * price d1 + c2' * price d2 <= (_optimize_two_dishes self d1 d2).2).
  { intros c1' c2' Hf. apply two_dishes_covers; assumption. }
  pose proof (get_nonneg _ Hpool) as Hget.
  destruct (optimize_two_dishes_result self d1 d2)
    as [E | (c1 & c2 & E & Hpos & Ha)].
  - exists 0, 0. rewrite E in *. split; [f_equal; lia|]. split.
    + pose proof (calc_time_limit_nonneg self d1 HT).
      pose proof (calc_time_limit_nonneg self d2 HT).
      repeat split; try lia. intros k. specialize (Hget k). lia.
    + intros c1' c2' Hf. specialize (Hbound c1' c2' Hf). simpl in Hbound. lia.
  - exists c1, c2. rewrite E in *. split; [reflexivity|]. split.
    + destruct (pair_alloc_counts _ _ _ _ _ Hpool HT Ha) as [H1 H2].
      split; [exact H1|]. split; [exact H2|]. intros k.
      apply pair_alloc_joint; [exact Hpool | exact Ha | left; exact HT].
    + intros c1' c2' Hf. exact (Hbound c1' c2' Hf).
Qed.

Lemma optimize_two_dishes_optimal_witness :
  pools_nonneg (total_ingredients kitchen) ∧ 0 <= time_limit kitchen ∧
  0 <= price stir_fry ∧ 0 <= price dumpling ∧
  requirements_nonneg stir_fry ∧ requirements_nonneg dumpling ∧
  has_requirement stir_fry ∧ has_requirement dumpling ∧
  ∃ c1 c2,
    _optimize_two_dishes kitchen stir_fry dumpling
      = ([c1; c2], c1 * price stir_fry + c2 * price dumpling) ∧
    jointly_feasible kitchen stir_fry dumpling c1 c2 ∧
    ∀ c1' c2', jointly_feasible kitchen stir_fry dumpling c1' c2' →
               c1' * price stir_fry + c2' * price dumpling
               <= c1 * price stir_fry + c2 * price dumpling.
Proof.
  assert (Hp : pools_nonneg (total_ingredients kitchen)) by by_decision.
  assert (HT : 0 <= time_limit kitchen) by (simpl; lia).
  assert (Hp1 : 0 <= price stir_fry) by (simpl; lia).
  assert (Hp2 : 0 <= price dumpling) by (simpl; lia).
  assert (Hr1 : requirements_nonneg stir_fry) by by_decision.
  assert (Hr2 : requirements_nonneg dumpling) by by_decision.
  assert (Hh1 : has_requirement stir_fry) by by_decision.
  assert (Hh2 : has_requirement dumpling) by by_decision.
  repeat (split; [assumption|]).
  exact (optimize_two_dishes_optimal kitchen stir_fry dumpling
           Hp HT Hp1 Hp2 Hr1 Hr2 Hh1 Hh2).
Defined.

(** ** The plan as a whole *)

Lemma search_dominates_single self d :
  d ∈ unlocked_dishes self →
  (_optimize_single_dish self d).2 <= profit (search self).
Proof.
  intros Hin. etransitivity; [apply best_single_dominates; exact Hin|].
  unfold search. destruct (2 <=? max_slots self); [|lia].
  apply (foldl_mono profit (try_pair self)). apply try_pair_mono.
Qed.

Lemma search_dominates_pair self d1 d2 :
  2 <= max_slots self →
  (d1, d2) ∈ combinations2 (unlocked_dishes self) →
  (_optimize_two_dishes self d1 d2).2 <= profit (search self).
Proof.
  intros Hslots Hin. unfold search.
  assert (E : (2 <=? max_slots self) = true) by (apply Z.leb_le; exact Hslots).
  rewrite E.
  apply (foldl_dominates profit
           (fun p : Dish * Dish => (_optimize_two_dishes self p.1 p.2).2)
           (try_pair self) _ (best_single self) (d1, d2)).
  - apply try_pair_mono.
  - apply try_pair_dominates.
  - exact Hin.
Qed.

(** Where the kept solution comes from. *)
Lemma search_cases self :
  search self = empty_solution ∨
  (∃ d, d ∈ unlocked_dishes self ∧
        dishes (search self) = [d] ∧
        counts (search self) = [(_optimize_single_dish self d).1] ∧
        profit (search self) = (_optimize_single_dish self d).2 ∧
        0 < profit (search self)) ∨
  (2 <= max_slots self ∧
   ∃ d1 d2 c1 c2,
     (d1, d2) ∈ combinations2 (unlocked_dishes self) ∧
     dishes (search self) = [d1; d2] ∧ counts (search self) = [c1; c2] ∧
     _optimize_two_dishes self d1 d2 = ([c1; c2], profit (search self)) ∧
     profit (search self) = c1 * price d1 + c2 * price d2 ∧
     0 < profit (search self)).
Proof.
  assert (Hsingle : best_single self = empty_solution ∨
            ∃ d, d ∈ unlocked_dishes self ∧
                 dishes (best_single self) = [d] ∧
                 counts (best_single self) = [(_optimize_single_dish self d).1] ∧
                 profit (best_single self) = (_optimize_single_dish self d).2 ∧
                 0 < profit (best_single self)).
  { destruct (best_single_chosen self) as [E | (d & Hin & Hd & Hc & Hp & Hpos)];
      [left; exact E | right]. exists d. auto. }
  unfold search. destruct (2 <=? max_slots self) eqn:Eslots.
  2:{ destruct Hsingle as [E | H]; [left; exact E | right; left; exact H]. }
  apply Z.leb_le in Eslots.
  apply (foldl_invariant
           (fun sol =>
              (sol = empty_solution ∨
               (∃ d, d ∈ unlocked_dishes self ∧ dishes sol = [d] ∧
                     counts sol = [(_optimize_single_dish self d).1] ∧
                     profit sol = (_optimize_single_dish self d).2 ∧
                     0 < profit sol) ∨
               (2 <= max_slots self ∧
                ∃ d1 d2 c1 c2,
                  (d1, d2) ∈ combinations2 (unlocked_dishes self) ∧
                  dishes sol = [d1; d2] ∧ counts sol = [c1; c2] ∧
                  _optimize_two_dishes self d1 d2 = ([c1; c2], profit sol) ∧
                  profit sol = c1 * price d1 + c2 * price d2 ∧
                  0 < profit sol)) ∧
              0 <= profit sol)).
  - split; [|apply best_single_nonneg].
    destruct Hsingle as [E | H]; [left; exact E | right; left; exact H].
  - intros acc [d1 d2] Hin [Hacc Hnn].
    destruct (try_pair_cases self acc d1 d2) as [[-> _] | (Hlt & Hd & Hc & Hp)].
    + split; assumption.
    + split; [|lia]. right; right. split; [exact Eslots|].
      destruct (optimize_two_dishes_result self d1 d2)
        as [E | (c1 & c2 & E & Hpos & _)].
      * rewrite E in Hlt. simpl in Hlt. lia.
      * exists d1, d2, c1, c2. rewrite E in Hc, Hp. cbn [fst snd] in Hc, Hp.
        rewrite Hp. repeat split; try assumption; reflexivity.
Qed.

Lemma find_best_solution_entries self :
  map dish (find_best_solution self).1 = dishes (search self) ∧
  map count (find_best_solution self).1 = counts (search self) ∧
  (find_best_solution self).2 =
    rectify (warehouse_storage self)
      (plan_of (purchasable_ingredients self) (find_best_solution self).1 ∅).
Proof.
  unfold find_best_solution.
  destruct (realize_spec self (search self)) as (sols & -> & Hd & Hc & _).
  cbn [fst snd].
  assert (Hlen : length (dishes (search self)) = length (counts (search self))).
  { destruct (search_cases self)
      as [-> | [(d & _ & -> & -> & _) | (_ & d1 & d2 & c1 & c2 & _ & -> & -> & _)]];
      reflexivity. }
  rewrite <- Hlen in Hd. rewrite Hlen in Hc. rewrite firstn_all in Hd, Hc.
  auto.
Qed.

Lemma plan_profit_of_search self :
  plan_profit (find_best_solution self).1 = profit (search self).
Proof.
  destruct (find_best_solution_entries self) as (Hd & Hc & _).
  destruct (search_cases self)
    as [E | [(d & _ & Ed & Ec & Ep & _)
            | (_ & d1 & d2 & c1 & c2 & _ & Ed & Ec & _ & Ep & _)]].
  - rewrite E in *. simpl in Hd.
    destruct (find_best_solution self).1; [reflexivity | discriminate].
  - rewrite Ed in Hd. rewrite Ec in Hc. rewrite Ep.
    destruct (find_best_solution self).1 as [|[d' c' r'] [|? ?]];
      try discriminate.
    cbn [map dish count] in Hd, Hc. injection Hd as ->. injection Hc as ->.
    simpl. lia.
  - rewrite Ed in Hd. rewrite Ec in Hc. rewrite Ep.
    destruct (find_best_solution self).1 as [|[d1' c1' r1] [|[d2' c2' r2] [|? ?]]];
      try discriminate.
    cbn [map dish count] in Hd, Hc.
    injection Hd as -> ->. injection Hc as -> ->. simpl. lia.
Qed.

(** X5. The profit of the plan returned by [find_best_solution] is never
    negative, is at least the profit [_optimize_single_dish] computes for
    any unlocked dish, and, when two slots are allowed, at least the profit
    [_optimize_two_dishes] computes for any pair of unlocked dishes. *)
Theorem plan_profit_maximal (self : RestaurantOptimizer) :
  0 <= plan_profit (find_best_solution self).1 ∧
  (∀ d, d ∈ unlocked_dishes self →
        (_optimize_single_dish self d).2
        <= plan_profit (find_best_solution self).1) ∧
  (2 <= max_slots self →
   ∀ d1 d2, (d1, d2) ∈ combinations2 (unlocked_dishes self) →
            (_optimize_two_dishes self d1 d2).2
            <= plan_profit (find_best_solution self).1).
Proof.
  rewrite plan_profit_of_search. split; [|split].
  - destruct (search_cases self)
      as [-> | [(d & _ & _ & _ & _ & H) | (_ & d1 & d2 & c1 & c2 & H)]];
      [simpl; lia | lia |].
    destruct H as (_ & _ & _ & _ & _ & H). lia.
  - intros d Hd. apply search_dominates_single. exact Hd.
  - intros Hslots d1 d2 Hin. apply search_dominates_pair; assumption.
Qed.

Lemma plan_profit_maximal_witness :
  2 <= max_slots kitchen ∧
  (_optimize_two_dishes kitchen stir_fry dumpling).2
  <= plan_profit (find_best_solution kitchen).1.
Proof.
  assert (Hs : 2 <= max_slots kitchen) by (simpl; lia).
  split; [exact Hs|].
  apply (proj2 (proj2 (plan_profit_maximal kitchen)) Hs stir_fry dumpling).
  vm_compute. left.
Defined.

(** X6. On a non-negative pool and horizon, when no price and no
    requirement is negative and every unlocked dish has a positive
    requirement, no allocation of one unlocked dish that fits its time
    limit and the pool earns more than the returned plan, and, with two
    slots, neither does any jointly feasible allocation of two unlocked
    dishes. *)
Theorem plan_optimal (self : RestaurantOptimizer) :
  pools_nonneg (total_ingredients self) → 0 <= time_limit self →
  Forall (fun d => 0 <= price d) (unlocked_dishes self) →
  Forall requirements_nonneg (unlocked_dishes self) →
  Forall has_requirement (unlocked_dishes self) →
  (∀ d c, d ∈ unlocked_dishes self →
     0 <= c <= _calc_time_limit self d →
     (∀ k, c * get (ingredients d) k <= get (total_ingredients self) k) →
     c * price d <= plan_profit (find_best_solution self).1) ∧
  (2 <= max_slots self →
   ∀ d1 d2 c1 c2, (d1, d2) ∈ combinations2 (unlocked_dishes self) →
     jointly_feasible self d1 d2 c1 c2 →
     c1 * price d1 + c2 * price d2 <= plan_profit (find_best_solution self).1).
Proof.
  intros Hpool HT Hprice Hreq Hhas.
  rewrite Forall_forall in Hprice, Hreq, Hhas.
  rewrite plan_profit_of_search. split.
  - intros d c Hd Hc Hfit.
    etransitivity; [|apply (search_dominates_single self d Hd)].
    assert (Hle : c <= (_optimize_single_dish self d).1).
    { simpl. apply Z.min_glb; [lia|].
      apply calc_ingredient_limit_greatest; [apply Hhas; exact Hd|].
      intros k v Hk Hv. apply Z.div_le_lower_bound; [exact Hv|].
      specialize (Hfit k). rewrite (get_Some _ _ _ Hk) in Hfit. lia. }
    pose proof (Hprice d Hd). simpl in *. nia.
  - intros Hslots d1 d2 c1 c2 Hin Hf.
    destruct (combinations2_elem _ _ _ Hin) as [Hd1 Hd2].
    etransitivity; [|apply (search_dominates_pair self d1 d2 Hslots Hin)].
    apply two_dishes_covers; auto.
Qed.

Lemma plan_optimal_witness :
  pools_nonneg (total_ingredients kitchen) ∧ 0 <= time_limit kitchen ∧
  Forall (fun d => 0 <= price d) (unlocked_dishes kitchen) ∧
  Forall requirements_nonneg (unlocked_dishes kitchen) ∧
  Forall has_requirement (unlocked_dishes kitchen) ∧
  2 <= max_slots kitchen ∧
  jointly_feasible kitchen stir_fry dumpling 1 2 ∧
  1 * price stir_fry + 2 * price dumpling
  <= plan_profit (find_best_solution kitchen).1.
Proof.
  assert (Hp : pools_nonneg (total_ingredients kitchen)) by by_decision.
  assert (HT : 0 <= time_limit kitchen) by (simpl; lia).
  assert (Hpr : Forall (fun d => 0 <= price d) (unlocked_dishes kitchen))
    by by_decision.
  assert (Hr : Forall requirements_nonneg (unlocked_dishes kitchen))
    by by_decision.
  assert (Hh : Forall has_requirement (unlocked_dishes kitchen)) by by_decision.
  assert (Hs : 2 <= max_slots kitchen) by (simpl; lia).
  assert (Hf : jointly_feasible kitchen stir_fry dumpling 1 2).
  { split; [vm_compute; split; discriminate|].
    split; [vm_compute; split; discriminate|].
    intros k. unfold get. simpl.
    destruct (decide (k = "x"%string)) as [-> | Hx];
      [vm_compute; discriminate|].
    destruct (decide (k = "y"%string)) as [-> | Hy];
      [vm_compute; discriminate|].
    rewrite !lookup_insert_ne by congruence.
    rewrite !lookup_singleton_ne by congruence. simpl. lia. }
  repeat (split; [assumption|]).
  apply (proj2 (plan_optimal kitchen Hp HT Hpr Hr Hh) Hs stir_fry dumpling 1 2);
    [vm_compute; left | exact Hf].
Defined.

(** X7. The plan has at most two entries, and at most one when fewer than
    two slots are allowed; its dishes are unlocked dishes, and two
    entries are always a pair of [combinations(unlocked_dishes, 2)], in
    that order. *)
Theorem plan_size (self : RestaurantOptimizer) :
  (length (find_best_solution self).1 <= 2)%nat ∧
  (max_slots self < 2 → (length (find_best_solution self).1 <= 1)%nat) ∧
  (∀ s, s ∈ (find_best_solution self).1 → dish s ∈ unlocked_dishes self) ∧
  (∀ s1 s2, (find_best_solution self).1 = [s1; s2] →
            (dish s1, dish s2) ∈ combinations2 (unlocked_dishes self)).
Proof.
  destruct (find_best_solution_entries self) as (Hd & Hc & _).
  assert (Hlen : length (find_best_solution self).1 = length (dishes (search self))).
  { rewrite <- Hd. rewrite length_map. reflexivity. }
  assert (Hmem : ∀ s, s ∈ (find_best_solution self).1 →
                      dish s ∈ dishes (search self)).
  { intros s Hs. rewrite <- Hd. apply list_elem_of_fmap_2. exact Hs. }
  destruct (search_cases self)
    as [E | [(d & Hin & Ed & _) | (Hslots & d1 & d2 & c1 & c2 & Hin & Ed & _)]].
  - rewrite E in *. simpl in *. repeat split; try lia.
    + intros s Hs. specialize (Hmem s Hs). inversion Hmem.
    + intros s1 s2 Hs. rewrite Hs in Hlen. discriminate.
  - rewrite Ed in *. simpl in *. repeat split; try lia.
    + intros s Hs. specialize (Hmem s Hs).
      apply list_elem_of_singleton in Hmem as ->. exact Hin.
    + intros s1 s2 Hs. rewrite Hs in Hlen. discriminate.
  - destruct (combinations2_elem _ _ _ Hin) as [Hd1 Hd2].
    rewrite Ed in *. simpl in *. repeat split; try lia.
    + intros s Hs. specialize (Hmem s Hs).
      apply elem_of_cons in Hmem as [-> | Hmem]; [exact Hd1|].
      apply list_elem_of_singleton in Hmem as ->. exact Hd2.
    + intros s1 s2 Hs. rewrite Hs in Hd. simpl in Hd.
      injection Hd as -> ->. exact Hin.
Qed.

Lemma plan_size_witness :
  max_slots (mkOptimizer 120 1 (warehouse_storage kitchen)
               (purchasable_ingredients kitchen) (unlocked_dishes kitchen)
               (total_ingredients kitchen)) < 2 ∧
  (length (find_best_solution
             (mkOptimizer 120 1 (warehouse_storage kitchen)
                (purchasable_ingredients kitchen) (unlocked_dishes kitchen)
                (total_ingredients kitchen))).1 <= 1)%nat.
Proof.
  set (one_slot := mkOptimizer 120 1 (warehouse_storage kitchen)
                     (purchasable_ingredients kitchen) (unlocked_dishes kitchen)
                     (total_ingredients kitchen)).
  assert (Hs : max_slots one_slot < 2) by (simpl; lia).
  split; [exact Hs|].
  exact (proj1 (proj2 (plan_size one_slot)) Hs).
Defined.

(** X8. [find_best_solution] returns no entry exactly when no candidate
    has a positive profit: every single-dish profit is at most 0 and, with
    two slots, so is every pair profit.  The purchase plan is then empty
    as well. *)
Theorem no_plan_iff (self : RestaurantOptimizer) :
  ((find_best_solution self).1 = [] ↔
   (∀ d, d ∈ unlocked_dishes self → (_optimize_single_dish self d).2 <= 0) ∧
   (2 <= max_slots self →
    ∀ d1 d2, (d1, d2) ∈ combinations2 (unlocked_dishes self) →
             (_optimize_two_dishes self d1 d2).2 <= 0)) ∧
  ((find_best_solution self).1 = [] → (find_best_solution self).2 = ∅).
Proof.
  destruct (find_best_solution_entries self) as (Hd & Hc & Hplan).
  pose proof (plan_profit_of_search self) as Hprofit.
  split; [split|].
  - intros E. rewrite E in Hprofit. simpl in Hprofit. split.
    + intros d Hin. rewrite Hprofit. apply search_dominates_single. exact Hin.
    + intros Hslots d1 d2 Hin. rewrite Hprofit.
      apply search_dominates_pair; assumption.
  - intros [Hsingle Hpair].
    destruct (search_cases self)
      as [E | [(d & Hin & _ & _ & Ep & Hpos)
              | (Hslots & d1 & d2 & c1 & c2 & Hin & _ & _ & E2 & _ & Hpos)]].
    + rewrite E in Hd. simpl in Hd.
      destruct (find_best_solution self).1; [reflexivity | discriminate].
    + specialize (Hsingle d Hin). lia.
    + specialize (Hpair Hslots d1 d2 Hin). rewrite E2 in Hpair. simpl in Hpair. lia.
  - intros E. rewrite Hplan, E. unfold rectify, plan_of. simpl.
    apply map_imap_empty.
Qed.

Lemma no_plan_iff_witness :
  (find_best_solution late_kitchen).1 = [] ∧
  (∀ d, d ∈ unlocked_dishes late_kitchen →
        (_optimize_single_dish late_kitchen d).2 <= 0) ∧
  (find_best_solution late_kitchen).2 = ∅.
Proof.
  assert (E : (find_best_solution late_kitchen).1 = [])
    by (vm_compute; reflexivity).
  destruct (no_plan_iff late_kitchen) as [Hiff Hplan].
  split; [exact E|]. split.
  - exact (proj1 (proj1 Hiff E)).
  - exact (Hplan E).
Defined.

Lemma plan_dish_unlocked self s :
  s ∈ (find_best_solution self).1 → dish s ∈ unlocked_dishes self.
Proof.
  intros Hs. destruct (find_best_solution_spec self) as (sols & E & _ & Hshape).
  rewrite E in Hs. cbn [fst] in Hs.
  destruct Hshape as [| d ratio Hin Hpos | d1 d2 c1 c2 r1 r2 Hin Ha Hlt].
  - inversion Hs.
  - apply list_elem_of_singleton in Hs as ->. exact Hin.
  - destruct (combinations2_elem _ _ _ Hin) as [Hd1 Hd2].
    apply elem_of_cons in Hs as [-> | Hs];
      [|apply list_elem_of_singleton in Hs as ->]; assumption.
Qed.

Lemma plan_count_le_time_limit self s :
  s ∈ (find_best_solution self).1 → count s <= _calc_time_limit self (dish s).
Proof.
  intros Hs. destruct (find_best_solution_spec self) as (sols & E & _ & Hshape).
  rewrite E in Hs. cbn [fst] in Hs.
  destruct Hshape as [| d ratio Hin Hpos | d1 d2 c1 c2 r1 r2 Hin Ha Hlt].
  - inversion Hs.
  - apply list_elem_of_singleton in Hs as ->. simpl. apply Z.le_min_l.
  - assert (H12 : c1 <= _calc_time_limit self d1 ∧
                  c2 <= _calc_time_limit self d2).
    { destruct Ha as [(Hc & _ & ->) | (Hc & _ & ->)]; split;
        try lia; apply Z.le_min_l. }
    apply elem_of_cons in Hs as [-> | Hs];
      [|apply list_elem_of_singleton in Hs as ->]; simpl; lia.
Qed.

Lemma nonpositive_time_count self s :
  s ∈ (find_best_solution self).1 → time (dish s) <= 0 → count s <= 0.
Proof.
  intros Hs Ht. pose proof (plan_count_le_time_limit self s Hs) as Hle.
  unfold _calc_time_limit in Hle.
  destruct (time (dish s) <=? 0) eqn:E; [exact Hle|].
  apply Z.leb_gt in E. lia.
Qed.

(** X9. No entry of the plan exceeds the time limit of its dish; in
    particular a dish whose time is not positive never gets a positive
    count. *)
Theorem plan_counts_within_time_limit (self : RestaurantOptimizer) :
  ∀ s, s ∈ (find_best_solution self).1 →
       count s <= _calc_time_limit self (dish s) ∧
       (time (dish s) <= 0 → count s <= 0).
Proof.
  intros s Hs. split.
  - apply plan_count_le_time_limit. exact Hs.
  - apply (nonpositive_time_count self s Hs).
Qed.

Lemma plan_counts_within_time_limit_witness :
  (find_best_solution kitchen).1 ≠ [] ∧
  ∀ s, s ∈ (find_best_solution kitchen).1 →
       count s <= _calc_time_limit kitchen (dish s) ∧
       (time (dish s) <= 0 → count s <= 0).
Proof.
  split; [vm_compute; discriminate|].
  intros s Hs. exact (plan_counts_within_time_limit kitchen s Hs).
Defined.

(** ** The fill ratio against the ingredient limit *)

Lemma ratio_tracks_step c max_count ratio mm :
  0 <= c → 0 < mm → ratio_tracks c max_count ratio →
  ratio_tracks c (min_inf max_count mm)
    (Qmax_py (if 0 <? mm then Qmake c (Z.to_pos mm) else 0%Q) ratio).
Proof.
  intros Hc Hmm Hrel.
  assert (E : (0 <? mm) = true) by (apply Z.ltb_lt; exact Hmm). rewrite E.
  unfold Qmax_py. destruct max_count as [m|]; simpl in *.
  - destruct Hrel as [Hm Hr]. split; [lia|].
    destruct (Qlt_le_dec (c # Z.to_pos mm) ratio) as [Hlt | Hle].
    + rewrite Hr in Hlt |- *. unfold Qlt, Qeq in *. simpl in *.
      rewrite !Z2Pos.id in * by lia.
      assert (Z.min m mm = m) by nia. congruence.
    + rewrite Hr in Hle. unfold Qle, Qeq in *. simpl in *.
      rewrite !Z2Pos.id in * by lia.
      destruct (Z.eq_dec c 0) as [-> | Hc0]; [lia|].
      assert (Z.min m mm = mm) by nia. congruence.
  - split; [exact Hmm|].
    destruct (Qlt_le_dec (c # Z.to_pos mm) ratio) as [Hlt | Hle].
    + rewrite Hrel in Hlt. unfold Qlt in Hlt. simpl in Hlt. lia.
    + reflexivity.
Qed.

Lemma loops_agree c pool0 reqs : ∀ max_count ratio pool,
  0 <= c → NoDup reqs.*1 →
  (∀ k v, (k, v) ∈ reqs → get pool k = get pool0 k) →
  (∀ k v, (k, v) ∈ reqs → 0 < v → 0 < get pool0 k / v) →
  ratio_tracks c max_count ratio →
  ratio_tracks c (ingredient_limit_loop pool0 reqs max_count)
    (bar_ratio_loop c reqs (ratio, pool)).1.
Proof.
  induction reqs as [|[k0 v0] reqs IH];
    intros max_count ratio pool Hc Hnd Hsame Hpos Hrel.
  - exact Hrel.
  - simpl in Hnd. apply NoDup_cons in Hnd as [Hk0 Hnd]. simpl.
    destruct (v0 <=? 0) eqn:E.
    + apply Z.leb_le in E.
      assert (E' : (0 <? v0) = false) by (apply Z.ltb_ge; exact E).
      rewrite E'. apply IH; try assumption.
      * intros k v Hin. apply (Hsame k v). right. exact Hin.
      * intros k v Hin. apply (Hpos k v). right. exact Hin.
    + apply Z.leb_gt in E.
      assert (E' : (0 <? v0) = true) by (apply Z.ltb_lt; exact E).
      rewrite E'. rewrite (Hsame k0 v0) by left.
      apply IH; try assumption.
      * intros k v Hin. rewrite get_insert_ne.
        -- apply (Hsame k v). right. exact Hin.
        -- intros ->. apply Hk0. apply list_elem_of_fmap.
           exists (k, v). split; [reflexivity | exact Hin].
      * intros k v Hin. apply (Hpos k v). right. exact Hin.
      * apply ratio_tracks_step; [exact Hc | | exact Hrel].
        apply (Hpos k0 v0); [left | exact E].
Qed.

(** X10. When the count is not negative and the ingredient limit of the
    dish on the given pool is positive, the fill ratio computed by
    [_calc_bar_ratio] is the count divided by that limit; and the pool it
    returns holds, for every ingredient required in positive quantity,
    what was there minus quantity times count, floored at 0, and is
    unchanged elsewhere. *)
Theorem calc_bar_ratio_spec (d : Dish) (c : Z) (pool : gmap string Z) :
  (0 <= c → 0 < _calc_ingredient_limit d pool →
   ((_calc_bar_ratio d c pool).1
    == Qmake c (Z.to_pos (_calc_ingredient_limit d pool)))%Q) ∧
  (∀ k, get (_calc_bar_ratio d c pool).2 k =
        match ingredients d !! k with
        | Some v => if v <=? 0 then get pool k
                    else Z.max 0 (get pool k - v * c)
        | None => get pool k
        end).
Proof.
  split; [|intros k; apply calc_bar_ratio_pool].
  intros Hc Hlim.
  assert (Hrel : ratio_tracks c
            (ingredient_limit_loop pool (items (ingredients d)) None)
            (_calc_bar_ratio d c pool).1).
  { unfold _calc_bar_ratio. apply loops_agree.
    - exact Hc.
    - apply NoDup_keys_items.
    - reflexivity.
    - intros k v Hin Hv. apply elem_of_items in Hin.
      pose proof (calc_ingredient_limit_upper d pool k v Hin Hv). lia.
    - simpl. reflexivity. }
  unfold _calc_ingredient_limit in *.
  destruct (ingredient_limit_loop pool (items (ingredients d)) None) as [m|];
    [|lia].
  exact (proj2 Hrel).
Qed.

Lemma calc_bar_ratio_spec_witness :
  0 <= 2 ∧ 0 < _calc_ingredient_limit dumpling (total_ingredients kitchen) ∧
  ((_calc_bar_ratio dumpling 2 (total_ingredients kitchen)).1
   == Qmake 2 (Z.to_pos (_calc_ingredient_limit dumpling (total_ingredients kitchen))))%Q.
Proof.
  assert (Hc : 0 <= 2) by lia.
  assert (Hl : 0 < _calc_ingredient_limit dumpling (total_ingredients kitchen))
    by (vm_compute; reflexivity).
  split; [exact Hc|]. split; [exact Hl|].
  exact (proj1 (calc_bar_ratio_spec dumpling 2 (total_ingredients kitchen)) Hc Hl).
Defined.

(** ** Construction of the optimizer *)


Lemma filter_unlocked_Some levels dishes : ∀ unlocked,
  filter_unlocked levels dishes = Some unlocked →
  sublist unlocked dishes ∧
  ∀ d, d ∈ unlocked ↔
       d ∈ dishes ∧ ∃ lv, levels !! cookware d = Some lv ∧ unlock_level d <= lv.
Proof.
  induction dishes as [|d dishes IH]; simpl; intros unlocked H.
  - injection H as <-. split; [constructor|].
    intros d. split; [intros Hd; inversion Hd | intros [Hd _]; inversion Hd].
  - destruct (levels !! cookware d) as [lv|] eqn:E; [|discriminate].
    destruct (filter_unlocked levels dishes) as [keep|]; [|discriminate].
    destruct (IH keep eq_refl) as [Hsub Hmem]. injection H as <-.
    destruct (unlock_level d <=? lv) eqn:El;
      [apply Z.leb_le in El | apply Z.leb_gt in El].
    + split; [constructor; exact Hsub|]. intros d'. rewrite elem_of_cons, Hmem.
      split.
      * intros [-> | [Hd' H']]; [|split; [right; exact Hd' | exact H']].
        split; [left | eauto].
      * intros [Hd' H']. apply elem_of_cons in Hd' as [-> | Hd']; [left | right];
          auto.
    + split; [constructor; exact Hsub|]. intros d'. rewrite Hmem. split.
      * intros [Hd' H']. split; [right; exact Hd' | exact H'].
      * intros [Hd' (lv' & Hlv & Hle)].
        apply elem_of_cons in Hd' as [-> | Hd']; [|eauto].
        rewrite E in Hlv. injection Hlv as <-. lia.
Qed.




(** X12. An ingredient that the player status does not name is treated as
    absent, whatever the scans hold: a dish that requires it in positive
    quantity never gets a positive count. *)
Theorem unlisted_ingredient_blocks_dish (catalogue : list Dish)
    (levels : gmap string Z) (ingredient_names : list string)
    (warehouse shop : gmap string Z) (hours : pyfloat) (slots : Z)
    (self : RestaurantOptimizer) :
  init catalogue levels ingredient_names warehouse shop hours slots = Some self →
  ∀ s k v, s ∈ (find_best_solution self).1 →
           ingredients (dish s) !! k = Some v → 0 < v →
           k ∉ ingredient_names →
           count s <= 0.
Proof.
  intros Hinit s k v Hs Hk Hv Hnot.
  assert (Hnone : total_ingredients self !! k = None).
  { apply init_Some in Hinit as (_ & _ & _ & _ & _ & _ & _ & ->).
    rewrite sum_storages_lookup. rewrite decide_False by exact Hnot.
    reflexivity. }
  pose proof (get_None _ _ Hnone) as Hmissing.
  assert (Henum : ∀ outer inner cO cI, enumerated self outer inner cO cI →
            (ingredients outer !! k = Some v → cO <= 0) ∧
            (ingredients inner !! k = Some v → cI <= 0)).
  { intros outer inner cO cI (HcO & Hmk & HcI). split.
    - intros Ho. specialize (Hmk k v Ho). rewrite Hmissing in Hmk.
      apply Z.nlt_ge. intros Hpos.
      pose proof (Z.mul_pos_pos cO v Hpos Hv). lia.
    - intros Hi. subst cI. unfold count2_at.
      etransitivity; [apply Z.le_min_r|].
      etransitivity; [apply (calc_ingredient_limit_upper inner _ k v Hi Hv)|].
      rewrite get_pool_left. unfold left_over. rewrite Hnone.
      rewrite Z.div_0_l; lia. }
  destruct (find_best_solution_spec self) as (sols & E & _ & Hshape).
  rewrite E in Hs. cbn [fst] in Hs.
  destruct Hshape as [| d ratio Hin Hpos | d1 d2 c1 c2 r1 r2 Hin Ha Hlt].
  - inversion Hs.
  - apply list_elem_of_singleton in Hs as ->. simpl in *.
    etransitivity; [apply Z.le_min_r|].
    etransitivity; [apply (calc_ingredient_limit_upper d _ k v Hk Hv)|].
    rewrite Hmissing. rewrite Z.div_0_l; lia.
  - apply elem_of_cons in Hs as [-> | Hs];
      [|apply list_elem_of_singleton in Hs as ->]; simpl in *;
      destruct Ha as [He | He]; destruct (Henum _ _ _ _ He) as [HO HI]; auto.
Qed.

Lemma unlisted_ingredient_blocks_dish_witness :
  init [exotic; free_dish] {[ "wok"%string := 1 ]} [] {[ "z"%string := 9 ]} ∅
    (Finite 2) 2 = Some pantry ∧
  mkMenuSolution exotic 0 0%Q ∈ (find_best_solution pantry).1 ∧
  ingredients exotic !! "z"%string = Some 1 ∧ 0 < 1 ∧
  ("z"%string ∉ @nil string) ∧
  count (mkMenuSolution exotic 0 0%Q) <= 0.
Proof.
  assert (Hinit : init [exotic; free_dish] {[ "wok"%string := 1 ]} []
                    {[ "z"%string := 9 ]} ∅ (Finite 2) 2 = Some pantry)
    by (vm_compute; reflexivity).
  assert (Hs : mkMenuSolution exotic 0 0%Q ∈ (find_best_solution pantry).1)
    by (vm_compute; left).
  assert (Hk : ingredients exotic !! "z"%string = Some 1)
    by (vm_compute; reflexivity).
  assert (Hv : 0 < 1) by lia.
  assert (Hn : "z"%string ∉ @nil string) by (intros H; inversion H).
  repeat (split; [assumption|]).
  exact (unlisted_ingredient_blocks_dish _ _ _ _ _ _ _ pantry Hinit
           _ _ _ Hs Hk Hv Hn).
Defined.

(** ** Catalogue loading *)

Lemma load_dish_None cookware e :
  load_dish cookware e = None ↔
  raw_dish_id e = None ∨ raw_ingredients e = None.
Proof.
  unfold load_dish.
  destruct (raw_dish_id e), (raw_ingredients e); split;
    try discriminate; auto; intros [H | H]; discriminate.
Qed.

Lemma load_cookware_spec cookware entries : ∀ acc,
  (load_cookware cookware entries acc = None ↔
   Exists (fun e => load_dish cookware e = None) entries) ∧
  (∀ r, load_cookware cookware entries acc = Some r →
        ∃ new, r = acc ++ new ∧
               Forall2 (fun e d => load_dish cookware e = Some d) entries new).
Proof.
  induction entries as [|e entries IH]; intros acc; simpl.
  - split.
    + split; [discriminate | intros H; inversion H].
    + intros r H. injection H as <-. exists []. rewrite app_nil_r.
      split; [reflexivity | constructor].
  - destruct (load_dish cookware e) as [d|] eqn:E.
    + destruct (IH (acc ++ [d])) as [Hnone Hsome]. split.
      * rewrite Hnone. rewrite Exists_cons. split; [auto|].
        intros [H | H]; [congruence | exact H].
      * intros r H. destruct (Hsome r H) as (new & -> & Hall).
        exists (d :: new). rewrite <- app_assoc. split; [reflexivity|].
        constructor; assumption.
    + split; [|discriminate]. split; [|reflexivity].
      intros _. left. exact E.
Qed.

Lemma load_dishes_loop_spec dic : ∀ acc,
  (load_dishes_loop dic acc = None ↔
   Exists (fun p => load_dish p.1 p.2 = None) (catalogue_entries dic)) ∧
  (∀ r, load_dishes_loop dic acc = Some r →
        ∃ new, r = acc ++ new ∧
               Forall2 (fun p d => load_dish p.1 p.2 = Some d)
                       (catalogue_entries dic) new).
Proof.
  induction dic as [|[cookware entries] dic IH]; intros acc.
  - simpl. split.
    + split; [discriminate | intros H; inversion H].
    + intros r H. injection H as <-. exists []. rewrite app_nil_r.
      split; [reflexivity | constructor].
  - change (catalogue_entries ((cookware, entries) :: dic))
      with (((fun e => (cookware, e)) <$> entries) ++ catalogue_entries dic).
    simpl load_dishes_loop.
    destruct (load_cookware_spec cookware entries acc) as [Hnone Hsome].
    destruct (load_cookware cookware entries acc) as [acc'|] eqn:E.
    + destruct (Hsome acc' eq_refl) as (new1 & -> & Hall1).
      destruct (IH (acc ++ new1)) as [Hnone' Hsome']. split.
      * rewrite Hnone'. rewrite Exists_app. split; [auto|].
        intros [H | H]; [|exact H]. exfalso.
        apply Exists_fmap in H. simpl in H.
        destruct Hnone as [_ Hnone]. discriminate (Hnone H).
      * intros r H. destruct (Hsome' r H) as (new2 & -> & Hall2).
        exists (new1 ++ new2). rewrite app_assoc. split; [reflexivity|].
        apply Forall2_app; [|exact Hall2].
        apply Forall2_fmap_l. exact Hall1.
    + split; [|discriminate]. split; [|reflexivity]. intros _.
      apply Exists_app. left. apply Exists_fmap. simpl.
      apply Hnone. reflexivity.
Qed.

(** X13. [_load_dishes] fails (a [KeyError]) exactly when some entry of
    the file lacks [dish_id] or [ingredients]; otherwise it returns one
    dish per entry, in file order, each built from its entry with the
    cookware under which the entry is listed, a missing [profit] or
    [sell_time] read as 0 and a missing [unlock_level] as 3. *)
Theorem load_dishes_spec (dic_dishes : list (string * list RawDish)) :
  (_load_dishes dic_dishes = None ↔
   Exists (fun p => raw_dish_id p.2 = None ∨ raw_ingredients p.2 = None)
          (catalogue_entries dic_dishes)) ∧
  (∀ dishes, _load_dishes dic_dishes = Some dishes →
     Forall2 (fun p d =>
                ∃ dish_id ingredients,
                  raw_dish_id p.2 = Some dish_id ∧
                  raw_ingredients p.2 = Some ingredients ∧
                  d = mkDish dish_id p.1
                        (default 0 (raw_profit p.2))
                        (default 0 (raw_sell_time p.2))
                        (default 3 (raw_unlock_level p.2))
                        ingredients)
             (catalogue_entries dic_dishes) dishes).
Proof.
  unfold _load_dishes.
  destruct (load_dishes_loop_spec dic_dishes []) as [Hnone Hsome]. split.
  - rewrite Hnone.
    split; intros H; (eapply Exists_impl; [exact H|]); intros p;
      apply load_dish_None.
  - intros dishes H. destruct (Hsome dishes H) as (new & -> & Hall).
    simpl. eapply Forall2_impl; [exact Hall|].
    intros p d Hp. unfold load_dish in Hp.
    destruct (raw_dish_id p.2) as [id|]; [|discriminate].
    destruct (raw_ingredients p.2) as [ing|]; [|discriminate].
    injection Hp as <-. eauto.
Qed.

Lemma load_dishes_spec_witness :
  ∃ dishes, _load_dishes raw_catalogue = Some dishes ∧
            length dishes = 2%nat ∧
            map time dishes = [60; 0] ∧ map unlock_level dishes = [1; 3].
Proof.
  exists (default [] (_load_dishes raw_catalogue)).
  assert (E : _load_dishes raw_catalogue
              = Some (default [] (_load_dishes raw_catalogue)))
    by (vm_compute; reflexivity).
  split; [exact E|].
  pose proof (proj2 (load_dishes_spec raw_catalogue) _ E) as Hall.
  apply Forall2_length in Hall.
  split; [rewrite <- Hall; reflexivity|].
  split; vm_compute; reflexivity.
Defined.

(** X14. For an optimizer built from the catalogue file, every entry of
    the returned plan is a dish loaded from an entry of the file whose
    cookware has a level and whose unlock level (3 when the entry gives
    none) is at most that level; and a dish whose entry gives no
    [sell_time] never gets a positive count. *)
Theorem shelved_dishes_come_from_catalogue
    (dic_dishes : list (string * list RawDish)) (levels : gmap string Z)
    (ingredient_names : list string) (warehouse shop : gmap string Z)
    (hours : pyfloat) (slots : Z) (self : RestaurantOptimizer) :
  new_optimizer dic_dishes levels ingredient_names warehouse shop hours slots
    = Some self →
  ∀ s, s ∈ (find_best_solution self).1 →
    ∃ cookware e lv,
      (cookware, e) ∈ catalogue_entries dic_dishes ∧
      load_dish cookware e = Some (dish s) ∧
      levels !! cookware = Some lv ∧
      default 3 (raw_unlock_level e) <= lv ∧
      (raw_sell_time e = None → count s <= 0).
Proof.
  intros Hnew s Hs. unfold new_optimizer in Hnew.
  destruct (_load_dishes dic_dishes) as [dishes|] eqn:Eload; [|discriminate].
  destruct (load_dishes_loop_spec dic_dishes []) as [_ Hsome].
  destruct (Hsome dishes Eload) as (new & -> & Hall). simpl in Hnew.
  pose proof (plan_dish_unlocked self s Hs) as Hunlocked.
  apply init_Some in Hnew as (_ & _ & _ & _ & _ & _ & Ef & _).
  destruct (filter_unlocked_Some _ _ _ Ef) as [_ Hmem].
  apply Hmem in Hunlocked as (Hin & lv & Hlv & Hle).
  apply list_elem_of_lookup in Hin as [i Hi].
  destruct (Forall2_lookup_r _ _ _ _ _ Hall Hi) as ([ck e] & Hp & Hld).
  simpl in Hld. exists ck, e, lv.
  assert (Hfields : cookware (dish s) = ck ∧
                    unlock_level (dish s) = default 3 (raw_unlock_level e) ∧
                    time (dish s) = default 0 (raw_sell_time e)).
  { unfold load_dish in Hld.
    destruct (raw_dish_id e); [|discriminate].
    destruct (raw_ingredients e); [|discriminate].
    injection Hld as <-. auto. }
  destruct Hfields as (Hck & Hul & Htime).
  split; [apply list_elem_of_lookup; eauto|]. split; [exact Hld|].
  split; [congruence|]. split; [lia|].
  intros Hnone. apply (nonpositive_time_count self s Hs).
  rewrite Htime, Hnone. simpl. lia.
Qed.

Lemma shelved_dishes_come_from_catalogue_witness :
  new_optimizer raw_catalogue {[ "wok"%string := 3 ]} ["x"%string]
    {[ "x"%string := 5 ]} ∅ (Finite 2) 2 = Some loaded_kitchen ∧
  ∀ s, s ∈ (find_best_solution loaded_kitchen).1 →
    ∃ cookware e lv,
      (cookware, e) ∈ catalogue_entries raw_catalogue ∧
      load_dish cookware e = Some (dish s) ∧
      ({[ "wok"%string := 3 ]} : gmap string Z) !! cookware = Some lv ∧
      default 3 (raw_unlock_level e) <= lv ∧
      (raw_sell_time e = None → count s <= 0).
Proof.
  assert (Hnew : new_optimizer raw_catalogue {[ "wok"%string := 3 ]}
                   ["x"%string] {[ "x"%string := 5 ]} ∅ (Finite 2) 2
                 = Some loaded_kitchen)
    by (vm_compute; reflexivity).
  split; [exact Hnew|].
  exact (shelved_dishes_come_from_catalogue _ _ _ _ _ _ _ loaded_kitchen Hnew).
Defined.

(** ** The decisions of the caller *)

Lemma foldl_max_spec (l : list Z) : ∀ v,
  (foldl Z.max v l = v ∨ foldl Z.max v l ∈ l) ∧
  v <= foldl Z.max v l ∧
  Forall (fun q => q <= foldl Z.max v l) l.
Proof.
  induction l as [|x l IH]; intros v; simpl.
  - split; [left; reflexivity|]. split; [lia | constructor].
  - destruct (IH (Z.max v x)) as (Hin & Hle & Hall). split; [|split].
    + destruct Hin as [Heq | Hin]; [|right; right; exact Hin].
      destruct (Z.max_spec v x) as [[_ Hm] | [_ Hm]]; rewrite Hm in *.
      * right. rewrite Heq. left.
      * left. exact Heq.
    + lia.
    + constructor; [lia | exact Hall].
Qed.

Lemma max_values_spec (demands : gmap string Z) :
  match max_values demands with
  | None => demands = ∅
  | Some m => (∃ k, demands !! k = Some m) ∧
              ∀ k q, demands !! k = Some q → q <= m
  end.
Proof.
  unfold max_values.
  destruct (map_to_list demands) as [|[k0 v0] rest] eqn:E; simpl.
  - apply map_to_list_empty_iff. exact E.
  - destruct (foldl_max_spec rest.*2 v0) as (Hin & Hle & Hall).
    assert (Hmem : ∀ k q, demands !! k = Some q →
                     q = v0 ∨ q ∈ rest.*2).
    { intros k q Hk. apply elem_of_map_to_list in Hk. rewrite E in Hk.
      apply elem_of_cons in Hk as [Heq | Hk].
      - left. congruence.
      - right. apply list_elem_of_fmap. exists (k, q). auto. }
    assert (Hback : ∀ q, q = v0 ∨ q ∈ rest.*2 → ∃ k, demands !! k = Some q).
    { intros q [-> | Hq].
      - exists k0. apply elem_of_map_to_list. rewrite E. left.
      - apply list_elem_of_fmap in Hq as ([k q'] & -> & Hq).
        exists k. apply elem_of_map_to_list. rewrite E. right. exact Hq. }
    split.
    + apply Hback. exact Hin.
    + intros k q Hk. destruct (Hmem k q Hk) as [-> | Hq]; [exact Hle|].
      rewrite Forall_forall in Hall. apply Hall. exact Hq.
Qed.

Lemma purchase_triggered_all demands :
  purchase_triggered "BuyAllDemand" demands = true ↔ demands ≠ ∅.
Proof.
  unfold purchase_triggered. destruct (decide (demands = ∅)) as [-> | Hne].
  - split; [discriminate | congruence].
  - simpl. split; auto.
Qed.

Lemma purchase_triggered_only demands :
  purchase_triggered "OnlyBuyDemand" demands = true ↔
  ∃ k q, demands !! k = Some q ∧ 0 < q.
Proof.
  unfold purchase_triggered. destruct (decide (demands = ∅)) as [-> | Hne].
  - split; [discriminate|]. intros (k & q & Hk & _).
    rewrite lookup_empty in Hk. discriminate.
  - simpl. pose proof (max_values_spec demands) as Hmax.
    destruct (max_values demands) as [m|]; [|contradiction].
    destruct Hmax as [[k Hk] Hall]. rewrite Z.ltb_lt. split.
    + intros Hm. eauto.
    + intros (k' & q & Hk' & Hq). specialize (Hall k' q Hk'). lia.
Qed.

Lemma purchase_triggered_other option demands :
  option ≠ "BuyAllDemand"%string → option ≠ "OnlyBuyDemand"%string →
  purchase_triggered option demands = false.
Proof.
  intros H1 H2. unfold purchase_triggered.
  destruct (decide (demands = ∅)); [reflexivity|].
  apply String.eqb_neq in H1, H2. rewrite H1, H2. reflexivity.
Qed.

(** The purchase plan is empty exactly when the plan uses no purchasable
    ingredient. *)
Lemma demands_nonempty self :
  (find_best_solution self).2 ≠ ∅ ↔
  ∃ k, is_Some (purchasable_ingredients self !! k) ∧
       demanded (find_best_solution self).1 k.
Proof.
  destruct (find_best_solution_entries self) as (_ & _ & ->). split.
  - intros Hne. apply map_choose in Hne as (k & q & Hk).
    apply purchase_plan_lookup in Hk as (Hp & Hd & _). eauto.
  - intros (k & Hp & Hd) He.
    assert (Hk : rectify (warehouse_storage self)
                   (plan_of (purchasable_ingredients self)
                      (find_best_solution self).1 ∅) !! k
                 = Some (Z.max 0 (total_demand (find_best_solution self).1 k
                                  - get (warehouse_storage self) k))).
    { apply purchase_plan_lookup. auto. }
    rewrite He in Hk. rewrite lookup_empty in Hk. discriminate.
Qed.

(** X15. [run] pushes its message and shelves nothing exactly when the
    plan is empty.  Otherwise it shelves the plan, and the purchase task
    is run, with the whole purchase plan, under [BuyAllDemand] exactly
    when the plan uses a purchasable ingredient (even if the warehouse
    covers it), under [OnlyBuyDemand] exactly when the demand of some
    purchasable ingredient exceeds the warehouse quantity, and never under
    any other option. *)
Theorem decide_run_spec (self : RestaurantOptimizer) (option : string) :
  (decide_run self option = NoPlan ↔ (find_best_solution self).1 = []) ∧
  (∀ p sols, decide_run self option = Shelve p sols →
     sols = (find_best_solution self).1 ∧
     (p = None ∨ p = Some (find_best_solution self).2)) ∧
  ((∃ sols, decide_run self "BuyAllDemand" = Shelve (Some (find_best_solution self).2) sols) ↔
   (find_best_solution self).1 ≠ [] ∧
   ∃ k, is_Some (purchasable_ingredients self !! k) ∧
        demanded (find_best_solution self).1 k) ∧
  ((∃ sols, decide_run self "OnlyBuyDemand" = Shelve (Some (find_best_solution self).2) sols) ↔
   (find_best_solution self).1 ≠ [] ∧
   ∃ k, is_Some (purchasable_ingredients self !! k) ∧
        demanded (find_best_solution self).1 k ∧
        get (warehouse_storage self) k
        < total_demand (find_best_solution self).1 k) ∧
  (option ≠ "BuyAllDemand"%string → option ≠ "OnlyBuyDemand"%string →
   ∀ p sols, decide_run self option = Shelve p sols → p = None).
Proof.
  pose proof (demands_nonempty self) as Hne.
  pose proof (purchase_triggered_all (find_best_solution self).2) as Hall.
  pose proof (purchase_triggered_only (find_best_solution self).2) as Honly.
  assert (Hpos : (∃ k q, (find_best_solution self).2 !! k = Some q ∧ 0 < q) ↔
                 ∃ k, is_Some (purchasable_ingredients self !! k) ∧
                      demanded (find_best_solution self).1 k ∧
                      get (warehouse_storage self) k
                      < total_demand (find_best_solution self).1 k).
  { destruct (find_best_solution_entries self) as (_ & _ & ->). split.
    - intros (k & q & Hk & Hq).
      apply purchase_plan_lookup in Hk as (Hp & Hd & ->).
      exists k. split; [exact Hp|]. split; [exact Hd | lia].
    - intros (k & Hp & Hd & Hlt). exists k. eexists. split.
      + apply purchase_plan_lookup. split; [exact Hp|]. split; [exact Hd|].
        reflexivity.
      + lia. }
  unfold decide_run in *.
  destruct (find_best_solution self) as [sols demands] eqn:E. cbn [fst snd] in *.
  destruct sols as [|s sols].
  - split; [split; reflexivity|]. split; [discriminate|].
    split; [split; [intros [? H]; discriminate | intros [H _]; congruence]|].
    split; [split; [intros [? H]; discriminate | intros [H _]; congruence]|].
    discriminate.
  - split; [split; discriminate|]. split.
    { intros p sols' H. injection H as <- <-. split; [reflexivity|].
      destruct (purchase_triggered option demands); auto. }
    split; [|split].
    + rewrite <- Hne, <- Hall. split.
      * intros [sols' H]. split; [discriminate|].
        destruct (purchase_triggered "BuyAllDemand" demands);
          [reflexivity | discriminate].
      * intros [_ ->]. eauto.
    + rewrite <- Hpos, <- Honly. split.
      * intros [sols' H]. split; [discriminate|].
        destruct (purchase_triggered "OnlyBuyDemand" demands);
          [reflexivity | discriminate].
      * intros [_ ->]. eauto.
    + intros H1 H2 p sols' H.
      rewrite (purchase_triggered_other option demands H1 H2) in H.
      injection H as <- _. reflexivity.
Qed.

Lemma decide_run_spec_witness :
  (find_best_solution scenario_D).1 ≠ [] ∧
  (∃ k, is_Some (purchasable_ingredients scenario_D !! k) ∧
        demanded (find_best_solution scenario_D).1 k) ∧
  ∃ sols, decide_run scenario_D "BuyAllDemand"
          = Shelve (Some (find_best_solution scenario_D).2) sols.
Proof.
  assert (Hne : (find_best_solution scenario_D).1 ≠ [])
    by (vm_compute; discriminate).
  assert (Hk : ∃ k, is_Some (purchasable_ingredients scenario_D !! k) ∧
                    demanded (find_best_solution scenario_D).1 k).
  { exists "x"%string. split; [vm_compute; eauto | vm_compute; left; eauto]. }
  split; [exact Hne|]. split; [exact Hk|].
  destruct (decide_run_spec scenario_D "BuyAllDemand") as (_ & _ & Hall & _).
  apply Hall. split; assumption.
Defined.

(** The optimizer that [run] builds, whatever the horizon text. *)
Lemma run_optimizer_Some dishes levels ingredient_names warehouse shop est
    opt :
  run_optimizer dishes levels ingredient_names warehouse shop est = Some opt →
  warehouse_storage opt = warehouse ∧
  purchasable_ingredients opt = shop ∧
  filter_unlocked levels dishes = Some (unlocked_dishes opt) ∧
  total_ingredients opt = sum_storages warehouse shop ingredient_names ∧
  (horizon_nonneg est → 0 <= time_limit opt).
Proof.
  intros H.
  assert (Hdefault :
            init dishes levels ingredient_names warehouse shop
              default_time_limit 2 = Some opt →
            warehouse_storage opt = warehouse ∧
            purchasable_ingredients opt = shop ∧
            filter_unlocked levels dishes = Some (unlocked_dishes opt) ∧
            total_ingredients opt
              = sum_storages warehouse shop ingredient_names ∧
            0 <= time_limit opt).
  { intros Hi. unfold init in Hi. rewrite construct_default in Hi.
    destruct (filter_unlocked levels dishes); [|discriminate].
    injection Hi as <-. cbn. repeat split; lia. }
  destruct est as [[h | neg |]|]; unfold run_optimizer in H.
  - destruct (construct _ _ _ _ _ (Finite h) 2) as [e | o] eqn:E.
    { unfold construct, times_60, float_of in E.
      destruct (Qle_bool _ _); cbn [int_of_float] in E.
      - injection E as <-. discriminate.
      - destruct (filter_unlocked levels dishes); [discriminate|].
        injection E as <-. discriminate. }
    injection H as ->.
    apply construct_finite in E as (HT & _ & Hw & Hs & Hf & Htot).
    split; [exact Hw|]. split; [exact Hs|]. split; [exact Hf|].
    split; [exact Htot|]. intros Hh. rewrite HT. apply minutes_nonneg.
    exact Hh.
  - discriminate.
  - destruct (Hdefault H) as (? & ? & ? & ? & ?). auto.
  - destruct (Hdefault H) as (? & ? & ? & ? & ?). auto.
Qed.

(** X16. Under the option [DoNotBuy] the shop scan is ignored: [run]
    decides as it would with an empty shop, never runs the purchase task,
    and, when the warehouse quantities are non-negative and the horizon is
    not a negative number, shelves a plan whose demand on every ingredient
    the warehouse alone covers. *)
Theorem do_not_buy_spec (catalogue : list Dish) (levels : gmap string Z)
    (ingredient_names : list string) (warehouse shop : gmap string Z)
    (est : selling_time) :
  run catalogue levels ingredient_names warehouse shop est "DoNotBuy" =
  run catalogue levels ingredient_names warehouse ∅ est "DoNotBuy" ∧
  ∀ decision,
    run catalogue levels ingredient_names warehouse shop est "DoNotBuy"
      = Some decision →
    decision = NoPlan ∨
    ∃ sols, decision = Shelve None sols ∧
            (pools_nonneg warehouse → horizon_nonneg est →
             ∀ k, total_demand sols k <= get warehouse k).
Proof.
  split; [reflexivity|]. intros decision Hrun. unfold run in Hrun.
  change (shop_storage_for "DoNotBuy" shop) with (∅ : gmap string Z) in Hrun.
  destruct (run_optimizer catalogue levels ingredient_names warehouse ∅ est)
    as [opt|] eqn:Eopt; [|discriminate].
  injection Hrun as <-.
  assert (Hfields : purchasable_ingredients opt = ∅ ∧
                    total_ingredients opt
                    = sum_storages warehouse ∅ ingredient_names ∧
                    (horizon_nonneg est → 0 <= time_limit opt)).
  { apply run_optimizer_Some in Eopt as (_ & ? & _ & ? & ?). auto. }
  destruct Hfields as (Hshop & Htotal & Htime).
  assert (Hempty : (find_best_solution opt).2 = ∅).
  { destruct (decide ((find_best_solution opt).2 = ∅)) as [E | Hne]; [exact E|].
    apply demands_nonempty in Hne as (k & [x Hx] & _).
    rewrite Hshop, lookup_empty in Hx. discriminate. }
  destruct (find_best_solution_spec opt) as (sols & E & _ & Hshape).
  unfold decide_run. rewrite E in Hempty |- *. cbn [snd] in Hempty.
  destruct sols as [|s sols]; [left; reflexivity | right].
  exists (s :: sols). rewrite Hempty. split; [reflexivity|].
  intros Hw Hest k.
  assert (Hpool : pools_nonneg (total_ingredients opt)).
  { rewrite Htotal. apply sum_storages_nonneg; [exact Hw|].
    intros ? ? H. rewrite lookup_empty in H. discriminate. }
  etransitivity;
    [apply (shape_demand_bounded opt _ k Hpool (or_introl (Htime Hest)) Hshape)|].
  rewrite Htotal. unfold get at 1. rewrite sum_storages_lookup.
  pose proof (get_nonneg _ Hw k).
  destruct (decide (k ∈ ingredient_names)); simpl; [|lia].
  unfold get at 2. rewrite lookup_empty. simpl. lia.
Qed.

Lemma do_not_buy_spec_witness :
  run [stir_fry; dumpling] {[ "wok"%string := 1; "steamer"%string := 1 ]}
      ["x"%string; "y"%string] {[ "x"%string := 1; "y"%string := 3 ]}
      {[ "x"%string := 1 ]} (Numeric (Finite 2)) "DoNotBuy"
  = Some (decide_run
            (mkOptimizer 120 2 {[ "x"%string := 1; "y"%string := 3 ]} ∅
               [stir_fry; dumpling] {[ "x"%string := 1; "y"%string := 3 ]})
            "DoNotBuy") ∧
  pools_nonneg ({[ "x"%string := 1; "y"%string := 3 ]} : gmap string Z) ∧
  horizon_nonneg (Numeric (Finite 2)) ∧
  (decide_run
     (mkOptimizer 120 2 {[ "x"%string := 1; "y"%string := 3 ]} ∅
        [stir_fry; dumpling] {[ "x"%string := 1; "y"%string := 3 ]})
     "DoNotBuy" = NoPlan ∨
   ∃ sols,
     decide_run
       (mkOptimizer 120 2 {[ "x"%string := 1; "y"%string := 3 ]} ∅
          [stir_fry; dumpling] {[ "x"%string := 1; "y"%string := 3 ]})
       "DoNotBuy" = Shelve None sols ∧
     ∀ k, total_demand sols k
          <= get ({[ "x"%string := 1; "y"%string := 3 ]} : gmap string Z) k).
Proof.
  set (opt := mkOptimizer 120 2 {[ "x"%string := 1; "y"%string := 3 ]} ∅
                [stir_fry; dumpling] {[ "x"%string := 1; "y"%string := 3 ]}).
  assert (Hrun : run [stir_fry; dumpling]
                   {[ "wok"%string := 1; "steamer"%string := 1 ]}
                   ["x"%string; "y"%string]
                   {[ "x"%string := 1; "y"%string := 3 ]}
                   {[ "x"%string := 1 ]} (Numeric (Finite 2)) "DoNotBuy"
                 = Some (decide_run opt "DoNotBuy"))
    by (vm_compute; reflexivity).
  assert (Hw : pools_nonneg ({[ "x"%string := 1; "y"%string := 3 ]}
                             : gmap string Z)) by by_decision.
  assert (Hh : horizon_nonneg (Numeric (Finite 2)))
    by (vm_compute; discriminate).
  split; [exact Hrun|]. split; [exact Hw|]. split; [exact Hh|].
  destruct (proj2 (do_not_buy_spec _ _ _ _ _ _) _ Hrun)
    as [Hnone | (sols & Hs & Hfit)]; [left; exact Hnone | right].
  exists sols. split; [exact Hs | exact (Hfit Hw Hh)].
Defined.

(** ** Ties *)

Lemma try_single_eq self best d :
  try_single self best d =
  if profit best <? (_optimize_single_dish self d).2
  then single_solution self d else best.
Proof. reflexivity. Qed.

Lemma foldl_try_single_first self l : ∀ acc,
  (foldl (try_single self) acc l = acc ∧
   Forall (fun e => (_optimize_single_dish self e).2 <= profit acc) l) ∨
  ∃ before d after,
    l = before ++ d :: after ∧
    foldl (try_single self) acc l = single_solution self d ∧
    profit acc < (_optimize_single_dish self d).2 ∧
    Forall (fun e => (_optimize_single_dish self e).2
                     < (_optimize_single_dish self d).2) before ∧
    Forall (fun e => (_optimize_single_dish self e).2
                     <= (_optimize_single_dish self d).2) after.
Proof.
  induction l as [|x l IH]; intros acc.
  - left. split; [reflexivity | constructor].
  - cbn [foldl]. rewrite try_single_eq.
    destruct (profit acc <? (_optimize_single_dish self x).2) eqn:E;
      [apply Z.ltb_lt in E | apply Z.ltb_ge in E].
    + right.
      destruct (IH (single_solution self x))
        as [[Hr Hall] | (before & d & after & -> & Hr & Hlt & Hb & Ha)].
      * exists [], x, l. cbn [profit single_solution] in Hall.
        repeat split; try assumption. constructor.
      * exists (x :: before), d, after. cbn [profit single_solution] in Hlt.
        repeat split; try assumption; [lia|]. constructor; assumption.
    + destruct (IH acc)
        as [[Hr Hall] | (before & d & after & -> & Hr & Hlt & Hb & Ha)].
      * left. split; [exact Hr|]. constructor; assumption.
      * right. exists (x :: before), d, after.
        repeat split; try assumption. constructor; [lia | exact Hb].
Qed.

Lemma search_one_dish self :
  length (dishes (search self)) = 1%nat → search self = best_single self.
Proof.
  unfold search. destruct (2 <=? max_slots self); [|reflexivity].
  intros Hlen.
  assert (H : foldl (try_pair self) (best_single self)
                (combinations2 (unlocked_dishes self)) = best_single self ∨
              length (dishes (foldl (try_pair self) (best_single self)
                         (combinations2 (unlocked_dishes self)))) = 2%nat).
  { apply (foldl_invariant
             (fun acc => acc = best_single self ∨ length (dishes acc) = 2%nat)).
    - left. reflexivity.
    - intros acc [d1 d2] _ Hacc.
      destruct (try_pair_cases self acc d1 d2) as [[-> _] | (_ & -> & _)];
        [exact Hacc | right; reflexivity]. }
  destruct H as [H | H]; [exact H | lia].
Qed.

(** X17. When the plan consists of a single dish, that dish is the first
    unlocked dish, in catalogue order, with the largest single-dish
    profit: every dish before it earns strictly less and no dish after it
    earns more; its count is the one [_optimize_single_dish] computes. *)
Theorem single_plan_first_best (self : RestaurantOptimizer) (s : MenuSolution) :
  (find_best_solution self).1 = [s] →
  count s = (_optimize_single_dish self (dish s)).1 ∧
  0 < (_optimize_single_dish self (dish s)).2 ∧
  ∃ before after,
    unlocked_dishes self = before ++ dish s :: after ∧
    Forall (fun e => (_optimize_single_dish self e).2
                     < (_optimize_single_dish self (dish s)).2) before ∧
    Forall (fun e => (_optimize_single_dish self e).2
                     <= (_optimize_single_dish self (dish s)).2) after.
Proof.
  intros Hs.
  destruct (find_best_solution_entries self) as (Hd & Hc & _).
  rewrite Hs in Hd, Hc. cbn [map] in Hd, Hc.
  assert (E : search self = best_single self).
  { apply search_one_dish. rewrite <- Hd. reflexivity. }
  rewrite E in Hd, Hc. unfold best_single in Hd, Hc.
  destruct (foldl_try_single_first self (unlocked_dishes self) empty_solution)
    as [[Hr _] | (before & d & after & Hsplit & Hr & Hlt & Hb & Ha)].
  - rewrite Hr in Hd. discriminate.
  - rewrite Hr in Hd, Hc. cbn [dishes counts single_solution] in Hd, Hc.
    injection Hd as Hd. injection Hc as Hc. rewrite Hd in *.
    split; [exact Hc|]. split; [simpl in Hlt |- *; lia|].
    exists before, after. auto.
Qed.

(** Three dishes compete for one ingredient; the last two earn the same,
    and the plan is the first of them. *)
Lemma single_plan_first_best_witness :
  (find_best_solution tie_kitchen).1 = [mkMenuSolution bun 2 (2 # 2)] ∧
  (_optimize_single_dish tie_kitchen tofu).2 = 6 ∧
  (_optimize_single_dish tie_kitchen bun).2 = 10 ∧
  (_optimize_single_dish tie_kitchen roll).2 = 10 ∧
  count (mkMenuSolution bun 2 (2 # 2))
    = (_optimize_single_dish tie_kitchen bun).1 ∧
  0 < (_optimize_single_dish tie_kitchen bun).2 ∧
  ∃ before after,
    unlocked_dishes tie_kitchen = (before ++ bun :: after)%list ∧
    Forall (fun e => (_optimize_single_dish tie_kitchen e).2
                     < (_optimize_single_dish tie_kitchen bun).2) before ∧
    Forall (fun e => (_optimize_single_dish tie_kitchen e).2
                     <= (_optimize_single_dish tie_kitchen bun).2) after.
Proof.
  assert (Hs : (find_best_solution tie_kitchen).1
               = [mkMenuSolution bun 2 (2 # 2)])
    by (vm_compute; reflexivity).
  split; [exact Hs|].
  split; [vm_compute; reflexivity|]. split; [vm_compute; reflexivity|].
  split; [vm_compute; reflexivity|].
  exact (single_plan_first_best tie_kitchen _ Hs).
Defined.

(** * Properties of the recognition helpers *)

(** ** Matching item names with quantities *)

Lemma split_results_spec int_text (rs : list OCRResult) : ∀ items quantities,
  split_results int_text rs items quantities =
  (items ++ filter (is_item int_text) rs,
   quantities ++ filter (is_quantity int_text) rs).
Proof.
  induction rs as [|r rs IH]; intros items quantities; simpl.
  - rewrite !app_nil_r. reflexivity.
  - destruct (int_text (text r)) as [n|] eqn:E.
    + rewrite IH. rewrite (filter_cons_False (is_item int_text))
        by (unfold is_item; congruence).
      rewrite (filter_cons_True (is_quantity int_text))
        by (unfold is_quantity; rewrite E; eauto).
      rewrite <- app_assoc. reflexivity.
    + rewrite IH. rewrite (filter_cons_True (is_item int_text))
        by (unfold is_item; congruence).
      rewrite (filter_cons_False (is_quantity int_text))
        by (unfold is_quantity; rewrite E; intros [? ?]; discriminate).
      rewrite <- app_assoc. reflexivity.
Qed.

Lemma nearest_quantity_error p qs : ∀ i min best,
  nearest_quantity p qs i min best = None ↔
  Exists (fun q => get_box q = None) qs.
Proof.
  induction qs as [|q qs IH]; intros i min best; simpl.
  - split; [discriminate | intros H; inversion H].
  - rewrite Exists_cons. destruct (get_box q) as [b|] eqn:E.
    + destruct (match min with None => true | Some m => _ end);
        rewrite IH; split; auto; intros [H | H]; [discriminate | exact H |
                                                   discriminate | exact H].
    + split; auto.
Qed.

Lemma nearest_quantity_found p qs : ∀ i min best r,
  nearest_quantity p qs i min best = Some r →
  (r = best ∧
   ∀ q d, q ∈ qs → quantity_distance p q = Some d →
          ∃ m, min = Some m ∧ m <= d) ∨
  (∃ k q d,
     r = Some ((i + k)%nat, q) ∧ qs !! k = Some q ∧
     quantity_distance p q = Some d ∧
     (∀ m, min = Some m → d < m) ∧
     (∀ k' q' d', (k' < k)%nat → qs !! k' = Some q' →
                  quantity_distance p q' = Some d' → d < d') ∧
     (∀ q' d', q' ∈ qs → quantity_distance p q' = Some d' → d <= d')).
Proof.
  induction qs as [|q0 qs IH]; intros i min best r H; simpl in H.
  - injection H as <-. left. split; [reflexivity|].
    intros q d Hq. inversion Hq.
  - destruct (get_box q0) as [b|] eqn:Eb; [|discriminate].
    set (d0 := calculate_distance p (rect_x b, rect_y b + rect_h b)) in *.
    assert (Hd0 : quantity_distance p q0 = Some d0).
    { unfold quantity_distance. rewrite Eb. reflexivity. }
    destruct (match min with None => true | Some m => d0 <? m end) eqn:Ec.
    + assert (Hlt : ∀ m, min = Some m → d0 < m).
      { intros m ->. apply Z.ltb_lt. exact Ec. }
      right. apply IH in H
        as [[-> Hall] | (k & q & d & -> & Hk & Hd & Hmin & Hfirst & Hall)].
      * exists 0%nat, q0, d0. rewrite Nat.add_0_r.
        split; [reflexivity|]. split; [reflexivity|]. split; [exact Hd0|].
        split; [exact Hlt|]. split; [intros ? ? ? Hk; lia|].
        intros q' d' Hq' Hd'. apply elem_of_cons in Hq' as [-> | Hq'].
        -- rewrite Hd0 in Hd'. injection Hd' as <-. lia.
        -- destruct (Hall q' d' Hq' Hd') as (m & Hm & Hle).
           injection Hm as <-. exact Hle.
      * exists (S k), q, d. specialize (Hmin d0 eq_refl).
        split; [f_equal; f_equal; lia|]. split; [exact Hk|].
        split; [exact Hd|]. split; [intros m Hm; specialize (Hlt m Hm); lia|].
        split.
        -- intros [|k'] q' d' Hk' Hq' Hd'; simpl in Hq'.
           ++ injection Hq' as <-. rewrite Hd0 in Hd'. injection Hd' as <-. lia.
           ++ apply (Hfirst k' q' d'); [lia | assumption | assumption].
        -- intros q' d' Hq' Hd'. apply elem_of_cons in Hq' as [-> | Hq'].
           ++ rewrite Hd0 in Hd'. injection Hd' as <-. lia.
           ++ apply (Hall q' d'); assumption.
    + destruct min as [m|]; [|discriminate]. apply Z.ltb_ge in Ec.
      apply IH in H
        as [[-> Hall] | (k & q & d & -> & Hk & Hd & Hmin & Hfirst & Hall)].
      * left. split; [reflexivity|]. intros q' d' Hq' Hd'.
        apply elem_of_cons in Hq' as [-> | Hq'].
        -- rewrite Hd0 in Hd'. injection Hd' as <-. eauto.
        -- apply (Hall q' d'); assumption.
      * right. exists (S k), q, d. specialize (Hmin m eq_refl).
        split; [f_equal; f_equal; lia|]. split; [exact Hk|].
        split; [exact Hd|]. split; [intros m' Hm'; injection Hm' as <-; lia|].
        split.
        -- intros [|k'] q' d' Hk' Hq' Hd'; simpl in Hq'.
           ++ injection Hq' as <-. rewrite Hd0 in Hd'. injection Hd' as <-. lia.
           ++ apply (Hfirst k' q' d'); [lia | assumption | assumption].
        -- intros q' d' Hq' Hd'. apply elem_of_cons in Hq' as [-> | Hq'].
           ++ rewrite Hd0 in Hd'. injection Hd' as <-. lia.
           ++ apply (Hall q' d'); assumption.
Qed.

(** From an empty start the loop over a non-empty, well-formed list finds
    the first quantity at least distance. *)
Lemma nearest_quantity_start p qs r :
  qs ≠ [] →
  nearest_quantity p qs 0 None None = Some r →
  ∃ k q d,
    r = Some (k, q) ∧ qs !! k = Some q ∧
    quantity_distance p q = Some d ∧
    (∀ k' q' d', (k' < k)%nat → qs !! k' = Some q' →
                 quantity_distance p q' = Some d' → d < d') ∧
    (∀ q' d', q' ∈ qs → quantity_distance p q' = Some d' → d <= d').
Proof.
  intros Hne H.
  assert (Hok : ¬ Exists (fun q => get_box q = None) qs).
  { intros Hex. apply (nearest_quantity_error p qs 0 None None) in Hex.
    congruence. }
  apply nearest_quantity_found in H
    as [[-> Hall] | (k & q & d & -> & Hk & Hd & _ & Hfirst & Hall)].
  - exfalso. destruct qs as [|q0 qs]; [congruence|].
    destruct (get_box q0) as [b|] eqn:Eb.
    + destruct (Hall q0 (calculate_distance p (rect_x b, rect_y b + rect_h b)))
        as (m & Hm & _); [left | | discriminate].
      unfold quantity_distance. rewrite Eb. reflexivity.
    + apply Hok. left. exact Eb.
  - exists k, q, d. auto.
Qed.

(** The quantity chosen is the first occurrence of its value in the list,
    so that [quantities.remove] deletes it at its own position. *)
Lemma nearest_quantity_first_occurrence p qs i q :
  nearest_quantity p qs 0 None None = Some (Some (i, q)) →
  qs !! i = Some q ∧ ∀ j, (j < i)%nat → qs !! j ≠ Some q.
Proof.
  intros H. destruct qs as [|q0 qs']; [discriminate|].
  apply nearest_quantity_start in H
    as (k & q' & d & Heq & Hk & Hd & Hfirst & _); [|discriminate].
  injection Heq as -> ->. split; [exact Hk|].
  intros j Hj Hq. specialize (Hfirst j q' d Hj Hq Hd). lia.
Qed.

Lemma nearest_quantity_index p qs i q :
  nearest_quantity p qs 0 None None = Some (Some (i, q)) → qs !! i = Some q.
Proof.
  intros H. apply nearest_quantity_found in H
    as [[H _] | (k & q' & d & H & Hk & _)]; [discriminate|].
  injection H as -> ->. exact Hk.
Qed.

Lemma values_insert_submseteq (m : gmap string Z) k n :
  (map_to_list (<[k := n]> m)).*2 ⊆+ n :: (map_to_list m).*2.
Proof.
  destruct (m !! k) as [v|] eqn:E.
  - rewrite <- insert_delete_eq.
    rewrite map_to_list_insert by apply lookup_delete_eq.
    rewrite <- (map_to_list_delete m k v E). simpl.
    apply submseteq_skip, submseteq_cons. reflexivity.
  - rewrite map_to_list_insert by exact E. reflexivity.
Qed.

Lemma match_loop_spec int_text items : ∀ quantities matched m,
  match_loop int_text items quantities matched = Some m →
  (∀ k, is_Some (m !! k) →
        is_Some (matched !! k) ∨ ∃ it, it ∈ items ∧ text it = k) ∧
  (map_to_list m).*2 ⊆+
    (map_to_list matched).*2 ++ omap (fun q => int_text (text q)) quantities ∧
  (size m <= size matched + length items)%nat.
Proof.
  induction items as [|item rest IH]; intros quantities matched m H;
    simpl in H.
  - injection H as <-. split; [auto|]. split; [|lia].
    apply submseteq_inserts_r. reflexivity.
  - destruct (get_box item) as [b|]; [|discriminate].
    destruct quantities as [|q0 qs].
    { injection H as <-. split; [auto|]. split; [|simpl; lia].
      apply submseteq_inserts_r. reflexivity. }
    set (quantities := q0 :: qs) in *.
    destruct (nearest_quantity _ quantities 0 None None)
      as [[[i best]|]|] eqn:En; [| |discriminate].
    + destruct (int_text (text best)) as [n|] eqn:En'; [|discriminate].
      apply nearest_quantity_index in En.
      apply IH in H as (Hkeys & Hvals & Hsize).
      split; [|split].
      * intros k Hk. destruct (Hkeys k Hk) as [Hin | (it & Hit & <-)].
        -- destruct (decide (text item = k)) as [<- | Hne].
           ++ right. exists item. split; [left | reflexivity].
           ++ left. rewrite lookup_insert_ne in Hin by exact Hne. exact Hin.
        -- right. exists it. split; [right; exact Hit | reflexivity].
      * etransitivity; [exact Hvals|].
        rewrite (delete_Permutation quantities i best En) at 2.
        cbn [omap list_omap]. rewrite En'.
        rewrite <- Permutation_middle.
        change (n :: (map_to_list matched).*2 ++
                  omap (fun q => int_text (text q)) (delete i quantities))
          with ((n :: (map_to_list matched).*2) ++
                  omap (fun q => int_text (text q)) (delete i quantities)).
        apply submseteq_app; [apply values_insert_submseteq | reflexivity].
      * pose proof (map_size_insert (text item) n matched) as Hs.
        destruct (matched !! text item); simpl in *; lia.
    + apply IH in H as (Hkeys & Hvals & Hsize).
      split; [|split].
      * intros k Hk. destruct (Hkeys k Hk) as [Hin | (it & Hit & <-)];
          [left; exact Hin|].
        right. exists it. split; [right; exact Hit | reflexivity].
      * exact Hvals.
      * simpl. lia.
Qed.

Lemma filter_omap_text int_text (rs : list OCRResult) :
  omap (fun q => int_text (text q)) (filter (is_quantity int_text) rs) =
  omap (fun q => int_text (text q)) rs.
Proof.
  induction rs as [|r rs IH]; [reflexivity|].
  destruct (int_text (text r)) as [n|] eqn:E.
  - rewrite filter_cons_True by (unfold is_quantity; rewrite E; eauto).
    cbn [omap list_omap]. rewrite E. f_equal. exact IH.
  - rewrite filter_cons_False
      by (unfold is_quantity; rewrite E; intros [? ?]; discriminate).
    cbn [omap list_omap]. rewrite E. exact IH.
Qed.

Lemma match_items_and_quantities_unfold int_text (rs : list OCRResult) :
  match_items_and_quantities int_text rs =
  match_loop int_text (filter (is_item int_text) rs)
    (filter (is_quantity int_text) rs) ∅.
Proof.
  unfold match_items_and_quantities. rewrite split_results_spec.
  reflexivity.
Qed.

(** X18.  [WarehouseScan.match_items_and_quantities]: whenever the matching
    returns a dictionary, every key is the text of a recognition result
    that does not read as an integer, the values, counted with
    multiplicity, are among the integers read from the results (no
    recognised quantity is assigned twice), and there are at most as many
    entries as item results. *)
Theorem matched_from_results int_text rs m :
  match_items_and_quantities int_text rs = Some m →
  (∀ k n, m !! k = Some n →
          int_text k = None ∧ ∃ it, it ∈ rs ∧ text it = k) ∧
  (map_to_list m).*2 ⊆+ omap (fun r => int_text (text r)) rs ∧
  (size m <= length (filter (is_item int_text) rs))%nat.
Proof.
  rewrite match_items_and_quantities_unfold. intros H.
  apply match_loop_spec in H as (Hkeys & Hvals & Hsize).
  split; [|split].
  - intros k n Hk. destruct (Hkeys k) as [[? Hin] | (it & Hit & <-)];
      [eauto | rewrite lookup_empty in Hin; discriminate |].
    apply list_elem_of_filter in Hit as [Hit Hin].
    split; [exact Hit | eauto].
  - rewrite map_to_list_empty, filter_omap_text in Hvals. exact Hvals.
  - rewrite map_size_empty in Hsize. exact Hsize.
Qed.

Lemma matched_from_results_witness :
  match_items_and_quantities decimal_text warehouse_page =
    Some warehouse_page_stock ∧
  (∀ k n, warehouse_page_stock !! k = Some n →
          decimal_text k = None ∧ ∃ it, it ∈ warehouse_page ∧ text it = k) ∧
  (map_to_list warehouse_page_stock).*2 ⊆+
    omap (fun r => decimal_text (text r)) warehouse_page ∧
  (size warehouse_page_stock <=
   length (filter (is_item decimal_text) warehouse_page))%nat.
Proof.
  assert (H : match_items_and_quantities decimal_text warehouse_page =
              Some warehouse_page_stock) by (vm_compute; reflexivity).
  split; [exact H|].
  apply (matched_from_results decimal_text warehouse_page
           warehouse_page_stock H).
Defined.

Lemma Forall_delete_quantity {A} (P : A → Prop) (l : list A) i :
  Forall P l → Forall P (delete i l).
Proof.
  intros H. apply Forall_forall. intros x Hx.
  rewrite Forall_forall in H. apply H.
  eapply list_elem_of_delete_inv. exact Hx.
Qed.

Lemma match_loop_error int_text items : ∀ quantities matched,
  Forall (is_quantity int_text) quantities →
  match_loop int_text items quantities matched = None ↔
  (∃ j it, (j <= length quantities)%nat ∧ items !! j = Some it ∧
           get_box it = None) ∨
  (items ≠ [] ∧ Exists (fun q => get_box q = None) quantities).
Proof.
  induction items as [|item rest IH]; intros quantities matched Hq; simpl.
  - split; [discriminate|]. intros [(j & it & _ & H & _) | [H _]];
      [discriminate | congruence].
  - destruct (get_box item) as [b|] eqn:Eb.
    2:{ split; [|reflexivity]. intros _. left. exists 0%nat, item.
        split; [lia|]. split; [reflexivity | exact Eb]. }
    destruct quantities as [|q0 qs].
    { split; [discriminate|]. intros [(j & it & Hj & H & Hit) | [_ H]].
      - simpl in Hj. assert (j = 0)%nat as -> by lia.
        injection H as <-. congruence.
      - inversion H. }
    set (quantities := q0 :: qs) in *.
    destruct (nearest_quantity _ quantities 0 None None) as [r|] eqn:En.
    + assert (Hok : ¬ Exists (fun q => get_box q = None) quantities).
      { intros Hex. eapply nearest_quantity_error in Hex.
        rewrite Hex in En. discriminate. }
      apply nearest_quantity_start in En
        as (k & q & d & -> & Hk & _); [|discriminate].
      assert (Hin : q ∈ quantities)
        by (eapply list_elem_of_lookup_2; exact Hk).
      rewrite Forall_forall in Hq. destruct (Hq q Hin) as [n ->].
      rewrite IH by (apply Forall_delete_quantity, Forall_forall; exact Hq).
      assert (Hlen : length quantities = S (length (delete k quantities))).
      { rewrite length_delete by eauto.
        apply lookup_lt_Some in Hk. lia. }
      split.
      * intros [(j & it & Hj & Hit & Hb) | [_ Hex]].
        -- left. exists (S j), it. split; [lia|]. split; assumption.
        -- exfalso. apply Hok. apply Exists_exists in Hex as (x & Hx & Hb).
           apply Exists_exists. exists x. split; [|exact Hb].
           eapply list_elem_of_delete_inv. exact Hx.
      * intros [(j & it & Hj & Hit & Hb) | [_ Hex]]; [|contradiction].
        destruct j as [|j]; simpl in Hit.
        -- injection Hit as <-. congruence.
        -- left. exists j, it. split; [lia|]. split; assumption.
    + split; [|reflexivity]. intros _. right. split; [discriminate|].
      eapply nearest_quantity_error. exact En.
Qed.

(** X19.  [WarehouseScan.match_items_and_quantities], [get_box]: the
    matching raises the [ValueError] of [get_box] exactly when one of the
    first [q + 1] item results has a malformed box, [q] being the number of
    quantity results, or there is an item result and some quantity result
    has a malformed box.  So a malformed first item raises even without any
    quantity, and an item after the first [q + 1] is never inspected. *)
Theorem match_raises_iff int_text (rs : list OCRResult) :
  match_items_and_quantities int_text rs = None ↔
  (∃ j it, (j <= length (filter (is_quantity int_text) rs))%nat ∧
           filter (is_item int_text) rs !! j = Some it ∧
           get_box it = None) ∨
  (filter (is_item int_text) rs ≠ [] ∧
   Exists (fun q => is_quantity int_text q ∧ get_box q = None) rs).
Proof.
  rewrite match_items_and_quantities_unfold.
  rewrite match_loop_error
    by (apply Forall_forall; intros q Hq;
        apply list_elem_of_filter in Hq as [Hq _]; exact Hq).
  assert (Hex : Exists (fun q => get_box q = None)
                  (filter (is_quantity int_text) rs) ↔
                Exists (fun q => is_quantity int_text q ∧ get_box q = None) rs).
  { rewrite !Exists_exists. split.
    - intros (q & Hq & Hb). apply list_elem_of_filter in Hq as [Hq Hin].
      exists q. auto.
    - intros (q & Hin & Hq & Hb). exists q. split; [|exact Hb].
      apply list_elem_of_filter. auto. }
  rewrite Hex. reflexivity.
Qed.

Lemma match_loop_size int_text items : ∀ quantities matched m,
  match_loop int_text items quantities matched = Some m →
  NoDup (text <$> items) →
  (∀ it, it ∈ items → matched !! text it = None) →
  size m = (size matched + length items `min` length quantities)%nat.
Proof.
  induction items as [|item rest IH]; intros quantities matched m H Hnd Hfresh;
    simpl in H.
  - injection H as <-. simpl. lia.
  - destruct (get_box item) as [b|]; [|discriminate].
    destruct quantities as [|q0 qs]; [injection H as <-; simpl; lia|].
    set (quantities := q0 :: qs) in *.
    destruct (nearest_quantity _ quantities 0 None None) as [r|] eqn:En;
      [|discriminate].
    apply nearest_quantity_start in En
      as (k & q & d & -> & Hk & _); [|discriminate].
    destruct (int_text (text q)) as [n|]; [|discriminate].
    rewrite fmap_cons in Hnd. apply NoDup_cons in Hnd as [Hnotin Hnd].
    apply IH in H; [| exact Hnd |].
    + rewrite H. rewrite map_size_insert, Hfresh by left.
      rewrite length_delete by eauto. simpl length.
      apply lookup_lt_Some in Hk. simpl in Hk. lia.
    + intros it Hit. rewrite lookup_insert_ne; [apply Hfresh; right; exact Hit|].
      intros Heq. apply Hnotin. rewrite Heq.
      apply list_elem_of_fmap. exists it. auto.
Qed.

Lemma elem_of_delete_other {A} (l : list A) k q x :
  l !! k = Some q → q ≠ x → x ∈ l → x ∈ delete k l.
Proof.
  intros Hk Hne Hx. apply list_elem_of_lookup in Hx as [j Hj].
  assert (j ≠ k) by (intros ->; congruence).
  destruct (decide (j < k)%nat).
  - apply (list_elem_of_lookup_2 _ j).
    rewrite list_lookup_delete_lt by assumption. exact Hj.
  - destruct j as [|j]; [lia|].
    apply (list_elem_of_lookup_2 _ j).
    rewrite list_lookup_delete_ge by lia. exact Hj.
Qed.

Lemma increasing_delete idx p : increasing idx → increasing (delete p idx).
Proof.
  intros Hinc a b k k' Hab Ha Hb.
  rewrite list_lookup_delete in Ha, Hb.
  destruct (decide (a < p)%nat), (decide (b < p)%nat);
    (eapply Hinc; [|exact Ha | exact Hb]); lia.
Qed.

Lemma increasing_lookup_lt idx p p' k k' :
  increasing idx → idx !! p = Some k → idx !! p' = Some k' →
  (k' < k)%nat → (p' < p)%nat.
Proof.
  intros Hinc Hp Hp' Hlt.
  destruct (lt_eq_lt_dec p' p) as [[H | ->] | H]; [exact H | |].
  - rewrite Hp in Hp'. injection Hp' as <-. lia.
  - pose proof (Hinc _ _ _ _ H Hp Hp'). lia.
Qed.

Lemma increasing_not_in_delete idx p k :
  increasing idx → idx !! p = Some k → k ∉ delete p idx.
Proof.
  intros Hinc Hp Hin. apply list_elem_of_lookup in Hin as [a Ha].
  rewrite list_lookup_delete in Ha. case_decide as Hlt.
  - pose proof (Hinc _ _ _ _ Hlt Ha Hp). lia.
  - pose proof (Hinc p (S a) _ _ ltac:(lia) Hp Ha). lia.
Qed.

Lemma increasing_seq n : increasing (seq 0 n).
Proof.
  intros p p' k k' Hlt Hp Hp'.
  apply lookup_seq in Hp as [-> _]. apply lookup_seq in Hp' as [-> _]. lia.
Qed.

Lemma Forall2_lookup_seq {A} (l : list A) :
  Forall2 (fun q k => l !! k = Some q) l (seq 0 (length l)).
Proof.
  apply Forall2_same_length_lookup. split; [rewrite length_seq; reflexivity|].
  intros i q k Hq Hk. apply lookup_seq in Hk as [-> _]. exact Hq.
Qed.

(** The assignment the loop builds, in the positions of the quantities it
    started from: [ks] lists, item by item, the position taken; each is
    the first position, among those not taken before, whose quantity is
    at least distance from the item. *)
Lemma match_loop_assignment int_text (qs0 : list OCRResult) items :
  ∀ cur idx matched m,
  match_loop int_text items cur matched = Some m →
  Forall2 (fun q k => qs0 !! k = Some q) cur idx →
  increasing idx →
  NoDup (text <$> items) →
  ∃ ks,
    length ks = (length items `min` length cur)%nat ∧
    (∀ k, k ∈ ks → k ∈ idx) ∧
    NoDup ks ∧
    (∀ t, t ∉ text <$> take (length ks) items → m !! t = matched !! t) ∧
    ∀ j k it, ks !! j = Some k → items !! j = Some it →
      ∃ pt q d n,
        item_point_of it = Some pt ∧ qs0 !! k = Some q ∧
        quantity_distance pt q = Some d ∧ int_text (text q) = Some n ∧
        m !! text it = Some n ∧
        ∀ k', k' ∈ idx → k' ∉ take j ks →
          ∃ q' d', qs0 !! k' = Some q' ∧
                   quantity_distance pt q' = Some d' ∧
                   d <= d' ∧ ((k' < k)%nat → d < d').
Proof.
  induction items as [|item rest IH]; intros cur idx matched m H HF Hinc Hnd.
  - simpl in H. injection H as <-. exists []. simpl.
    split; [reflexivity|]. split; [intros k Hk; inversion Hk|].
    split; [constructor|]. split; [reflexivity|].
    intros j k it Hj. discriminate.
  - simpl in H. destruct (get_box item) as [b|] eqn:Eb; [|discriminate].
    destruct cur as [|q0 cur'].
    { injection H as <-. exists []. simpl.
      split; [reflexivity|]. split; [intros k Hk; inversion Hk|].
      split; [constructor|]. split; [reflexivity|].
      intros j k it Hj. discriminate. }
    set (cur := q0 :: cur') in *.
    set (pt := (rect_x b + rect_w b, rect_y b)) in *.
    destruct (nearest_quantity pt cur 0 None None) as [r|] eqn:En;
      [|discriminate].
    assert (Hok : ∀ q', q' ∈ cur → is_Some (quantity_distance pt q')).
    { intros q' Hq'. unfold quantity_distance.
      destruct (get_box q') as [b'|] eqn:Eb'; [simpl; eauto|].
      exfalso. assert (Hex : Exists (fun q => get_box q = None) cur)
        by (apply Exists_exists; eauto).
      apply (nearest_quantity_error pt cur 0 None None) in Hex. congruence. }
    apply nearest_quantity_start in En
      as (p & q & d & -> & Hp & Hd & Hfirst & Hall); [|discriminate].
    destruct (int_text (text q)) as [n|] eqn:En'; [|discriminate].
    destruct (Forall2_lookup_l _ _ _ _ _ HF Hp) as (k & Hk & Hqk).
    rewrite fmap_cons in Hnd. apply NoDup_cons in Hnd as [Hfresh Hnd].
    destruct (IH (delete p cur) (delete p idx) _ m H
                (Forall2_delete _ _ _ p HF) (increasing_delete _ p Hinc) Hnd)
      as (ks & Hlen & Hsub & Hndk & Hframe & Hsteps).
    exists (k :: ks).
    assert (Hlenp : (p < length cur)%nat) by (eapply lookup_lt_Some; eauto).
    split; [|split; [|split; [|split]]].
    + cbn [length]. rewrite Hlen, length_delete by eauto. cbn [length] in *.
      lia.
    + intros k' Hk'. apply elem_of_cons in Hk' as [-> | Hk'].
      * eapply list_elem_of_lookup_2; eauto.
      * eapply list_elem_of_delete_inv. apply Hsub. exact Hk'.
    + apply NoDup_cons. split; [|exact Hndk].
      intros Hin. apply Hsub in Hin.
      exact (increasing_not_in_delete idx p k Hinc Hk Hin).
    + intros t Ht. cbn [length take fmap list_fmap] in Ht.
      apply not_elem_of_cons in Ht as [Hne Ht].
      rewrite (Hframe t Ht). apply lookup_insert_ne. congruence.
    + intros j k2 it Hj Hit. destruct j as [|j]; simpl in Hj, Hit.
      * injection Hj as <-. injection Hit as <-.
        exists pt, q, d, n.
        split; [unfold item_point_of; rewrite Eb; reflexivity|].
        split; [exact Hqk|]. split; [exact Hd|]. split; [exact En'|].
        split.
        -- rewrite Hframe; [apply lookup_insert_eq|].
           intros Hin. apply Hfresh.
           apply list_elem_of_fmap in Hin as (it' & Heq & Hin).
           apply list_elem_of_fmap. exists it'. split; [exact Heq|].
           apply elem_of_take in Hin as (i & Hi & _).
           eapply list_elem_of_lookup_2; eauto.
        -- intros k' Hk' _.
           apply list_elem_of_lookup in Hk' as [p' Hp'].
           destruct (Forall2_lookup_r _ _ _ _ _ HF Hp') as (q' & Hq' & Hqk').
           destruct (Hok q') as [d' Hd'];
             [eapply list_elem_of_lookup_2; eauto|].
           exists q', d'. split; [exact Hqk'|]. split; [exact Hd'|]. split.
           ++ apply (Hall q' d'); [|exact Hd'].
              eapply list_elem_of_lookup_2; eauto.
           ++ intros Hlt. apply (Hfirst p' q' d'); [|exact Hq' | exact Hd'].
              eapply increasing_lookup_lt; eauto.
      * destruct (Hsteps j k2 it Hj Hit)
          as (pt' & q' & d' & n' & Hpt & Hq' & Hd' & Hn' & Hm & Hnear).
        exists pt', q', d', n'. repeat (split; [assumption|]).
        intros k' Hk' Hnot. cbn [take] in Hnot.
        apply not_elem_of_cons in Hnot as [Hne Hnot].
        apply Hnear; [|exact Hnot].
        apply (elem_of_delete_other idx p k k'); [exact Hk | congruence |].
        exact Hk'.
Qed.

(** X20.  [WarehouseScan.match_items_and_quantities]: when the item results
    have pairwise different texts and the matching returns, the
    dictionary is the greedy assignment.  Its keys are the texts of the
    first [min(items, quantities)] item results; taking the items in
    order, each is given the number of the quantity result, among those
    not given to an earlier item, whose lower left corner is nearest (in
    Manhattan distance) to the upper right corner of the item's box, the
    first such quantity in reading order when several are as near.  [ks]
    lists the positions of the quantities so assigned. *)
Theorem match_distinct_items int_text (rs : list OCRResult) m :
  match_items_and_quantities int_text rs = Some m →
  NoDup (text <$> filter (is_item int_text) rs) →
  ∃ ks : list nat,
    length ks = (length (filter (is_item int_text) rs) `min`
                 length (filter (is_quantity int_text) rs))%nat ∧
    NoDup ks ∧
    size m = length ks ∧
    (∀ t, t ∉ text <$> take (length ks) (filter (is_item int_text) rs) →
          m !! t = None) ∧
    ∀ j k it,
      ks !! j = Some k → filter (is_item int_text) rs !! j = Some it →
      ∃ pt q d n,
        item_point_of it = Some pt ∧
        filter (is_quantity int_text) rs !! k = Some q ∧
        quantity_distance pt q = Some d ∧
        int_text (text q) = Some n ∧
        m !! text it = Some n ∧
        ∀ k' q', k' ∉ take j ks →
          filter (is_quantity int_text) rs !! k' = Some q' →
          ∃ d', quantity_distance pt q' = Some d' ∧
                d <= d' ∧ ((k' < k)%nat → d < d').
Proof.
  rewrite match_items_and_quantities_unfold. intros H Hnd.
  set (items := filter (is_item int_text) rs) in *.
  set (qs := filter (is_quantity int_text) rs) in *.
  destruct (match_loop_assignment int_text qs items qs (seq 0 (length qs)) ∅ m
              H (Forall2_lookup_seq qs) (increasing_seq _) Hnd)
    as (ks & Hlen & _ & Hndk & Hframe & Hsteps).
  exists ks. split; [exact Hlen|]. split; [exact Hndk|]. split; [|split].
  - apply match_loop_size in H; [| exact Hnd | intros; apply lookup_empty].
    rewrite map_size_empty in H. rewrite H, Hlen. reflexivity.
  - intros t Ht. rewrite (Hframe t Ht). apply lookup_empty.
  - intros j k it Hj Hit.
    destruct (Hsteps j k it Hj Hit)
      as (pt & q & d & n & Hpt & Hq & Hd & Hn & Hm & Hnear).
    exists pt, q, d, n. repeat (split; [assumption|]).
    intros k' q' Hnot Hq'.
    destruct (Hnear k') as (q'' & d' & Hq'' & Hd' & Hle & Hlt).
    + apply elem_of_seq. apply lookup_lt_Some in Hq'. lia.
    + exact Hnot.
    + rewrite Hq' in Hq''. injection Hq'' as <-. eauto.
Qed.

Lemma match_distinct_items_witness :
  match_items_and_quantities decimal_text warehouse_page =
    Some warehouse_page_stock ∧
  NoDup (text <$> filter (is_item decimal_text) warehouse_page) ∧
  ∃ ks : list nat,
    length ks = (length (filter (is_item decimal_text) warehouse_page) `min`
                 length (filter (is_quantity decimal_text) warehouse_page))%nat ∧
    NoDup ks ∧
    size warehouse_page_stock = length ks ∧
    (∀ t, t ∉ text <$> take (length ks)
                         (filter (is_item decimal_text) warehouse_page) →
          warehouse_page_stock !! t = None) ∧
    ∀ j k it,
      ks !! j = Some k →
      filter (is_item decimal_text) warehouse_page !! j = Some it →
      ∃ pt q d n,
        item_point_of it = Some pt ∧
        filter (is_quantity decimal_text) warehouse_page !! k = Some q ∧
        quantity_distance pt q = Some d ∧
        decimal_text (text q) = Some n ∧
        warehouse_page_stock !! text it = Some n ∧
        ∀ k' q', k' ∉ take j ks →
          filter (is_quantity decimal_text) warehouse_page !! k' = Some q' →
          ∃ d', quantity_distance pt q' = Some d' ∧
                d <= d' ∧ ((k' < k)%nat → d < d').
Proof.
  assert (H : match_items_and_quantities decimal_text warehouse_page =
              Some warehouse_page_stock) by (vm_compute; reflexivity).
  assert (Hnd : NoDup (text <$> filter (is_item decimal_text) warehouse_page)).
  { apply (bool_decide_unpack _). vm_compute. exact I. }
  split; [exact H|]. split; [exact Hnd|].
  apply (match_distinct_items decimal_text warehouse_page
           warehouse_page_stock H Hnd).
Defined.

(** ** Filtering the shop page *)

Lemma classify_results_spec (rs : list OCRResult) : ∀ category signs,
  classify_results rs category signs =
  (category ++ filter eligible rs, signs ++ filter sold_out_sign rs).
Proof.
  induction rs as [|r rs IH]; intros category signs; simpl.
  - rewrite !app_nil_r. reflexivity.
  - destruct (above_threshold r) eqn:Ea.
    + destruct (contains purchase_limit_mark (text r)) eqn:El;
        destruct (contains sold_out_mark (text r)) eqn:Es; simpl;
        rewrite IH.
      * rewrite (filter_cons_False eligible)
          by (unfold eligible; intros (_ & ? & _); congruence).
        rewrite (filter_cons_True sold_out_sign) by (split; assumption).
        rewrite <- app_assoc. reflexivity.
      * rewrite (filter_cons_False eligible)
          by (unfold eligible; intros (_ & ? & _); congruence).
        rewrite (filter_cons_False sold_out_sign)
          by (unfold sold_out_sign; intros (_ & ?); congruence).
        reflexivity.
      * rewrite (filter_cons_False eligible)
          by (unfold eligible; intros (_ & _ & ?); congruence).
        rewrite (filter_cons_True sold_out_sign) by (split; assumption).
        rewrite <- app_assoc. reflexivity.
      * rewrite (filter_cons_True eligible) by (repeat split; assumption).
        rewrite (filter_cons_False sold_out_sign)
          by (unfold sold_out_sign; intros (_ & ?); congruence).
        rewrite <- app_assoc. reflexivity.
    + rewrite IH.
      rewrite (filter_cons_False eligible)
        by (unfold eligible; intros (? & _); congruence).
      rewrite (filter_cons_False sold_out_sign)
        by (unfold sold_out_sign; intros (? & _); congruence).
      reflexivity.
Qed.

Lemma filter_eligible_ingredients_unfold box_item (rs : list OCRResult) :
  filter_eligible_ingredients box_item rs =
  remove_sold_out box_item (filter sold_out_sign rs) (filter eligible rs).
Proof.
  unfold filter_eligible_ingredients. rewrite classify_results_spec.
  reflexivity.
Qed.

Lemma nearest_ingredient_found box_item sign sp sy category :
  box_item (box sign) 1%nat = Some sy →
  ∀ i min best r,
  nearest_ingredient box_item sign sp category i min best = Some r →
  (r = best ∧
   ∀ q x y, q ∈ category → box_item (box q) 0%nat = Some x →
            box_item (box q) 1%nat = Some y → sy < y →
            ∃ m, min = Some m ∧ m <= calculate_distance sp (x, y)) ∨
  (∃ k q x y,
     r = Some ((i + k)%nat, q) ∧ category !! k = Some q ∧
     box_item (box q) 0%nat = Some x ∧ box_item (box q) 1%nat = Some y ∧
     sy < y ∧
     (∀ m, min = Some m → calculate_distance sp (x, y) < m) ∧
     (∀ q' x' y', q' ∈ category → box_item (box q') 0%nat = Some x' →
                  box_item (box q') 1%nat = Some y' → sy < y' →
                  calculate_distance sp (x, y) <=
                  calculate_distance sp (x', y'))).
Proof.
  intros Hsy. induction category as [|q0 qs IH]; intros i min best r H;
    simpl in H.
  - injection H as <-. left. split; [reflexivity|].
    intros q x y Hq. inversion Hq.
  - destruct (box_item (box q0) 1%nat) as [y0|] eqn:Ey; [|discriminate].
    rewrite Hsy in H. destruct (y0 <=? sy) eqn:Ele.
    { apply Z.leb_le in Ele. apply IH in H
        as [[-> Hall] |
            (k & q & x & y & -> & Hk & Hx & Hy & Hlt & Hmin & Hall)].
      - left. split; [reflexivity|]. intros q x y Hq Hx Hy Hlt.
        apply elem_of_cons in Hq as [-> | Hq].
        + rewrite Ey in Hy. injection Hy as <-. lia.
        + apply (Hall q x y); assumption.
      - right. exists (S k), q, x, y.
        split; [f_equal; f_equal; lia|]. split; [exact Hk|].
        split; [exact Hx|]. split; [exact Hy|]. split; [exact Hlt|].
        split; [exact Hmin|]. intros q' x' y' Hq' Hx' Hy' Hlt'.
        apply elem_of_cons in Hq' as [-> | Hq'].
        + rewrite Ey in Hy'. injection Hy' as <-. lia.
        + apply (Hall q' x' y'); assumption. }
    apply Z.leb_gt in Ele.
    destruct (box_item (box q0) 0%nat) as [x0|] eqn:Ex; [|discriminate].
    set (d0 := calculate_distance sp (x0, y0)) in *.
    destruct (match min with None => true | Some m => d0 <? m end) eqn:Ec.
    + assert (Hlt0 : ∀ m, min = Some m → d0 < m).
      { intros m ->. apply Z.ltb_lt. exact Ec. }
      right. apply IH in H
        as [[-> Hall] |
            (k & q & x & y & -> & Hk & Hx & Hy & Hlt & Hmin & Hall)].
      * exists 0%nat, q0, x0, y0. rewrite Nat.add_0_r.
        split; [reflexivity|]. split; [reflexivity|]. split; [exact Ex|].
        split; [exact Ey|]. split; [exact Ele|]. split; [exact Hlt0|].
        intros q' x' y' Hq' Hx' Hy' Hlt'.
        apply elem_of_cons in Hq' as [-> | Hq'].
        -- rewrite Ex in Hx'. rewrite Ey in Hy'.
           injection Hx' as <-. injection Hy' as <-. fold d0. lia.
        -- destruct (Hall q' x' y' Hq' Hx' Hy' Hlt') as (m & Hm & Hle).
           injection Hm as <-. exact Hle.
      * exists (S k), q, x, y. specialize (Hmin d0 eq_refl).
        split; [f_equal; f_equal; lia|]. split; [exact Hk|].
        split; [exact Hx|]. split; [exact Hy|]. split; [exact Hlt|].
        split; [intros m Hm; specialize (Hlt0 m Hm); lia|].
        intros q' x' y' Hq' Hx' Hy' Hlt'.
        apply elem_of_cons in Hq' as [-> | Hq'].
        -- rewrite Ex in Hx'. rewrite Ey in Hy'.
           injection Hx' as <-. injection Hy' as <-. fold d0. lia.
        -- apply (Hall q' x' y'); assumption.
    + destruct min as [m|]; [|discriminate]. apply Z.ltb_ge in Ec.
      apply IH in H
        as [[-> Hall] |
            (k & q & x & y & -> & Hk & Hx & Hy & Hlt & Hmin & Hall)].
      * left. split; [reflexivity|]. intros q' x' y' Hq' Hx' Hy' Hlt'.
        apply elem_of_cons in Hq' as [-> | Hq'].
        -- rewrite Ex in Hx'. rewrite Ey in Hy'.
           injection Hx' as <-. injection Hy' as <-. fold d0. eauto.
        -- apply (Hall q' x' y'); assumption.
      * right. exists (S k), q, x, y. specialize (Hmin m eq_refl).
        split; [f_equal; f_equal; lia|]. split; [exact Hk|].
        split; [exact Hx|]. split; [exact Hy|]. split; [exact Hlt|].
        split; [intros m' Hm'; injection Hm' as <-; lia|].
        intros q' x' y' Hq' Hx' Hy' Hlt'.
        apply elem_of_cons in Hq' as [-> | Hq'].
        -- rewrite Ex in Hx'. rewrite Ey in Hy'.
           injection Hx' as <-. injection Hy' as <-. fold d0. lia.
        -- apply (Hall q' x' y'); assumption.
Qed.

(** What the loop has read when it ends without an exception. *)
Lemma nearest_ingredient_defined box_item sign sp sy category :
  box_item (box sign) 1%nat = Some sy →
  ∀ i min best r,
  nearest_ingredient box_item sign sp category i min best = Some r →
  ∀ q, q ∈ category →
       ∃ y, box_item (box q) 1%nat = Some y ∧
            (sy < y → is_Some (box_item (box q) 0%nat)).
Proof.
  intros Hsy. induction category as [|q0 qs IH]; intros i min best r H q Hq;
    simpl in H; [inversion Hq|].
  destruct (box_item (box q0) 1%nat) as [y0|] eqn:Ey; [|discriminate].
  rewrite Hsy in H. destruct (y0 <=? sy) eqn:Ele.
  - apply Z.leb_le in Ele. apply elem_of_cons in Hq as [-> | Hq].
    + exists y0. split; [exact Ey | lia].
    + eapply IH; eassumption.
  - destruct (box_item (box q0) 0%nat) as [x0|] eqn:Ex; [|discriminate].
    apply elem_of_cons in Hq as [-> | Hq].
    + exists y0. split; [exact Ey | eauto].
    + destruct (match min with None => true | Some m => _ end);
        eapply IH; eassumption.
Qed.

(** The choice of one sign, from the empty start. *)
Lemma nearest_ingredient_start box_item sign sx sy category r :
  box_item (box sign) 1%nat = Some sy →
  nearest_ingredient box_item sign (sx, sy) category 0 None None = Some r →
  (r = None ∧ ∀ q, q ∈ category → ¬ below box_item sign q) ∨
  (∃ k q x y,
     r = Some (k, q) ∧ category !! k = Some q ∧
     box_item (box q) 0%nat = Some x ∧ box_item (box q) 1%nat = Some y ∧
     sy < y ∧
     ∀ q' x' y', q' ∈ category → box_item (box q') 0%nat = Some x' →
                 box_item (box q') 1%nat = Some y' → sy < y' →
                 calculate_distance (sx, sy) (x, y) <=
                 calculate_distance (sx, sy) (x', y')).
Proof.
  intros Hsy H.
  pose proof (nearest_ingredient_defined _ _ _ _ _ Hsy _ _ _ _ H) as Hdef.
  apply (nearest_ingredient_found _ _ _ _ _ Hsy) in H
    as [[-> Hall] | (k & q & x & y & -> & Hk & Hx & Hy & Hlt & _ & Hall)].
  - left. split; [reflexivity|]. intros q Hq (y & sy' & Hy & Hsy' & Hlt).
    rewrite Hsy in Hsy'. injection Hsy' as <-.
    destruct (Hdef q Hq) as (y' & Hy' & Hx).
    rewrite Hy in Hy'. injection Hy' as <-.
    destruct (Hx Hlt) as [x Hx'].
    destruct (Hall q x y Hq Hx' Hy Hlt) as (m & Hm & _). discriminate.
  - right. exists k, q, x, y. auto 10.
Qed.

Lemma remove_sold_out_sublist box_item signs : ∀ category category',
  remove_sold_out box_item signs category = Some category' →
  category' `sublist_of` category ∧
  (length category <= length category' + length signs)%nat.
Proof.
  induction signs as [|sign rest IH]; intros category category' H;
    simpl in H.
  - injection H as <-. split; [reflexivity | lia].
  - destruct (box_item (box sign) 0%nat) as [sx|]; [|discriminate].
    destruct (box_item (box sign) 1%nat) as [sy|] eqn:Hsy; [|discriminate].
    destruct (nearest_ingredient _ _ _ category 0 None None) as [r|] eqn:En;
      [|discriminate].
    apply (nearest_ingredient_start _ _ _ _ _ _ Hsy) in En
      as [[-> _] | (k & q & x & y & -> & Hk & _)].
    + apply IH in H as [Hsub Hlen]. split; [exact Hsub | simpl; lia].
    + apply IH in H as [Hsub Hlen]. split.
      * etransitivity; [exact Hsub | apply sublist_delete].
      * rewrite length_delete in Hlen by eauto.
        apply lookup_lt_Some in Hk. simpl. lia.
Qed.

Lemma remove_sold_out_keeps box_item signs : ∀ category category' r,
  remove_sold_out box_item signs category = Some category' →
  r ∈ category →
  (∀ sign, sign ∈ signs → ¬ below box_item sign r) →
  r ∈ category'.
Proof.
  induction signs as [|sign rest IH]; intros category category' r H Hr Hnb;
    simpl in H.
  - injection H as <-. exact Hr.
  - destruct (box_item (box sign) 0%nat) as [sx|]; [|discriminate].
    destruct (box_item (box sign) 1%nat) as [sy|] eqn:Hsy; [|discriminate].
    destruct (nearest_ingredient _ _ _ category 0 None None) as [c|] eqn:En;
      [|discriminate].
    apply (nearest_ingredient_start _ _ _ _ _ _ Hsy) in En
      as [[-> _] | (k & q & x & y & -> & Hk & _ & Hy & Hlt & _)].
    + apply (IH _ _ r) in H; [exact H | exact Hr |].
      intros s Hs. apply Hnb. right. exact Hs.
    + apply (IH _ _ r) in H; [exact H | |].
      * apply (elem_of_delete_other _ _ q); [exact Hk | | exact Hr].
        intros ->. apply (Hnb sign); [left|].
        exists y, sy. auto.
      * intros s Hs. apply Hnb. right. exact Hs.
Qed.

(** X21.  [ShopScan.filter_eligible_ingredients]: what the filter returns
    is a sub-list, in the original order, of the results whose score
    exceeds the threshold and whose text holds neither marker; each
    sold-out sign takes away at most one of them; without any sold-out
    sign nothing is taken away. *)
Theorem filter_eligible_sublist box_item (rs category : list OCRResult) :
  filter_eligible_ingredients box_item rs = Some category →
  category `sublist_of` filter eligible rs ∧
  (∀ r, r ∈ category → r ∈ rs ∧ eligible r) ∧
  (length (filter eligible rs) <=
   length category + length (filter sold_out_sign rs))%nat ∧
  (filter sold_out_sign rs = [] → category = filter eligible rs).
Proof.
  rewrite filter_eligible_ingredients_unfold. intros H.
  pose proof (remove_sold_out_sublist _ _ _ _ H) as [Hsub Hlen].
  split; [exact Hsub|]. split; [|split; [exact Hlen|]].
  - intros r Hr. apply (elem_of_sublist _ _ _ Hr) in Hsub as Hr'.
    clear Hr; rename Hr' into Hr.
    apply list_elem_of_filter in Hr as [He Hr]. auto.
  - intros Hnone. rewrite Hnone in H. simpl in H. congruence.
Qed.

Lemma filter_eligible_sublist_witness :
  filter_eligible_ingredients seq_item shop_page =
    Some [milk_label; flour_label] ∧
  [milk_label; flour_label] `sublist_of` filter eligible shop_page ∧
  (∀ r, r ∈ [milk_label; flour_label] → r ∈ shop_page ∧ eligible r) ∧
  (length (filter eligible shop_page) <=
   length [milk_label; flour_label] +
   length (filter sold_out_sign shop_page))%nat ∧
  (filter sold_out_sign shop_page = [] →
   [milk_label; flour_label] = filter eligible shop_page).
Proof.
  assert (H : filter_eligible_ingredients seq_item shop_page =
              Some [milk_label; flour_label]) by (vm_compute; reflexivity).
  split; [exact H|].
  apply (filter_eligible_sublist seq_item shop_page
           [milk_label; flour_label] H).
Defined.

(** X22.  [ShopScan.filter_eligible_ingredients]: an eligible result that
    lies strictly below no sold-out sign is never removed. *)
Theorem filter_eligible_keeps box_item (rs category : list OCRResult) r :
  filter_eligible_ingredients box_item rs = Some category →
  r ∈ rs → eligible r →
  (∀ sign, sign ∈ rs → sold_out_sign sign → ¬ below box_item sign r) →
  r ∈ category.
Proof.
  rewrite filter_eligible_ingredients_unfold. intros H Hr He Hnb.
  apply (remove_sold_out_keeps _ _ _ _ r) in H; [exact H | |].
  - apply list_elem_of_filter. auto.
  - intros sign Hs. apply list_elem_of_filter in Hs as [Hs Hin].
    apply Hnb; assumption.
Qed.

Lemma filter_eligible_keeps_witness :
  filter_eligible_ingredients seq_item shop_page =
    Some [milk_label; flour_label] ∧
  below seq_item sold_out_label flour_label ∧
  milk_label ∈ [milk_label; flour_label].
Proof.
  assert (H : filter_eligible_ingredients seq_item shop_page =
              Some [milk_label; flour_label]) by (vm_compute; reflexivity).
  assert (Hin : milk_label ∈ shop_page) by left.
  assert (He : eligible milk_label).
  { apply (bool_decide_unpack _). vm_compute. exact I. }
  assert (Hnb : ∀ sign, sign ∈ shop_page → sold_out_sign sign →
                        ¬ below seq_item sign milk_label).
  { apply (proj1 (Forall_forall
                    (fun sign => sold_out_sign sign →
                                 ¬ below seq_item sign milk_label)
                    shop_page)).
    apply (bool_decide_unpack _). vm_compute. exact I. }
  assert (Hb : below seq_item sold_out_label flour_label).
  { apply (bool_decide_unpack _). vm_compute. exact I. }
  split; [exact H|]. split; [exact Hb|].
  apply (filter_eligible_keeps seq_item shop_page [milk_label; flour_label]
           milk_label H Hin He Hnb).
Defined.

(** X23.  [ShopScan.filter_eligible_ingredients]: with a single sold-out
    sign on the page, either no eligible result lies strictly below the
    sign and all are returned, or exactly one is removed: one that lies
    strictly below the sign and whose upper left corner is nearest (in
    Manhattan distance) to the sign's upper left corner among the eligible
    results below the sign. *)
Theorem filter_eligible_one_sign box_item (rs category : list OCRResult) sign :
  filter_eligible_ingredients box_item rs = Some category →
  filter sold_out_sign rs = [sign] →
  (category = filter eligible rs ∧
   ∀ q, q ∈ rs → eligible q → ¬ below box_item sign q) ∨
  (∃ k q d,
     filter eligible rs !! k = Some q ∧
     category = delete k (filter eligible rs) ∧
     below box_item sign q ∧
     corner_distance box_item sign q = Some d ∧
     ∀ q' d', q' ∈ rs → eligible q' → below box_item sign q' →
              corner_distance box_item sign q' = Some d' → d <= d').
Proof.
  rewrite filter_eligible_ingredients_unfold. intros H Hone.
  rewrite Hone in H. simpl in H.
  destruct (box_item (box sign) 0%nat) as [sx|] eqn:Hsx; [|discriminate].
  destruct (box_item (box sign) 1%nat) as [sy|] eqn:Hsy; [|discriminate].
  destruct (nearest_ingredient _ _ _ (filter eligible rs) 0 None None)
    as [r|] eqn:En; [|discriminate].
  apply (nearest_ingredient_start _ _ _ _ _ _ Hsy) in En
    as [[-> Hnone] | (k & q & x & y & -> & Hk & Hx & Hy & Hlt & Hall)].
  - left. split; [congruence|]. intros q Hq He. apply Hnone.
    apply list_elem_of_filter. auto.
  - right. exists k, q, (calculate_distance (sx, sy) (x, y)).
    split; [exact Hk|]. split; [congruence|].
    split; [exists y, sy; auto|]. split.
    + unfold corner_distance, corner. rewrite Hsx, Hsy, Hx, Hy. reflexivity.
    + intros q' d' Hq' He' (y' & sy' & Hy' & Hsy' & Hlt') Hd'.
      rewrite Hsy in Hsy'. injection Hsy' as <-.
      unfold corner_distance, corner in Hd'.
      rewrite Hsx, Hsy, Hy' in Hd'.
      destruct (box_item (box q') 0%nat) as [x'|] eqn:Hx'; [|discriminate].
      injection Hd' as <-. apply (Hall q' x' y'); try assumption.
      apply list_elem_of_filter. auto.
Qed.

Lemma filter_eligible_one_sign_witness :
  filter_eligible_ingredients seq_item shop_page =
    Some [milk_label; flour_label] ∧
  filter sold_out_sign shop_page = [sold_out_label] ∧
  (([milk_label; flour_label] = filter eligible shop_page ∧
    ∀ q, q ∈ shop_page → eligible q → ¬ below seq_item sold_out_label q) ∨
   (∃ k q d,
      filter eligible shop_page !! k = Some q ∧
      [milk_label; flour_label] = delete k (filter eligible shop_page) ∧
      below seq_item sold_out_label q ∧
      corner_distance seq_item sold_out_label q = Some d ∧
      ∀ q' d', q' ∈ shop_page → eligible q' →
               below seq_item sold_out_label q' →
               corner_distance seq_item sold_out_label q' = Some d' →
               d <= d')).
Proof.
  assert (H : filter_eligible_ingredients seq_item shop_page =
              Some [milk_label; flour_label]) by (vm_compute; reflexivity).
  assert (Hone : filter sold_out_sign shop_page = [sold_out_label])
    by (vm_compute; reflexivity).
  split; [exact H|]. split; [exact Hone|].
  apply (filter_eligible_one_sign seq_item shop_page
           [milk_label; flour_label] sold_out_label H Hone).
Defined.

Lemma filter_eligible_elem box_item (rs category : list OCRResult) r :
  filter_eligible_ingredients box_item rs = Some category →
  r ∈ category → r ∈ rs ∧ eligible r.
Proof.
  rewrite filter_eligible_ingredients_unfold. intros H Hr.
  apply remove_sold_out_sublist in H as [Hsub _].
  apply (elem_of_sublist _ _ _ Hr) in Hsub.
  apply list_elem_of_filter in Hsub as [He Hin]. auto.
Qed.

Lemma corner_is_Some box_item r :
  is_Some (corner box_item r) ↔
  is_Some (box_item (box r) 0%nat) ∧ is_Some (box_item (box r) 1%nat).
Proof.
  unfold corner. destruct (box_item (box r) 0%nat), (box_item (box r) 1%nat);
    split; try (intros [? ?]; discriminate); try (intros [[? ?] [? ?]];
    discriminate); eauto.
Qed.

Lemma nearest_ingredient_total box_item sign sp category :
  is_Some (box_item (box sign) 1%nat) →
  Forall (fun q => is_Some (corner box_item q)) category →
  ∀ i min best,
    is_Some (nearest_ingredient box_item sign sp category i min best).
Proof.
  intros [sy Hsy] Hall. induction Hall as [|q qs Hq _ IH];
    intros i min best; simpl; [eauto|].
  apply corner_is_Some in Hq as [[x Hx] [y Hy]].
  rewrite Hy, Hsy, Hx. destruct (y <=? sy); [apply IH|].
  destruct (match min with None => true | Some m => _ end); apply IH.
Qed.

Lemma remove_sold_out_total box_item signs : ∀ category,
  Forall (fun q => is_Some (corner box_item q)) signs →
  Forall (fun q => is_Some (corner box_item q)) category →
  is_Some (remove_sold_out box_item signs category).
Proof.
  induction signs as [|sign rest IH]; intros category Hs Hc; simpl; [eauto|].
  apply Forall_cons in Hs as [Hsign Hs].
  apply corner_is_Some in Hsign as [[sx Hsx] [sy Hsy]].
  rewrite Hsx, Hsy.
  destruct (nearest_ingredient_total box_item sign (sx, sy) category
              (ex_intro _ sy Hsy) Hc 0%nat None None) as [[[i q]|] ->].
  - apply IH; [exact Hs|]. apply Forall_delete_quantity. exact Hc.
  - apply IH; assumption.
Qed.

(** X24.  [ShopScan.filter_eligible_ingredients]: when the boxes of the
    eligible results and of the sold-out signs can be subscripted at 0 and
    1 the filter returns a list; when the first sold-out sign cannot, it
    raises, even if no result is eligible. *)
Theorem filter_eligible_raises box_item (rs : list OCRResult) :
  ((∀ r, r ∈ rs → eligible r ∨ sold_out_sign r →
         is_Some (corner box_item r)) →
   is_Some (filter_eligible_ingredients box_item rs)) ∧
  (∀ sign rest, filter sold_out_sign rs = sign :: rest →
                corner box_item sign = None →
                filter_eligible_ingredients box_item rs = None).
Proof.
  rewrite filter_eligible_ingredients_unfold. split.
  - intros H. apply remove_sold_out_total; apply Forall_forall; intros r Hr;
      apply list_elem_of_filter in Hr as [Hp Hr]; apply H; auto.
  - intros sign rest -> Hc. simpl. unfold corner in Hc.
    destruct (box_item (box sign) 0%nat); [|reflexivity].
    destruct (box_item (box sign) 1%nat); [discriminate | reflexivity].
Qed.

Lemma filter_eligible_raises_witness :
  is_Some (filter_eligible_ingredients seq_item shop_page) ∧
  filter_eligible_ingredients seq_item [boxless_sign] = None.
Proof.
  assert (Hall : ∀ r, r ∈ shop_page → eligible r ∨ sold_out_sign r →
                      is_Some (corner seq_item r)).
  { apply (proj1 (Forall_forall
                    (fun r => eligible r ∨ sold_out_sign r →
                              is_Some (corner seq_item r))
                    shop_page)).
    apply (bool_decide_unpack _). vm_compute. exact I. }
  assert (Hsign : filter sold_out_sign [boxless_sign] = [boxless_sign])
    by (vm_compute; reflexivity).
  assert (Hc : corner seq_item boxless_sign = None) by reflexivity.
  split.
  - apply (proj1 (filter_eligible_raises seq_item shop_page) Hall).
  - apply (proj2 (filter_eligible_raises seq_item [boxless_sign])
             boxless_sign [] Hsign Hc).
Defined.

(** ** The scanning loops *)

Lemma union_insert_recorded (s m : gmap string Z) k v :
  is_Some (s !! k) → s ∪ <[k := v]> m = s ∪ m.
Proof.
  intros [x Hx]. apply map_eq. intros j.
  destruct (decide (j = k)) as [-> | Hne].
  - rewrite !(lookup_union_l' _ _ k) by eauto. reflexivity.
  - rewrite !lookup_union, lookup_insert_ne by congruence. reflexivity.
Qed.

Lemma union_insert_fresh (s m : gmap string Z) k v :
  s !! k = None → <[k := v]> s ∪ m = s ∪ <[k := v]> m.
Proof.
  intros Hk. apply map_eq. intros j.
  destruct (decide (j = k)) as [-> | Hne].
  - rewrite (lookup_union_l' _ _ k)
      by (rewrite lookup_insert_eq; eauto).
    rewrite lookup_union_r by exact Hk.
    rewrite !lookup_insert_eq. reflexivity.
  - rewrite !lookup_union, !lookup_insert_ne by congruence. reflexivity.
Qed.

Lemma record_page_fold (l : list (string * Z)) :
  ∀ (s : gmap string Z) (b : bool) (s' : gmap string Z) (b' : bool),
  NoDup l.*1 →
  foldl (fun '(warehouse_stock, is_last_page) '(item, num) =>
           if decide (is_Some (warehouse_stock !! item))
           then (warehouse_stock, true)
           else (<[item := num]> warehouse_stock, is_last_page)
             : gmap string Z * bool)
        (s, b) l = (s', b') →
  s' = s ∪ list_to_map l ∧
  (b' = true ↔ b = true ∨ Exists (fun kv => is_Some (s !! kv.1)) l).
Proof.
  induction l as [|[k v] l IH]; intros s b s' b' Hnd H; simpl in H.
  - injection H as <- <-. split.
    + simpl. rewrite (right_id_L ∅ (∪)). reflexivity.
    + split; [auto|]. intros [H | H]; [exact H | inversion H].
  - rewrite fmap_cons in Hnd. apply NoDup_cons in Hnd as [Hk Hnd].
    destruct (decide (is_Some (s !! k))) as [Hin | Hout].
    + apply IH in H as [-> Hb]; [|exact Hnd]. split.
      * simpl. rewrite union_insert_recorded by exact Hin. reflexivity.
      * rewrite Hb. split; [|auto]. intros _. right. left. exact Hin.
    + apply IH in H as [-> Hb]; [|exact Hnd].
      assert (Hnone : s !! k = None).
      { destruct (s !! k) eqn:E; [exfalso; apply Hout; eauto | reflexivity]. }
      split.
      * simpl. apply union_insert_fresh. exact Hnone.
      * rewrite Hb. split.
        -- intros [Hb' | Hex]; [left; exact Hb'|]. right. right.
           apply Exists_exists in Hex as ([k' v'] & Hin & Hs).
           apply Exists_exists. exists (k', v'). split; [exact Hin|].
           simpl in *. rewrite lookup_insert_ne in Hs; [exact Hs|].
           intros <-. apply Hk. apply list_elem_of_fmap.
           exists (k, v'). auto.
        -- intros [Hb' | Hex]; [left; exact Hb'|]. right.
           apply Exists_cons in Hex as [Hex | Hex];
             [simpl in Hex; contradiction|].
           apply Exists_exists in Hex as ([k' v'] & Hin & Hs).
           apply Exists_exists. exists (k', v'). split; [exact Hin|].
           simpl in *. rewrite lookup_insert_ne; [exact Hs|].
           intros <-. apply Hk. apply list_elem_of_fmap.
           exists (k, v'). auto.
Qed.

Lemma record_warehouse_page_spec page stock :
  record_warehouse_page page stock =
  (stock ∪ page, bool_decide (overlap page stock)).
Proof.
  unfold record_warehouse_page, items.
  destruct (foldl _ (stock, false) (map_to_list page)) as [s' b'] eqn:E.
  apply record_page_fold in E as [-> Hb]; [|apply NoDup_fst_map_to_list].
  rewrite list_to_map_to_list. f_equal.
  assert (Hiff : b' = true ↔ overlap page stock).
  { rewrite Hb. unfold overlap. rewrite map_Exists_lookup, Exists_exists.
    split.
    - intros [? | ([k v] & Hin & Hs)]; [discriminate|].
      apply elem_of_map_to_list in Hin. exists k, v. auto.
    - intros (k & v & Hin & Hs). right. exists (k, v).
      split; [apply elem_of_map_to_list; exact Hin | exact Hs]. }
  destruct b'.
  - symmetry. apply bool_decide_eq_true. apply Hiff. reflexivity.
  - symmetry. apply bool_decide_eq_false. intros H. apply Hiff in H.
    discriminate.
Qed.

Lemma warehouse_scan_page int_text r0 rs rest stock n page :
  match_items_and_quantities int_text
    (List.filter above_threshold (r0 :: rs)) = Some page →
  warehouse_scan int_text (Some (r0 :: rs) :: rest) stock n =
  if decide (overlap page stock) then Returned (stock ∪ page)
  else warehouse_scan int_text rest (stock ∪ page) n.
Proof.
  intros H. cbn [warehouse_scan]. rewrite H.
  rewrite record_warehouse_page_spec.
  destruct (decide (overlap page stock)) as [Ho | Ho].
  - rewrite bool_decide_eq_true_2 by exact Ho. reflexivity.
  - rewrite bool_decide_eq_false_2 by exact Ho. reflexivity.
Qed.

(** X25.  [WarehouseScan.analyze]: a screen whose matching succeeds is
    merged into the stock without overwriting: items recorded before keep
    their quantity, the new items of the page are added, and the scan
    returns after this page exactly when the page holds an item recorded
    before; otherwise it goes on to the next screen with the failure
    counter unchanged. *)
Theorem warehouse_page_merged int_text r0 rs rest stock n page :
  match_items_and_quantities int_text
    (List.filter above_threshold (r0 :: rs)) = Some page →
  (∀ k, (stock ∪ page) !! k =
        match stock !! k with Some v => Some v | None => page !! k end) ∧
  (overlap page stock →
   warehouse_scan int_text (Some (r0 :: rs) :: rest) stock n =
   Returned (stock ∪ page)) ∧
  (¬ overlap page stock →
   warehouse_scan int_text (Some (r0 :: rs) :: rest) stock n =
   warehouse_scan int_text rest (stock ∪ page) n).
Proof.
  intros H. split; [|split].
  - intros k. rewrite lookup_union. destruct (stock !! k), (page !! k);
      reflexivity.
  - intros Ho. rewrite (warehouse_scan_page _ _ _ _ _ _ _ H).
    destruct (decide (overlap page stock)); [reflexivity | contradiction].
  - intros Ho. rewrite (warehouse_scan_page _ _ _ _ _ _ _ H).
    destruct (decide (overlap page stock)); [contradiction | reflexivity].
Qed.

Lemma warehouse_page_merged_witness :
  match_items_and_quantities decimal_text
    (List.filter above_threshold warehouse_page) = Some warehouse_page_stock ∧
  ¬ overlap warehouse_page_stock ∅ ∧
  overlap warehouse_page_stock warehouse_page_stock ∧
  warehouse_scan decimal_text
    [Some warehouse_page; Some warehouse_page] ∅ 0 =
  Returned warehouse_page_stock.
Proof.
  assert (H : match_items_and_quantities decimal_text
                (List.filter above_threshold warehouse_page) =
              Some warehouse_page_stock) by (vm_compute; reflexivity).
  assert (Hfirst : ¬ overlap warehouse_page_stock ∅).
  { apply (bool_decide_unpack _). vm_compute. exact I. }
  assert (Hsecond : overlap warehouse_page_stock warehouse_page_stock).
  { apply (bool_decide_unpack _). vm_compute. exact I. }
  split; [exact H|]. split; [exact Hfirst|]. split; [exact Hsecond|].
  destruct (warehouse_page_merged decimal_text egg_number
              [rice_label; egg_label; rice_number]
              [Some warehouse_page] ∅ 0 warehouse_page_stock H)
    as (_ & _ & Hnext).
  etransitivity; [exact (Hnext Hfirst)|].
  rewrite (left_id_L ∅ (∪)).
  destruct (warehouse_page_merged decimal_text egg_number
              [rice_label; egg_label; rice_number]
              [] warehouse_page_stock 0 warehouse_page_stock H)
    as (_ & Hlast & _).
  etransitivity; [exact (Hlast Hsecond)|].
  vm_compute. reflexivity.
Defined.

Lemma warehouse_scan_stock int_text screens : ∀ stock0 n stock,
  stock_of (warehouse_scan int_text screens stock0 n) = Some stock →
  stock0 ⊆ stock ∧
  ∀ k v, stock !! k = Some v →
         stock0 !! k = Some v ∨
         ∃ rs page,
           Some rs ∈ screens ∧
           match_items_and_quantities int_text
             (List.filter above_threshold rs) = Some page ∧
           page !! k = Some v.
Proof.
  induction screens as [|s rest IH]; intros stock0 n stock H.
  - simpl in H. injection H as <-. split; [reflexivity | auto].
  - destruct s as [[|r0 rs]|].
    + cbn [warehouse_scan] in H.
      destruct (max_failed_num <=? n).
      * simpl in H. injection H as <-. split; [reflexivity | auto].
      * apply IH in H as [Hsub Hprov]. split; [exact Hsub|].
        intros k v Hk. destruct (Hprov k v Hk) as [? | (rs & page & ? & ?)];
          [auto|]. right. exists rs, page. split; [right|]; assumption.
    + destruct (match_items_and_quantities int_text
                  (List.filter above_threshold (r0 :: rs))) as [page|] eqn:Em.
      2:{ cbn [warehouse_scan] in H. rewrite Em in H. discriminate. }
      rewrite (warehouse_scan_page _ _ _ _ _ _ _ Em) in H.
      assert (Hhere : ∀ k v, (stock0 ∪ page) !! k = Some v →
                stock0 !! k = Some v ∨
                ∃ rs' page',
                  Some rs' ∈ Some (r0 :: rs) :: rest ∧
                  match_items_and_quantities int_text
                    (List.filter above_threshold rs') = Some page' ∧
                  page' !! k = Some v).
      { intros k v Hk. apply lookup_union_Some_raw in Hk as [Hk | [_ Hk]];
          [auto|]. right. exists (r0 :: rs), page.
        split; [left|]; auto. }
      destruct (decide (overlap page stock0)).
      * simpl in H. injection H as <-.
        split; [apply map_union_subseteq_l | exact Hhere].
      * apply IH in H as [Hsub Hprov]. split.
        -- etransitivity; [apply map_union_subseteq_l | exact Hsub].
        -- intros k v Hk.
           destruct (Hprov k v Hk) as [Hu | (rs' & page' & ? & ?)];
             [apply Hhere; exact Hu|].
           right. exists rs', page'. split; [right|]; assumption.
    + cbn [warehouse_scan] in H.
      destruct (max_failed_num <=? n).
      * simpl in H. injection H as <-. split; [reflexivity | auto].
      * apply IH in H as [Hsub Hprov]. split; [exact Hsub|].
        intros k v Hk. destruct (Hprov k v Hk) as [? | (rs & page & ? & ?)];
          [auto|]. right. exists rs, page. split; [right|]; assumption.
Qed.

(** X26.  [WarehouseScan.analyze]: whatever the screens, the stock the
    scan holds (returned, or held when the screens are used up) extends
    the stock it started from without changing it, and every further
    entry is an entry of the matching of one of the screens, taken over
    the results above the score threshold. *)
Theorem warehouse_stock_provenance int_text screens stock0 n stock :
  stock_of (warehouse_scan int_text screens stock0 n) = Some stock →
  stock0 ⊆ stock ∧
  ∀ k v, stock !! k = Some v →
         stock0 !! k = Some v ∨
         ∃ rs page,
           Some rs ∈ screens ∧
           match_items_and_quantities int_text
             (List.filter above_threshold rs) = Some page ∧
           page !! k = Some v ∧
           ∃ r, r ∈ rs ∧ above_threshold r = true ∧ text r = k.
Proof.
  intros H. apply warehouse_scan_stock in H as [Hsub Hprov].
  split; [exact Hsub|]. intros k v Hk.
  destruct (Hprov k v Hk) as [? | (rs & page & Hin & Hm & Hp)]; [auto|].
  right. exists rs, page. split; [exact Hin|]. split; [exact Hm|].
  split; [exact Hp|].
  rewrite match_items_and_quantities_unfold in Hm.
  apply match_loop_spec in Hm as (Hkeys & _).
  destruct (Hkeys k) as [[? Hl] | (it & Hit & <-)];
    [eauto | rewrite lookup_empty in Hl; discriminate |].
  apply list_elem_of_filter in Hit as [_ Hit].
  apply list_elem_of_In, filter_In in Hit as [Hit Ha].
  exists it. split; [apply list_elem_of_In; exact Hit | auto].
Qed.

Lemma warehouse_stock_provenance_witness :
  stock_of (warehouse_scan decimal_text
              [None; Some warehouse_page; Some warehouse_page] ∅ 0) =
    Some warehouse_page_stock ∧
  ∅ ⊆ warehouse_page_stock ∧
  ∀ k v, warehouse_page_stock !! k = Some v →
         (∅ : gmap string Z) !! k = Some v ∨
         ∃ rs page,
           Some rs ∈ [None; Some warehouse_page; Some warehouse_page] ∧
           match_items_and_quantities decimal_text
             (List.filter above_threshold rs) = Some page ∧
           page !! k = Some v ∧
           ∃ r, r ∈ rs ∧ above_threshold r = true ∧ text r = k.
Proof.
  assert (H : stock_of (warehouse_scan decimal_text
                [None; Some warehouse_page; Some warehouse_page] ∅ 0) =
              Some warehouse_page_stock) by (vm_compute; reflexivity).
  split; [exact H|].
  apply (warehouse_stock_provenance decimal_text
           [None; Some warehouse_page; Some warehouse_page] ∅ 0
           warehouse_page_stock H).
Defined.

Lemma count_failed_cons s screens :
  count_failed (s :: screens) =
  (if failed s then 1 else 0) + count_failed screens.
Proof.
  unfold count_failed. simpl. destruct (failed s); simpl length; lia.
Qed.

Lemma count_failed_nonneg screens : 0 <= count_failed screens.
Proof. unfold count_failed. lia. Qed.

Lemma warehouse_scan_counter int_text screens : ∀ stock n stock' n',
  n <= max_failed_num →
  warehouse_scan int_text screens stock n = Scanning stock' n' →
  n' = n + count_failed screens ∧ n' <= max_failed_num.
Proof.
  induction screens as [|s rest IH]; intros stock n stock' n' Hn H.
  - simpl in H. injection H as <- <-. unfold count_failed. simpl. lia.
  - rewrite count_failed_cons. destruct s as [[|r0 rs]|]; cbn [failed].
    + cbn [warehouse_scan] in H.
      destruct (max_failed_num <=? n) eqn:E; [discriminate|].
      apply Z.leb_gt in E. apply IH in H; lia.
    + cbn [warehouse_scan] in H.
      destruct (match_items_and_quantities _ _) as [page|]; [|discriminate].
      destruct (record_warehouse_page page stock) as [s' [|]];
        [discriminate|].
      apply IH in H; lia.
    + cbn [warehouse_scan] in H.
      destruct (max_failed_num <=? n) eqn:E; [discriminate|].
      apply Z.leb_gt in E. apply IH in H; lia.
Qed.

Lemma shop_scan_counter box_item merchandises screens : ∀ stock n stock' n',
  n <= max_failed_num →
  shop_scan box_item merchandises screens stock n = Scanning stock' n' →
  n' = n + count_failed screens ∧ n' <= max_failed_num.
Proof.
  induction screens as [|s rest IH]; intros stock n stock' n' Hn H.
  - simpl in H. injection H as <- <-. unfold count_failed. simpl. lia.
  - rewrite count_failed_cons. destruct s as [[|r0 rs]|]; cbn [failed].
    + cbn [shop_scan] in H.
      destruct (max_failed_num <=? n) eqn:E; [discriminate|].
      apply Z.leb_gt in E. apply IH in H; lia.
    + cbn [shop_scan] in H.
      destruct (filter_eligible_ingredients _ _) as [category|];
        [|discriminate].
      destruct (record_shop_page merchandises category stock false)
        as [s' [|]]; [discriminate|].
      apply IH in H; lia.
    + cbn [shop_scan] in H.
      destruct (max_failed_num <=? n) eqn:E; [discriminate|].
      apply Z.leb_gt in E. apply IH in H; lia.
Qed.

Lemma warehouse_scan_all_failed int_text screens : ∀ stock n,
  Forall (fun s => failed s = true) screens →
  n <= max_failed_num →
  warehouse_scan int_text screens stock n =
  if max_failed_num <? n + count_failed screens then Returned stock
  else Scanning stock (n + count_failed screens).
Proof.
  induction screens as [|s rest IH]; intros stock n Hall Hn.
  - unfold count_failed. simpl. rewrite Z.add_0_r.
    destruct (max_failed_num <? n) eqn:E; [apply Z.ltb_lt in E; lia|].
    reflexivity.
  - apply Forall_cons in Hall as [Hs Hall]. rewrite count_failed_cons, Hs.
    pose proof (count_failed_nonneg rest) as Hc.
    assert (Hstep : warehouse_scan int_text (s :: rest) stock n =
                    if max_failed_num <=? n then Returned stock
                    else warehouse_scan int_text rest stock (n + 1)).
    { destruct s as [[|r0 rs]|]; [reflexivity | discriminate | reflexivity]. }
    rewrite Hstep. destruct (max_failed_num <=? n) eqn:E.
    + apply Z.leb_le in E.
      destruct (max_failed_num <? n + (1 + count_failed rest)) eqn:E';
        [reflexivity | apply Z.ltb_ge in E'; lia].
    + apply Z.leb_gt in E. rewrite IH by (assumption || lia).
      rewrite !Z.add_assoc. reflexivity.
Qed.

Lemma shop_scan_all_failed box_item merchandises screens : ∀ stock n,
  Forall (fun s => failed s = true) screens →
  n <= max_failed_num →
  shop_scan box_item merchandises screens stock n =
  if max_failed_num <? n + count_failed screens then Returned stock
  else Scanning stock (n + count_failed screens).
Proof.
  induction screens as [|s rest IH]; intros stock n Hall Hn.
  - unfold count_failed. simpl. rewrite Z.add_0_r.
    destruct (max_failed_num <? n) eqn:E; [apply Z.ltb_lt in E; lia|].
    reflexivity.
  - apply Forall_cons in Hall as [Hs Hall]. rewrite count_failed_cons, Hs.
    pose proof (count_failed_nonneg rest) as Hc.
    assert (Hstep : shop_scan box_item merchandises (s :: rest) stock n =
                    if max_failed_num <=? n then Returned stock
                    else shop_scan box_item merchandises rest stock (n + 1)).
    { destruct s as [[|r0 rs]|]; [reflexivity | discriminate | reflexivity]. }
    rewrite Hstep. destruct (max_failed_num <=? n) eqn:E.
    + apply Z.leb_le in E.
      destruct (max_failed_num <? n + (1 + count_failed rest)) eqn:E';
        [reflexivity | apply Z.ltb_ge in E'; lia].
    + apply Z.leb_gt in E. rewrite IH by (assumption || lia).
      rewrite !Z.add_assoc. reflexivity.
Qed.

(** X27.  [WarehouseScan.analyze], [ShopScan.analyze]: the failure counter
    of a scan is never reset.  While a scan is still running the counter
    is the number of failed recognitions among all the screens seen so far
    and is at most [max_failed_num]; and a scan that only sees failed
    recognitions returns its stock unchanged at the failure number
    [max_failed_num + 1]. *)
Theorem scan_failure_budget int_text box_item merchandises screens stock n :
  n <= max_failed_num →
  (∀ stock' n',
     warehouse_scan int_text screens stock n = Scanning stock' n' →
     n' = n + count_failed screens ∧ n' <= max_failed_num) ∧
  (∀ stock' n',
     shop_scan box_item merchandises screens stock n = Scanning stock' n' →
     n' = n + count_failed screens ∧ n' <= max_failed_num) ∧
  (Forall (fun s => failed s = true) screens →
   warehouse_scan int_text screens stock n =
     (if max_failed_num <? n + count_failed screens then Returned stock
      else Scanning stock (n + count_failed screens)) ∧
   shop_scan box_item merchandises screens stock n =
     (if max_failed_num <? n + count_failed screens then Returned stock
      else Scanning stock (n + count_failed screens))).
Proof.
  intros Hn. split; [|split].
  - intros stock' n'. apply warehouse_scan_counter. exact Hn.
  - intros stock' n'. apply shop_scan_counter. exact Hn.
  - intros Hall. split.
    + apply warehouse_scan_all_failed; assumption.
    + apply shop_scan_all_failed; assumption.
Qed.

Lemma scan_failure_budget_witness :
  count_failed failing_screens = 6 ∧
  warehouse_scan decimal_text failing_screens ∅ 0 = Returned ∅ ∧
  shop_scan seq_item merchandise_table failing_screens ∅ 0 = Returned ∅.
Proof.
  assert (Hn : 0 <= max_failed_num) by (unfold max_failed_num; lia).
  assert (Hall : Forall (fun s => failed s = true) failing_screens).
  { apply (bool_decide_unpack _). vm_compute. exact I. }
  split; [reflexivity|].
  destruct (scan_failure_budget decimal_text seq_item merchandise_table
              failing_screens ∅ 0 Hn) as (_ & _ & Hfail).
  exact (Hfail Hall).
Defined.

Lemma listed_merchandise_lookup merchandises category k :
  listed_merchandise merchandises category !! k =
  if decide (k ∈ text <$> category) then merchandises !! k else None.
Proof.
  unfold listed_merchandise.
  destruct (decide (k ∈ text <$> category)) as [Hin | Hout].
  - destruct (merchandises !! k) as [v|] eqn:E.
    + apply map_lookup_filter_Some. auto.
    + apply map_lookup_filter_None. left. exact E.
  - apply map_lookup_filter_None. right. intros v _. exact Hout.
Qed.

Lemma relisted_head merchandises stock r rest :
  is_Some (stock !! text r) → relisted merchandises stock (r :: rest).
Proof. intros H. exists 0%nat, r. split; [reflexivity | left; exact H]. Qed.

Lemma relisted_cons_insert merchandises stock r rest limit :
  stock !! text r = None →
  merchandises !! text r = Some limit →
  relisted merchandises (<[text r := limit]> stock) rest ↔
  relisted merchandises stock (r :: rest).
Proof.
  intros Hs Hm. split.
  - intros (i & r' & Hi & Hcase). exists (S i), r'. split; [exact Hi|].
    destruct (decide (text r' = text r)) as [Heq | Hne].
    + right. rewrite Heq, Hm. split; [eauto|]. simpl. left.
    + destruct Hcase as [Hin | [Hin Hbefore]].
      * left. rewrite lookup_insert_ne in Hin by congruence. exact Hin.
      * right. split; [exact Hin|]. simpl. right. exact Hbefore.
  - intros (i & r' & Hi & Hcase). destruct i as [|i]; simpl in Hi.
    + injection Hi as <-. destruct Hcase as [[? Hin] | [_ Hin]];
        [congruence | inversion Hin].
    + exists i, r'. split; [exact Hi|].
      destruct (decide (text r' = text r)) as [Heq | Hne].
      * left. rewrite Heq, lookup_insert_eq. eauto.
      * destruct Hcase as [Hin | [Hin Hbefore]].
        -- left. rewrite lookup_insert_ne by congruence. exact Hin.
        -- right. split; [exact Hin|]. simpl in Hbefore.
           apply elem_of_cons in Hbefore as [? | ?]; [congruence | assumption].
Qed.

Lemma relisted_cons_unlisted merchandises stock r rest :
  stock !! text r = None →
  merchandises !! text r = None →
  relisted merchandises stock rest ↔
  relisted merchandises stock (r :: rest).
Proof.
  intros Hs Hm. split.
  - intros (i & r' & Hi & Hcase). exists (S i), r'. split; [exact Hi|].
    destruct Hcase as [Hin | [Hin Hbefore]]; [left; exact Hin|].
    right. split; [exact Hin|]. simpl. right. exact Hbefore.
  - intros (i & r' & Hi & Hcase). destruct i as [|i]; simpl in Hi.
    + injection Hi as <-. destruct Hcase as [[? Hin] | [_ Hin]];
        [congruence | inversion Hin].
    + exists i, r'. split; [exact Hi|].
      destruct Hcase as [Hin | [Hin Hbefore]]; [left; exact Hin|].
      right. split; [exact Hin|]. simpl in Hbefore.
      apply elem_of_cons in Hbefore as [Heq | ?]; [|assumption].
      rewrite Heq, Hm in Hin. destruct Hin; discriminate.
Qed.

Lemma record_shop_page_spec merchandises category : ∀ stock b stock' b',
  record_shop_page merchandises category stock b = (stock', b') →
  stock' = stock ∪ listed_merchandise merchandises category ∧
  (b' = true ↔ b = true ∨ relisted merchandises stock category).
Proof.
  induction category as [|r rest IH]; intros stock b stock' b' H; simpl in H.
  - injection H as <- <-. split.
    + apply map_eq. intros k.
      rewrite lookup_union, listed_merchandise_lookup.
      destruct (decide (k ∈ text <$> [])) as [Hin | _]; [inversion Hin|].
      destruct (stock !! k); reflexivity.
    + split; [auto|]. intros [? | (i & r & Hi & _)]; [assumption|].
      discriminate.
  - destruct (decide (is_Some (stock !! text r))) as [Hin | Hout].
    + apply IH in H as [-> Hb]. split.
      * apply map_eq. intros k.
        rewrite !lookup_union, !listed_merchandise_lookup.
        destruct (stock !! k) as [v|] eqn:Ek.
        { destruct (decide (k ∈ text <$> rest)),
            (decide (k ∈ text <$> r :: rest)), (merchandises !! k);
            reflexivity. }
        assert (k ≠ text r) by (intros ->; destruct Hin; congruence).
        destruct (decide (k ∈ text <$> rest)) as [H1 | H1],
          (decide (k ∈ text <$> r :: rest)) as [H2 | H2]; try reflexivity.
        -- exfalso. apply H2. rewrite fmap_cons. right. exact H1.
        -- exfalso. rewrite fmap_cons in H2.
           apply elem_of_cons in H2 as [? | ?]; contradiction.
      * rewrite Hb. split; [|auto]. intros _. right.
        apply relisted_head. exact Hin.
    + assert (Hnone : stock !! text r = None).
      { destruct (stock !! text r) eqn:E;
          [exfalso; apply Hout; eauto | reflexivity]. }
      destruct (merchandises !! text r) as [limit|] eqn:Em.
      * apply IH in H as [-> Hb]. split.
        -- apply map_eq. intros k.
           rewrite !lookup_union, !listed_merchandise_lookup.
           destruct (decide (k = text r)) as [-> | Hne].
           ++ rewrite lookup_insert_eq, Hnone, Em.
              destruct (decide (text r ∈ text <$> r :: rest)) as [_ | H2];
                [|exfalso; apply H2; rewrite fmap_cons; left].
              destruct (decide (text r ∈ text <$> rest)); reflexivity.
           ++ rewrite lookup_insert_ne by congruence.
              destruct (decide (k ∈ text <$> rest)) as [H1 | H1],
                (decide (k ∈ text <$> r :: rest)) as [H2 | H2];
                try reflexivity.
              ** exfalso. apply H2. rewrite fmap_cons. right. exact H1.
              ** exfalso. rewrite fmap_cons in H2.
                 apply elem_of_cons in H2 as [? | ?]; contradiction.
        -- rewrite Hb, relisted_cons_insert by eassumption. reflexivity.
      * apply IH in H as [-> Hb]. split.
        -- apply map_eq. intros k.
           rewrite !lookup_union, !listed_merchandise_lookup.
           destruct (decide (k = text r)) as [-> | Hne].
           ++ rewrite Em.
              destruct (decide (text r ∈ text <$> rest)),
                (decide (text r ∈ text <$> r :: rest)); reflexivity.
           ++ destruct (decide (k ∈ text <$> rest)) as [H1 | H1],
                (decide (k ∈ text <$> r :: rest)) as [H2 | H2];
                try reflexivity.
              ** exfalso. apply H2. rewrite fmap_cons. right. exact H1.
              ** exfalso. rewrite fmap_cons in H2.
                 apply elem_of_cons in H2 as [? | ?]; contradiction.
        -- rewrite Hb, relisted_cons_unlisted by eassumption. reflexivity.
Qed.

Lemma relisted_decided merchandises stock category :
  relisted merchandises stock category ∨
  ¬ relisted merchandises stock category.
Proof.
  destruct (record_shop_page merchandises category stock false)
    as [stock' b'] eqn:E.
  apply record_shop_page_spec in E as [_ Hb]. destruct b'.
  - left. destruct (proj1 Hb eq_refl) as [? | ?]; [discriminate | assumption].
  - right. intros Hr. assert (false = true) by (apply Hb; auto).
    discriminate.
Qed.

Lemma shop_scan_page box_item merchandises r0 rs rest stock n category :
  filter_eligible_ingredients box_item (r0 :: rs) = Some category →
  (relisted merchandises stock category →
   shop_scan box_item merchandises (Some (r0 :: rs) :: rest) stock n =
   Returned (stock ∪ listed_merchandise merchandises category)) ∧
  (¬ relisted merchandises stock category →
   shop_scan box_item merchandises (Some (r0 :: rs) :: rest) stock n =
   shop_scan box_item merchandises rest
     (stock ∪ listed_merchandise merchandises category) n).
Proof.
  intros H. cbn [shop_scan]. rewrite H.
  destruct (record_shop_page merchandises category stock false)
    as [stock' b'] eqn:E.
  apply record_shop_page_spec in E as [-> Hb]. split.
  - intros Hr. destruct b'; [reflexivity|].
    assert (false = true) by (apply Hb; auto). discriminate.
  - intros Hr. destruct b'; [|reflexivity].
    destruct (proj1 Hb eq_refl) as [? | ?]; [discriminate | contradiction].
Qed.

(** X28.  [ShopScan.analyze]: a screen on which the filter succeeds adds
    to the stock the daily limits of those of its ingredients that the
    merchandise table lists and that were not recorded before, and changes
    no recorded entry.  The scan returns after this screen exactly when an
    ingredient is already recorded when its turn comes, before the screen
    or by an earlier result of the same screen that the table lists;
    otherwise it goes on with the failure counter unchanged. *)
Theorem shop_page_merged box_item merchandises r0 rs rest stock n category :
  filter_eligible_ingredients box_item (r0 :: rs) = Some category →
  (∀ k, (stock ∪ listed_merchandise merchandises category) !! k =
        match stock !! k with
        | Some v => Some v
        | None => if decide (k ∈ text <$> category)
                  then merchandises !! k else None
        end) ∧
  (relisted merchandises stock category →
   shop_scan box_item merchandises (Some (r0 :: rs) :: rest) stock n =
   Returned (stock ∪ listed_merchandise merchandises category)) ∧
  (¬ relisted merchandises stock category →
   shop_scan box_item merchandises (Some (r0 :: rs) :: rest) stock n =
   shop_scan box_item merchandises rest
     (stock ∪ listed_merchandise merchandises category) n).
Proof.
  intros H. split.
  - intros k. rewrite lookup_union, listed_merchandise_lookup.
    destruct (stock !! k), (decide (k ∈ text <$> category)),
      (merchandises !! k); reflexivity.
  - apply shop_scan_page. exact H.
Qed.

Lemma shop_page_merged_witness :
  filter_eligible_ingredients seq_item shop_page =
    Some [milk_label; flour_label] ∧
  ¬ relisted merchandise_table ∅ [milk_label; flour_label] ∧
  shop_scan seq_item merchandise_table [Some shop_page] ∅ 0 =
  Scanning shop_page_stock 0.
Proof.
  assert (H : filter_eligible_ingredients seq_item shop_page =
              Some [milk_label; flour_label]) by (vm_compute; reflexivity).
  assert (Hr : ¬ relisted merchandise_table ∅ [milk_label; flour_label]).
  { intros (i & r & Hi & Hcase).
    destruct i as [|[|i]]; simpl in Hi; [| |discriminate];
      injection Hi as <-; destruct Hcase as [[? Hs] | [_ Hin]];
      try (rewrite lookup_empty in Hs; discriminate);
      vm_compute in Hin; repeat (apply elem_of_cons in Hin as [Hin | Hin];
      [discriminate|]); inversion Hin. }
  split; [exact H|]. split; [exact Hr|].
  destruct (shop_page_merged seq_item merchandise_table milk_label
              [flour_label; sold_out_label; sugar_label; limit_label;
               salt_label] [] ∅ 0 [milk_label; flour_label] H)
    as (_ & _ & Hnext).
  etransitivity; [exact (Hnext Hr)|]. vm_compute. reflexivity.
Defined.

(** X29.  [ShopScan.analyze]: started from a stock that agrees with the
    merchandise table, the stock the scan holds (returned, or held when
    the screens are used up) extends the initial stock, agrees with the
    table on every entry, and every further key is the text of a result of
    one of the screens that is above the threshold and holds no marker. *)
Theorem shop_stock_within_table box_item merchandises screens :
  ∀ stock0 n stock,
  stock0 ⊆ merchandises →
  stock_of (shop_scan box_item merchandises screens stock0 n) = Some stock →
  stock0 ⊆ stock ∧ stock ⊆ merchandises ∧
  ∀ k, is_Some (stock !! k) →
       is_Some (stock0 !! k) ∨
       ∃ rs r, Some rs ∈ screens ∧ r ∈ rs ∧ eligible r ∧ text r = k.
Proof.
  induction screens as [|s rest IH]; intros stock0 n stock Hsub0 H.
  - simpl in H. injection H as <-. split; [reflexivity|]. split; auto.
  - assert (Hfail : stock_of (if max_failed_num <=? n then Returned stock0
                      else shop_scan box_item merchandises rest stock0 (n + 1))
                    = Some stock →
              stock0 ⊆ stock ∧ stock ⊆ merchandises ∧
              ∀ k, is_Some (stock !! k) →
                   is_Some (stock0 !! k) ∨
                   ∃ rs r, Some rs ∈ s :: rest ∧ r ∈ rs ∧ eligible r ∧
                           text r = k).
    { intros H'. destruct (max_failed_num <=? n).
      - simpl in H'. injection H' as <-. split; [reflexivity|]. split; auto.
      - apply IH in H' as (H1 & H2 & H3); [|exact Hsub0].
        split; [exact H1|]. split; [exact H2|]. intros k Hk.
        destruct (H3 k Hk) as [? | (rs & r & ? & ?)]; [auto|].
        right. exists rs, r. split; [right|]; assumption. }
    destruct s as [[|r0 rs]|]; [apply Hfail; exact H | | apply Hfail; exact H].
    clear Hfail.
    destruct (filter_eligible_ingredients box_item (r0 :: rs))
      as [category|] eqn:Ef.
    2:{ cbn [shop_scan] in H. rewrite Ef in H. discriminate. }
    set (stock1 := stock0 ∪ listed_merchandise merchandises category) in *.
    assert (Hsub1 : stock1 ⊆ merchandises).
    { apply map_union_least; [exact Hsub0|]. apply map_filter_subseteq. }
    assert (Hhere : ∀ k, is_Some (stock1 !! k) →
              is_Some (stock0 !! k) ∨
              ∃ rs' r, Some rs' ∈ Some (r0 :: rs) :: rest ∧ r ∈ rs' ∧
                       eligible r ∧ text r = k).
    { intros k [v Hk]. unfold stock1 in Hk.
      apply lookup_union_Some_raw in Hk as [Hk | [_ Hk]]; [eauto|].
      rewrite listed_merchandise_lookup in Hk.
      destruct (decide (k ∈ text <$> category)) as [Hin | _]; [|discriminate].
      apply list_elem_of_fmap in Hin as (r & -> & Hr).
      destruct (filter_eligible_elem _ _ _ _ Ef Hr) as [Hrs He].
      right. exists (r0 :: rs), r. split; [left|]; auto. }
    destruct (relisted_decided merchandises stock0 category) as [Hr | Hr].
    + rewrite (proj1 (shop_scan_page _ _ _ _ _ _ _ _ Ef) Hr) in H.
      simpl in H. injection H as <-.
      split; [apply map_union_subseteq_l|]. split; assumption.
    + rewrite (proj2 (shop_scan_page _ _ _ _ _ _ _ _ Ef) Hr) in H.
      apply IH in H as (H1 & H2 & H3); [|exact Hsub1].
      split; [etransitivity; [apply map_union_subseteq_l | exact H1]|].
      split; [exact H2|]. intros k Hk.
      destruct (H3 k Hk) as [Hu | (rs' & r & ? & ?)];
        [apply Hhere; exact Hu|].
      right. exists rs', r. split; [right|]; assumption.
Qed.

Lemma shop_stock_within_table_witness :
  (∅ : gmap string Z) ⊆ merchandise_table ∧
  stock_of (shop_scan seq_item merchandise_table
              [Some shop_page; None; Some shop_page] ∅ 0) =
    Some shop_page_stock ∧
  ∅ ⊆ shop_page_stock ∧ shop_page_stock ⊆ merchandise_table ∧
  ∀ k, is_Some (shop_page_stock !! k) →
       is_Some ((∅ : gmap string Z) !! k) ∨
       ∃ rs r, Some rs ∈ [Some shop_page; None; Some shop_page] ∧
               r ∈ rs ∧ eligible r ∧ text r = k.
Proof.
  assert (H0 : (∅ : gmap string Z) ⊆ merchandise_table)
    by apply map_empty_subseteq.
  assert (H : stock_of (shop_scan seq_item merchandise_table
                [Some shop_page; None; Some shop_page] ∅ 0) =
              Some shop_page_stock) by (vm_compute; reflexivity).
  split; [exact H0|]. split; [exact H|].
  apply (shop_stock_within_table seq_item merchandise_table
           [Some shop_page; None; Some shop_page] ∅ 0 shop_page_stock H0 H).
Defined.
